(** * Unscarred quiz runtime: validation, conditional display, scoring, engine

    A shallow embedding of the quiz core of the repository
    ([validation.ts], [scoring.ts], [QuizEngine.ts], [types.ts]) together with
    the properties its specification states about it, and further properties
    read off the code.

    Modelling conventions.
    - JavaScript numbers are rationals extended with [NaN] and the two
      infinities; the sign of zero is not modelled, every comparison and
      every special-value rule of the arithmetic operators used by the code
      is.  Comparisons, the sign of a difference, [Math.max] and [Math.min]
      are exact on doubles and are embedded on the rationals.  Sums and
      products of contributions are embedded exactly, which is what
      binary64 computes while the values are integers below [2^53] in
      magnitude.  Divisions, and the differences and products whose value
      is compared with a bound or rounded to an integer (percentages,
      progress, the spread, the tie test), are embedded as binary64 computes
      them: the operands read as doubles, the exact result rounded to the
      nearest double, ties to even (section Binary64).
    - JavaScript values are the JSON-like fragment the quiz handles:
      [undefined], [null], booleans, numbers, strings and arrays.
    - Strings are sequences of 8-bit code units.
    - Plain objects used as dictionaries ([state.answers], [CategoryScores])
      are association lists in insertion order, which is the order
      [Object.entries] yields for keys that are not array indices.
    - Host built-ins whose full behaviour is outside the quiz code
      ([Number.prototype.toString], string-to-number conversion, [parseFloat],
      [RegExp]) are parameters of the development, grouped in [Class Host].
    - A thrown exception is the [Throw] result; the clock is an explicit
      argument wherever the code evaluates [new Date()], and so is the
      stream of values of [Math.random()].
    - A property read on a dictionary sees own properties only: keys are not
      names of members of [Object.prototype].
    - The two regular expressions written out in [validation.ts] are
      embedded; [Array.prototype.sort] is a stable sort, which the language
      guarantees for a comparator that is consistent, as [b - a] is on
      numbers other than [NaN]. *)

From Stdlib Require Import ZArith QArith Qround Lqa Lia List String Ascii Bool.
From Stdlib Require Import DecimalString Qabs Qpower Permutation Sorted.
From Stdlib Require Qcanon.
Import ListNotations.

Local Open Scope Z_scope.

(* ------------------------------------------------------------------------- *)
(** ** Numbers *)

Inductive number : Type :=
| NaN
| NegInf
| Fin (q : Q)
| PosInf.

Definition num_of_Z (z : Z) : number := Fin (inject_Z z).
Definition num_of_nat (n : nat) : number := num_of_Z (Z.of_nat n).

Definition Qltb (x y : Q) : bool := negb (Qle_bool y x).

Definition num_neg (a : number) : number :=
  match a with
  | NaN => NaN
  | NegInf => PosInf
  | PosInf => NegInf
  | Fin x => Fin (Qred (- x))
  end.

(** [a + b] *)
Definition num_add (a b : number) : number :=
  match a, b with
  | NaN, _ | _, NaN => NaN
  | PosInf, NegInf | NegInf, PosInf => NaN
  | PosInf, _ | _, PosInf => PosInf
  | NegInf, _ | _, NegInf => NegInf
  | Fin x, Fin y => Fin (Qred (x + y))
  end.

(** [a - b] *)
Definition num_sub (a b : number) : number :=
  match a, b with
  | NaN, _ | _, NaN => NaN
  | PosInf, PosInf | NegInf, NegInf => NaN
  | PosInf, _ | _, NegInf => PosInf
  | NegInf, _ | _, PosInf => NegInf
  | Fin x, Fin y => Fin (Qred (x - y))
  end.

(** Sign of an infinity scaled by a finite factor: [NaN] for a zero factor. *)
Definition inf_times (positive : bool) (y : Q) : number :=
  if Qeq_bool y 0 then NaN
  else if Bool.eqb positive (Qltb 0 y) then PosInf else NegInf.

(** [a * b] *)
Definition num_mul (a b : number) : number :=
  match a, b with
  | NaN, _ | _, NaN => NaN
  | PosInf, PosInf | NegInf, NegInf => PosInf
  | PosInf, NegInf | NegInf, PosInf => NegInf
  | PosInf, Fin y | Fin y, PosInf => inf_times true y
  | NegInf, Fin y | Fin y, NegInf => inf_times false y
  | Fin x, Fin y => Fin (Qred (x * y))
  end.

(** [a / b]; a zero divisor is read as [+0]. *)
Definition num_div (a b : number) : number :=
  match a, b with
  | NaN, _ | _, NaN => NaN
  | PosInf, PosInf | PosInf, NegInf | NegInf, PosInf | NegInf, NegInf => NaN
  | PosInf, Fin y => if Qltb y 0 then NegInf else PosInf
  | NegInf, Fin y => if Qltb y 0 then PosInf else NegInf
  | Fin _, PosInf | Fin _, NegInf => Fin 0
  | Fin x, Fin y =>
      if Qeq_bool y 0 then
        (if Qeq_bool x 0 then NaN else if Qltb 0 x then PosInf else NegInf)
      else Fin (Qred (x / y))
  end.

(** [a < b] *)
Definition num_ltb (a b : number) : bool :=
  match a, b with
  | NaN, _ | _, NaN => false
  | _, NegInf => false
  | PosInf, _ => false
  | NegInf, _ => true
  | _, PosInf => true
  | Fin x, Fin y => Qltb x y
  end.

(** [a <= b] *)
Definition num_leb (a b : number) : bool :=
  match a, b with
  | NaN, _ | _, NaN => false
  | NegInf, _ => true
  | _, PosInf => true
  | _, NegInf => false
  | PosInf, _ => false
  | Fin x, Fin y => Qle_bool x y
  end.

(** [a > b] and [a >= b] *)
Definition num_gtb (a b : number) : bool := num_ltb b a.
Definition num_geb (a b : number) : bool := num_leb b a.

(** [a === b] on two numbers *)
Definition num_eqb (a b : number) : bool :=
  match a, b with
  | NegInf, NegInf | PosInf, PosInf => true
  | Fin x, Fin y => Qeq_bool x y
  | _, _ => false
  end.

(** [isNaN(a)] on a number *)
Definition isNaN (a : number) : bool :=
  match a with NaN => true | _ => false end.

(** Truthiness of a number: [0] and [NaN] are falsy. *)
Definition num_truthy (a : number) : bool :=
  match a with
  | NaN => false
  | Fin x => negb (Qeq_bool x 0)
  | _ => true
  end.

(** [a || b] on numbers *)
Definition num_or (a b : number) : number := if num_truthy a then a else b.

(** Binary step of [Math.max] and [Math.min]. *)
Definition num_max (a b : number) : number :=
  match a, b with
  | NaN, _ | _, NaN => NaN
  | _, _ => if num_ltb a b then b else a
  end.

Definition num_min (a b : number) : number :=
  match a, b with
  | NaN, _ | _, NaN => NaN
  | _, _ => if num_ltb b a then b else a
  end.

(** [Math.max(...l)] and [Math.min(...l)]: [-Infinity] and [Infinity] on no
    argument. *)
Definition Math_max (l : list number) : number := fold_left num_max l NegInf.
Definition Math_min (l : list number) : number := fold_left num_min l PosInf.

(** [Math.round(a)]: the nearest integer, halves rounded up. *)
Definition Math_round (a : number) : number :=
  match a with
  | Fin x => num_of_Z (Qfloor (x + (1 # 2)))
  | _ => a
  end.

Definition one : number := num_of_Z 1.
Definition zero : number := num_of_Z 0.

(* ------------------------------------------------------------------------- *)
(** ** Binary64

    The numbers of the language are doubles.  Where the code divides, or
    compares the value of a difference or a product with a bound, or rounds
    it to an integer, the result depends on how the operation rounds, and
    the operation is embedded as binary64 performs it: the exact result,
    rounded to the nearest double, ties to even.  [fl] reads a number as a
    double, so that a decimal such as 0.1 stands for the double nearest to
    it; it marks the operands that enter such an operation from outside. *)

(** [2^e] for an integer [e]. *)
Definition pow2 (e : Z) : Q := (2 ^ e)%Q.

(** [floor (log2 q)] for a positive [q]. *)
Definition ilog2 (q : Q) : Z :=
  let k := Z.log2 (Qnum q) - Z.log2 (Zpos (Qden q)) in
  if Qle_bool (pow2 k) q then k else k - 1.

(** The integer nearest to [s], the even one of two that are equally near. *)
Definition round_half_even (s : Q) : Z :=
  let f := Qfloor s in
  match Qcompare (s - inject_Z f) (1 # 2) with
  | Lt => f
  | Gt => f + 1
  | Eq => if Z.even f then f else f + 1
  end.

(** The exponent of the last place of the double nearest to a positive [q]:
    53 significant bits, and no exponent below that of the subnormals. *)
Definition ulp_exponent (q : Q) : Z := Z.max (ilog2 q - 52) (-1074).

(** [q] rounded to 53 significant bits, whatever its magnitude. *)
Definition round_mantissa (q : Q) : Q :=
  (inject_Z (round_half_even (q / pow2 (ulp_exponent q))) * pow2 (ulp_exponent q))%Q.

(** The double nearest to a positive rational: round to nearest, ties to
    even, [Infinity] from [2^1024] on. *)
Definition round_pos (q : Q) : number :=
  let v := round_mantissa q in
  if Qle_bool (pow2 1024) v then PosInf else Fin (Qred v).

(** The double nearest to a rational. *)
Definition round_double (q : Q) : number :=
  let q := Qred q in
  match Qcompare q 0 with
  | Eq => Fin 0
  | Gt => round_pos q
  | Lt => num_neg (round_pos (- q))
  end.

(** A number read as a double. *)
Definition fl (a : number) : number :=
  match a with
  | Fin q => round_double q
  | _ => a
  end.

(** [a - b], [a * b] and [a / b] on doubles. *)
Definition dsub (a b : number) : number := fl (num_sub a b).
Definition dmul (a b : number) : number := fl (num_mul a b).
Definition ddiv (a b : number) : number := fl (num_div a b).

(* ------------------------------------------------------------------------- *)
(** ** Values *)

#[local] Set Warnings "-register-all".

Inductive value : Type :=
| VUndefined
| VNull
| VBool (b : bool)
| VNum (n : number)
| VStr (s : string)
| VArr (a : list value).

(** [a === b].  Two arrays are equal only when they are the same object; the
    arrays met here (an answer, a condition value) are separate allocations. *)
Definition strict_eq (a b : value) : bool :=
  match a, b with
  | VUndefined, VUndefined => true
  | VNull, VNull => true
  | VBool x, VBool y => Bool.eqb x y
  | VNum x, VNum y => num_eqb x y
  | VStr x, VStr y => String.eqb x y
  | _, _ => false
  end.

(** SameValueZero, the comparison of [Array.prototype.includes]. *)
Definition same_value_zero (a b : value) : bool :=
  match a, b with
  | VNum NaN, VNum NaN => true
  | _, _ => strict_eq a b
  end.

(** Truthiness of a value. *)
Definition truthy (v : value) : bool :=
  match v with
  | VUndefined | VNull => false
  | VBool b => b
  | VNum n => num_truthy n
  | VStr s => negb (String.eqb s EmptyString)
  | VArr _ => true
  end.

(** Truthiness of an optional string property. *)
Definition str_truthy (o : option string) : bool :=
  match o with
  | Some s => negb (String.eqb s EmptyString)
  | None => false
  end.

(** [o || d] for an optional string property. *)
Definition str_or (o : option string) (d : string) : string :=
  match o with
  | Some s => if String.eqb s EmptyString then d else s
  | None => d
  end.

(** An optional property read as a value: absent is [undefined]. *)
Definition opt_str_value (o : option string) : value :=
  match o with Some s => VStr s | None => VUndefined end.

Definition opt_value (o : option value) : value :=
  match o with Some v => v | None => VUndefined end.

(* ------------------------------------------------------------------------- *)
(** ** Strings *)

(** White space and line terminators that [String.prototype.trim] strips,
    within 8-bit code units. *)
Definition is_space (c : ascii) : bool :=
  let n := nat_of_ascii c in
  (Nat.eqb n 9 || Nat.eqb n 10 || Nat.eqb n 11 || Nat.eqb n 12 || Nat.eqb n 13
   || Nat.eqb n 32 || Nat.eqb n 160)%bool.

Fixpoint trim_start (s : string) : string :=
  match s with
  | EmptyString => EmptyString
  | String c r => if is_space c then trim_start r else s
  end.

Fixpoint rev_string (s acc : string) : string :=
  match s with
  | EmptyString => acc
  | String c r => rev_string r (String c acc)
  end.

Definition trim (s : string) : string :=
  rev_string (trim_start (rev_string (trim_start s) EmptyString)) EmptyString.

(** [s.includes(sub)] *)
Fixpoint includes (s sub : string) : bool :=
  if String.prefix sub s then true
  else match s with
       | EmptyString => false
       | String _ r => includes r sub
       end.

(** [l.join(sep)] on already converted elements. *)
Definition join (sep : string) (l : list string) : string := String.concat sep l.

(** The length of a string or an array as a number. *)
Definition str_length (s : string) : number := num_of_nat (String.length s).
Definition arr_length {A : Type} (l : list A) : number := num_of_nat (List.length l).

(* ------------------------------------------------------------------------- *)
(** ** Exceptions *)

Inductive result (A : Type) : Type :=
| Ok (a : A)
| Throw (e : string).
Arguments Ok {A} a.
Arguments Throw {A} e.

Definition bind {A B : Type} (r : result A) (k : A -> result B) : result B :=
  match r with
  | Ok a => k a
  | Throw e => Throw e
  end.

Notation "'do' x <- r ;; k" := (bind r (fun x => k))
  (at level 10, x name, r at level 100, k at level 200).

(* ------------------------------------------------------------------------- *)
(** ** Data model ([types.ts])

    Record fields that no modelled function reads (display texts, icons,
    colours, layout hints) are left out. *)

Definition Date := Z.

Inductive ConditionOperator : Type :=
| OpEquals | OpNotEquals | OpContains | OpNotContains
| OpGreaterThan | OpLessThan | OpInRange.

(** [Condition.value : string | number | string[] | number[]] *)
Inductive CondValue : Type :=
| CStr (s : string)
| CNum (n : number)
| CStrs (l : list string)
| CNums (l : list number).

Definition cond_value (c : CondValue) : value :=
  match c with
  | CStr s => VStr s
  | CNum n => VNum n
  | CStrs l => VArr (map VStr l)
  | CNums l => VArr (map VNum l)
  end.

Record Condition : Type := {
  cond_questionId : string;
  cond_operator : ConditionOperator;
  cond_val : CondValue
}.

Inductive LogicOperator : Type := AND | OR.

Record ConditionalLogic : Type := {
  conditions : list Condition;
  logic_operator : LogicOperator
}.

Record ScoreContribution : Type := {
  category : string;
  sc_value : number;
  weight : option number
}.

Record ChoiceOption : Type := {
  letter : option string;
  opt_text : string;
  opt_val : option value;            (* string | number *)
  scores : option (list ScoreContribution);
  mask : option string;
  war : option string;
  archetype : option string
}.

Record LikertScale : Type := {
  points : number;
  scale_labels : list string
}.

(** The variant part of a question, one constructor per [QuestionType]. *)
Inductive QuestionKind : Type :=
| SingleChoice (options : list ChoiceOption)
| MultiChoice (options : list ChoiceOption) (minSelections maxSelections : option number)
| Binary (positiveLabel negativeLabel : option string)
         (positiveValue negativeValue : option number)
         (scoringCategory : option string)
| Likert (scale : LikertScale) (reverseCoded : option bool) (scoringCategory : option string)
| Slider (min max : number) (scoringCategory : option string)
| Scenario (scenario : string) (options : list ChoiceOption)
| Matrix
| Ranking
| TextInput (minLength maxLength : option number) (validationPattern : option string)
| ImageChoice.

Record Question : Type := {
  id : string;
  label : option string;
  required : option bool;
  conditionalDisplay : option ConditionalLogic;
  kind : QuestionKind
}.

Inductive ScoringType : Type :=
| HighestWins | Threshold | WeightedAverage | Composite | Spectrum.

Record ScoreThreshold : Type := {
  th_min : number;
  th_max : number;
  level : string
}.

Record ScoringCategory : Type := {
  cat_id : string;
  cat_name : string;
  maxScore : option number;
  thresholds : option (list ScoreThreshold)
}.

Record GroundZeroConfig : Type := {
  minCategories : number;
  maxSpread : number;
  minScore : number
}.

Record ScoringConfig : Type := {
  scoring_type : ScoringType;
  categories : list ScoringCategory;
  groundZeroThreshold : option GroundZeroConfig
}.

Record QuizOptions : Type := {
  randomizeQuestions : option bool;
  allowBackNavigation : option bool
}.

Record Quiz : Type := {
  quiz_id : string;
  questions : list Question;
  scoring : ScoringConfig;
  quiz_options : option QuizOptions
}.

Record QuizAnswer : Type := {
  ans_questionId : string;
  ans_value : value;
  ans_timestamp : Date
}.

(** [QuizMetadata]: free-form key/value pairs. *)
Definition QuizMetadata := list (string * value).

Record QuizState : Type := {
  quizId : string;
  currentQuestionIndex : Z;
  answers : list (string * QuizAnswer);
  startedAt : Date;
  completedAt : option Date;
  metadata : option QuizMetadata
}.

Inductive ValidationErrorCode : Type :=
| required_code | min_length | max_length | pattern_code
| min_selections | max_selections | out_of_range | invalid_format.

Record ValidationError : Type := {
  err_questionId : string;
  message : string;
  code : ValidationErrorCode
}.

Record ValidationResult : Type := {
  isValid : bool;
  errors : list ValidationError
}.

Definition CategoryScores := list (string * number).

Record ResultDimension : Type := {
  dim_category : string;
  dim_score : number;
  percentage : option number;
  dim_level : option string
}.

Record AnswerContribution : Type := {
  ac_questionId : string;
  questionLabel : string;
  answerText : string;
  ac_categories : list ScoreContribution
}.

Record QuizResult : Type := {
  resultKey : string;
  primary : ResultDimension;
  secondary : option ResultDimension;
  res_scores : CategoryScores;
  contributions : list AnswerContribution;
  isGroundZero : bool;
  timestamp : Date;
  res_metadata : option QuizMetadata
}.

(** Property access [obj[key]] on a dictionary. *)
Fixpoint lookup {A : Type} (key : string) (obj : list (string * A)) : option A :=
  match obj with
  | [] => None
  | (k, v) :: rest => if String.eqb k key then Some v else lookup key rest
  end.

(** Property assignment [obj[key] = v]: an existing key keeps its place and
    a new key goes last, as it does for keys that are not array indices. *)
Fixpoint assign {A : Type} (key : string) (v : A) (obj : list (string * A)) : list (string * A) :=
  match obj with
  | [] => [(key, v)]
  | (k, w) :: rest =>
      if String.eqb k key then (k, v) :: rest else (k, w) :: assign key v rest
  end.

(** Array indexing [l[i]] by a number that is an integer in range. *)
Definition index {A : Type} (l : list A) (i : Z) : option A :=
  if i <? 0 then None else nth_error l (Z.to_nat i).

(* ------------------------------------------------------------------------- *)
(** ** Validation and conditional display ([validation.ts]) *)

(** Host built-ins whose behaviour lies outside the quiz code. *)
Class Host : Type := {
  Number_toString : number -> string;        (* String(n) for a number *)
  StringToNumber : string -> number;         (* Number(s) for a string *)
  parseFloat : string -> number;
  (* [RegExp_test pattern text] is [new RegExp(pattern).test(text)]; [None]
     when the constructor throws a [SyntaxError]. *)
  RegExp_test : string -> string -> option bool
}.

Section Core.

Context {host : Host}.

(** [String(v)] *)
Fixpoint to_String (v : value) : string :=
  match v with
  | VUndefined => "undefined"
  | VNull => "null"
  | VBool true => "true"
  | VBool false => "false"
  | VNum n => Number_toString n
  | VStr s => s
  | VArr a =>
      join ","
        (map (fun e => match e with
                       | VUndefined | VNull => EmptyString
                       | _ => to_String e
                       end) a)
  end.

(** [Number(v)] *)
Definition to_Number (v : value) : number :=
  match v with
  | VUndefined => NaN
  | VNull => zero
  | VBool true => one
  | VBool false => zero
  | VNum n => n
  | VStr s => StringToNumber s
  | VArr _ => StringToNumber (to_String v)
  end.

(** Check if a value is empty *)
Definition isEmpty (v : value) : bool :=
  match v with
  | VUndefined | VNull => true
  | VStr s => String.eqb (trim s) EmptyString
  | VArr [] => true
  | _ => false
  end.

Definition mkError (qid : string) (msg : string) (c : ValidationErrorCode) : ValidationError :=
  {| err_questionId := qid; message := msg; code := c |}.

(** [`${n > 1 ? 's' : ''}`] *)
Definition plural (n : number) : string :=
  if num_gtb n one then "s" else EmptyString.

(** [cond ? [e] : []], the effect of a guarded [errors.push(e)]. *)
Definition push_if (cond : bool) (e : ValidationError) : list ValidationError :=
  if cond then [e] else [].

Definition validateMultiChoice (qid : string) (minSel maxSel : option number) (v : value)
  : list ValidationError :=
  let selections := match v with VArr a => a | _ => [] end in
  (match minSel with
   | Some m =>
       push_if (num_truthy m && num_ltb (arr_length selections) m)
         (mkError qid
            ("Please select at least " ++ Number_toString m ++ " option" ++ plural m)
            min_selections)
   | None => []
   end)
  ++
  (match maxSel with
   | Some m =>
       push_if (num_truthy m && num_gtb (arr_length selections) m)
         (mkError qid
            ("Please select no more than " ++ Number_toString m ++ " option" ++ plural m)
            max_selections)
   | None => []
   end).

Definition validateTextInput (qid : string) (minLen maxLen : option number)
    (pattern : option string) (v : value) : result (list ValidationError) :=
  let text := to_String (if truthy v then v else VStr EmptyString) in
  let e1 :=
    match minLen with
    | Some m =>
        push_if (num_truthy m && num_ltb (str_length text) m)
          (mkError qid
             ("Please enter at least " ++ Number_toString m ++ " characters")
             min_length)
    | None => []
    end in
  let e2 :=
    match maxLen with
    | Some m =>
        push_if (num_truthy m && num_gtb (str_length text) m)
          (mkError qid
             ("Please enter no more than " ++ Number_toString m ++ " characters")
             max_length)
    | None => []
    end in
  if str_truthy pattern then
    match RegExp_test (str_or pattern EmptyString) text with
    | None => Throw "SyntaxError"
    | Some matched =>
        Ok (e1 ++ e2 ++
            push_if (negb matched)
              (mkError qid "Please enter a valid format" pattern_code))
    end
  else Ok (e1 ++ e2).

(** [typeof value === 'number' ? value : parseFloat(String(value))] *)
Definition as_number (v : value) : number :=
  match v with
  | VNum n => n
  | _ => parseFloat (to_String v)
  end.

Definition validateSlider (qid : string) (mn mx : number) (v : value) : list ValidationError :=
  let num := as_number v in
  if isNaN num then
    [mkError qid "Please select a value" invalid_format]
  else
    push_if (num_ltb num mn || num_gtb num mx)
      (mkError qid
         ("Please select a value between " ++ Number_toString mn ++ " and "
            ++ Number_toString mx)
         out_of_range).

Definition validateLikert (qid : string) (v : value) : list ValidationError :=
  let num := as_number v in
  push_if (isNaN num) (mkError qid "Please select a rating" invalid_format).

(** [question.required !== false] *)
Definition is_required (question : Question) : bool :=
  match required question with
  | Some false => false
  | _ => true
  end.

(** Validate a single answer against its question requirements *)
Definition validateAnswer (question : Question) (v : value) : result ValidationResult :=
  if is_required question && isEmpty v then
    Ok {| isValid := false;
          errors := [mkError (id question) "This question requires an answer" required_code] |}
  else if isEmpty v then
    Ok {| isValid := true; errors := [] |}
  else
    do errs <-
      (match kind question with
       | MultiChoice _ mn mx => Ok (validateMultiChoice (id question) mn mx v)
       | TextInput mn mx pat => validateTextInput (id question) mn mx pat v
       | Slider mn mx _ => Ok (validateSlider (id question) mn mx v)
       | Likert _ _ _ => Ok (validateLikert (id question) v)
       | _ => Ok []
       end) ;;
    Ok {| isValid := Nat.eqb (List.length errs) 0; errors := errs |}.

(** [state.answers[qid]?.value] *)
Definition answer_value (state : QuizState) (qid : string) : value :=
  match lookup qid (answers state) with
  | Some a => ans_value a
  | None => VUndefined
  end.

Definition is_array (v : value) : bool :=
  match v with VArr _ => true | _ => false end.

(** [a.includes(x)] on an array *)
Definition arr_includes (a : list value) (x : value) : bool :=
  existsb (fun e => same_value_zero e x) a.

(** The bounds of a two-element condition value, as [in-range] compares
    them with a number. *)
Definition range_bounds (c : CondValue) : option (number * number) :=
  match c with
  | CStrs [lo; hi] => Some (StringToNumber lo, StringToNumber hi)
  | CNums [lo; hi] => Some (lo, hi)
  | _ => None
  end.

Definition evaluateCondition (condition : Condition) (state : QuizState) : bool :=
  let answerValue := answer_value state (cond_questionId condition) in
  let cv := cond_value (cond_val condition) in
  match cond_operator condition with
  | OpEquals => strict_eq answerValue cv
  | OpNotEquals => negb (strict_eq answerValue cv)
  | OpContains =>
      match answerValue with
      | VArr a => arr_includes a cv
      | _ => includes (to_String answerValue) (to_String cv)
      end
  | OpNotContains =>
      match answerValue with
      | VArr a => negb (arr_includes a cv)
      | _ => negb (includes (to_String answerValue) (to_String cv))
      end
  | OpGreaterThan => num_gtb (to_Number answerValue) (to_Number cv)
  | OpLessThan => num_ltb (to_Number answerValue) (to_Number cv)
  | OpInRange =>
      match range_bounds (cond_val condition) with
      | Some (lo, hi) =>
          let num := to_Number answerValue in
          num_geb num lo && num_leb num hi
      | None => false
      end
  end.

(** Evaluate conditional display logic *)
Definition evaluateConditions (logic : ConditionalLogic) (state : QuizState) : bool :=
  let results := map (fun condition => evaluateCondition condition state) (conditions logic) in
  match logic_operator logic with
  | AND => forallb (fun b => b) results
  | OR => existsb (fun b => b) results
  end.

(** [!q.conditionalDisplay || evaluateConditions(q.conditionalDisplay, state)] *)
Definition is_visible (q : Question) (state : QuizState) : bool :=
  match conditionalDisplay q with
  | None => true
  | Some logic => evaluateConditions logic state
  end.

(** Validate all answers in a quiz state *)
Fixpoint validateQuizState_errors (qs : list Question) (state : QuizState)
  : result (list ValidationError) :=
  match qs with
  | [] => Ok []
  | question :: rest =>
      if negb (is_visible question state) then validateQuizState_errors rest state
      else
        do r <- validateAnswer question (answer_value state (id question)) ;;
        do more <- validateQuizState_errors rest state ;;
        Ok (errors r ++ more)
  end.

Definition validateQuizState (qs : list Question) (state : QuizState) : result ValidationResult :=
  do allErrors <- validateQuizState_errors qs state ;;
  Ok {| isValid := Nat.eqb (List.length allErrors) 0; errors := allErrors |}.

(** Check if quiz is complete (all required questions answered) *)
Definition isQuizComplete (qs : list Question) (state : QuizState) : bool :=
  forallb
    (fun question =>
       if negb (is_visible question state) then true
       else if is_required question then negb (isEmpty (answer_value state (id question)))
       else true)
    qs.

(** Get list of unanswered required questions *)
Definition getUnansweredQuestions (qs : list Question) (state : QuizState) : list Question :=
  filter
    (fun question =>
       if negb (is_visible question state) then false
       else if negb (is_required question) then false
       else isEmpty (answer_value state (id question)))
    qs.

(** Get total visible question count *)
Definition visibleQuestions (qs : list Question) (state : QuizState) : list Question :=
  filter (fun q => is_visible q state) qs.

Definition getVisibleQuestionCount (qs : list Question) (state : QuizState) : number :=
  arr_length (visibleQuestions qs state).

(** Calculate quiz progress percentage *)
Definition calculateProgress (qs : list Question) (state : QuizState) : number :=
  let visible := visibleQuestions qs state in
  if Nat.eqb (List.length visible) 0 then num_of_Z 100
  else
    let answered :=
      filter (fun q => negb (isEmpty (answer_value state (id q)))) visible in
    Math_round (dmul (ddiv (arr_length answered) (arr_length visible)) (num_of_Z 100)).


(* ------------------------------------------------------------------------- *)
(** ** Scoring ([scoring.ts], class [ScoringEngine])

    The engine's two fields are [quiz.questions] and [config = quiz.scoring];
    its methods take the quiz as first argument. *)

(** [contrib.weight ?? 1] *)
Definition weight_or_one (c : ScoreContribution) : number :=
  match weight c with Some w => w | None => one end.

(** [opt.letter === v || opt.value === v] *)
Definition option_matches (v : value) (opt : ChoiceOption) : bool :=
  strict_eq (opt_str_value (letter opt)) v || strict_eq (opt_value (opt_val opt)) v.

(** [if (tag) contributions.push({ category: tag, value: 1 })] *)
Definition tag_contribution (tag : option string) : list ScoreContribution :=
  match tag with
  | Some s =>
      if String.eqb s EmptyString then []
      else [{| category := s; sc_value := one; weight := None |}]
  | None => []
  end.

(** What a selected single-choice or scenario option contributes: its direct
    scores, then the legacy war, mask and archetype tags. *)
Definition optionContributions (opt : ChoiceOption) : list ScoreContribution :=
  (match scores opt with Some l => l | None => [] end)
  ++ tag_contribution (war opt)
  ++ tag_contribution (mask opt)
  ++ tag_contribution (archetype opt).

Definition contribution (cat : string) (v : number) : ScoreContribution :=
  {| category := cat; sc_value := v; weight := None |}.

(** Get score contributions from a single answer *)
Definition getScoreContributionsFromAnswer (question : Question) (answerValue : value)
  : list ScoreContribution :=
  match kind question with
  | SingleChoice options | Scenario _ options =>
      match find (option_matches answerValue) options with
      | Some opt => optionContributions opt
      | None => []
      end
  | Binary _ _ positiveValue _ scoringCategory =>
      let positive := match positiveValue with Some p => p | None => one end in
      let score := if strict_eq answerValue (VNum positive) then one else zero in
      if str_truthy scoringCategory && num_gtb score zero
      then [contribution (str_or scoringCategory EmptyString) score]
      else []
  | Likert scale reverseCoded scoringCategory =>
      let score := match answerValue with VNum n => n | _ => zero end in
      let score :=
        match reverseCoded with
        | Some true => num_add (num_sub (points scale) score) one
        | _ => score
        end in
      if str_truthy scoringCategory
      then [contribution (str_or scoringCategory EmptyString) score]
      else []
  | MultiChoice options _ _ =>
      let values := match answerValue with VArr a => a | _ => [answerValue] end in
      flat_map
        (fun val =>
           match find (option_matches val) options with
           | Some opt => match scores opt with Some l => l | None => [] end
           | None => []
           end)
        values
  | Slider _ _ scoringCategory =>
      match answerValue with
      | VNum n =>
          if str_truthy scoringCategory
          then [contribution (str_or scoringCategory EmptyString) n]
          else []
      | _ => []
      end
  | _ => []
  end.

(** [this.quiz.questions.find(q => q.id === questionId)] *)
Definition findQuestion (quiz : Quiz) (questionId : string) : option Question :=
  find (fun q => String.eqb (id q) questionId) (questions quiz).

(** [scores[cat] || 0] *)
Definition score_or_zero (scores : CategoryScores) (cat : string) : number :=
  match lookup cat scores with
  | Some n => num_or n zero
  | None => zero
  end.

(** [scores[c.category] = (scores[c.category] || 0) + c.value * weight] *)
Definition addContribution (scores : CategoryScores) (c : ScoreContribution) : CategoryScores :=
  assign (category c)
    (num_add (score_or_zero scores (category c)) (num_mul (sc_value c) (weight_or_one c)))
    scores.

(** Initialize all categories to 0 *)
Definition initialScores (config : ScoringConfig) : CategoryScores :=
  fold_left (fun scores cat => assign (cat_id cat) zero scores) (categories config) [].

(** Calculate scores for all categories *)
Definition calculateCategoryScores (quiz : Quiz) (state : QuizState) : CategoryScores :=
  fold_left
    (fun scores entry =>
       match findQuestion quiz (fst entry) with
       | None => scores
       | Some question =>
           fold_left addContribution
             (getScoreContributionsFromAnswer question (ans_value (snd entry)))
             scores
       end)
    (answers state)
    (initialScores (scoring quiz)).

(** Get human-readable answer text *)
Definition getAnswerText (question : Question) (v : value) : string :=
  match kind question with
  | SingleChoice options | Scenario _ options =>
      match find (option_matches v) options with
      | Some opt => if String.eqb (opt_text opt) EmptyString then to_String v else opt_text opt
      | None => to_String v
      end
  | Binary positiveLabel negativeLabel positiveValue _ _ =>
      let positive := match positiveValue with Some p => p | None => one end in
      if strict_eq v (VNum positive)
      then str_or positiveLabel "Yes"
      else str_or negativeLabel "No"
  | _ => to_String v
  end.

(** Get detailed answer contributions for results breakdown *)
Definition getAnswerContributions (quiz : Quiz) (state : QuizState) : list AnswerContribution :=
  flat_map
    (fun entry =>
       match findQuestion quiz (fst entry) with
       | None => []
       | Some question =>
           let scoreContribs :=
             getScoreContributionsFromAnswer question (ans_value (snd entry)) in
           if Nat.eqb (List.length scoreContribs) 0 then []
           else [{| ac_questionId := fst entry;
                    questionLabel := str_or (label question) (id question);
                    answerText := getAnswerText question (ans_value (snd entry));
                    ac_categories := scoreContribs |}]
       end)
    (answers state).

(** [opt.war === categoryId] for an optional tag *)
Definition tag_is (tag : option string) (categoryId : string) : bool :=
  match tag with Some s => String.eqb s categoryId | None => false end.

(** Estimate max possible score for a category *)
Definition estimateMaxScore (quiz : Quiz) (categoryId : string) : number :=
  let max :=
    fold_left
      (fun max q =>
         match kind q with
         | SingleChoice options | Scenario _ options =>
             fold_left
               (fun max opt =>
                  let max :=
                    match scores opt with
                    | Some l =>
                        fold_left
                          (fun max sc =>
                             if String.eqb (category sc) categoryId
                             then num_add max (num_mul (sc_value sc) (weight_or_one sc))
                             else max)
                          l max
                    | None => max
                    end in
                  if tag_is (war opt) categoryId || tag_is (mask opt) categoryId
                  then num_add max one
                  else max)
               options max
         | _ => max
         end)
      (questions quiz) zero in
  num_or max (num_of_Z 10).   (* Fallback *)

(** [this.config.categories.find(c => c.id === categoryId)] *)
Definition findCategory (quiz : Quiz) (categoryId : string) : option ScoringCategory :=
  find (fun c => String.eqb (cat_id c) categoryId) (categories (scoring quiz)).

(** Get score level based on thresholds *)
Definition getScoreLevel (quiz : Quiz) (categoryId : string) (score : number) : string :=
  match findCategory quiz categoryId with
  | Some cat =>
      match thresholds cat with
      | Some ths =>
          match find (fun th => num_geb score (th_min th) && num_leb score (th_max th)) ths with
          | Some th => level th
          | None => "unknown"
          end
      | None => "unknown"
      end
  | None => "unknown"
  end.

(** [category?.maxScore || this.estimateMaxScore(key)] *)
Definition maxScoreOf (quiz : Quiz) (key : string) : number :=
  match findCategory quiz key with
  | Some cat =>
      match maxScore cat with
      | Some m => if num_truthy m then m else estimateMaxScore quiz key
      | None => estimateMaxScore quiz key
      end
  | None => estimateMaxScore quiz key
  end.

(** The dimension built from one sorted entry; the code writes this block
    once for the primary and once for the secondary entry. *)
Definition resultDimension (quiz : Quiz) (entry : string * number) : ResultDimension :=
  let m := fl (maxScoreOf quiz (fst entry)) in
  {| dim_category := fst entry;
     dim_score := snd entry;
     percentage :=
       Some (if num_gtb m zero
             then dmul (ddiv (fl (snd entry)) m) (num_of_Z 100)
             else zero);
     dim_level := Some (getScoreLevel quiz (fst entry) (snd entry)) |}.

(** The comparator [(a, b) => b[1] - a[1]] says [a] goes after [b]. *)
Definition sorts_after (a b : string * number) : bool :=
  num_gtb (num_sub (snd b) (snd a)) zero.

Fixpoint insert_entry (x : string * number) (l : list (string * number)) : list (string * number) :=
  match l with
  | [] => [x]
  | y :: rest => if sorts_after x y then y :: insert_entry x rest else x :: l
  end.

(** [l.sort((a, b) => b[1] - a[1])]: a stable sort, by descending score. *)
Definition sort_by_score (l : list (string * number)) : list (string * number) :=
  fold_right insert_entry [] l.

(** Determine primary and secondary result dimensions *)
Definition determinePrimaryResult (quiz : Quiz) (scores : CategoryScores)
  : ResultDimension * option ResultDimension :=
  let sorted := sort_by_score (filter (fun e => num_gtb (snd e) zero) scores) in
  match sorted with
  | [] =>
      ({| dim_category := "unknown"; dim_score := zero;
          percentage := None; dim_level := None |}, None)
  | first :: rest =>
      (resultDimension quiz first,
       match rest with
       | second :: _ => Some (resultDimension quiz second)
       | [] => None
       end)
  end.

Definition warCategories : list string :=
  ["abandonment"; "exposure"; "entrapment"; "erasure"]%string.
Definition maskCategories : list string :=
  ["flooded"; "armored"; "phantom"; "analyzer"]%string.

(** Check if this is a "ground zero" all-fronts result *)
Definition checkGroundZero (quiz : Quiz) (scores : CategoryScores) : bool :=
  match groundZeroThreshold (scoring quiz) with
  | None => false
  | Some gzConfig =>
      let warScores :=
        filter (fun score => num_geb score (minScore gzConfig))
          (map (fun war => score_or_zero scores war) warCategories) in
      if num_ltb (arr_length warScores) (minCategories gzConfig) then false
      else
        let max := Math_max warScores in
        let min := Math_min warScores in
        num_leb (dsub (fl max) (fl min)) (fl (maxSpread gzConfig))
  end.

(** Get the highest scoring category from a specific list *)
Definition getTopFromList (scores : CategoryScores) (cats : list string) : option string :=
  fst
    (fold_left
       (fun acc cat =>
          let score := score_or_zero scores cat in
          if num_gtb score (snd acc) then (Some cat, score) else acc)
       cats
       (None, num_of_Z (-1))).

Definition is_composite (t : ScoringType) : bool :=
  match t with Composite => true | _ => false end.

(** Build the result key string (e.g., "abandonment-flooded") *)
Definition buildResultKey (quiz : Quiz) (primary : ResultDimension)
    (secondary : option ResultDimension) (scores : CategoryScores) : string :=
  let highestWins :=
    match secondary with
    | Some s => (dim_category primary ++ "-" ++ dim_category s)%string
    | None => dim_category primary
    end in
  if is_composite (scoring_type (scoring quiz)) then
    let topWar := getTopFromList scores warCategories in
    let topMask := getTopFromList scores maskCategories in
    if str_truthy topWar && str_truthy topMask
    then (str_or topWar EmptyString ++ "-" ++ str_or topMask EmptyString)%string
    else highestWins
  else highestWins.

(** Calculate complete quiz results from state; [now] is the value of
    [new Date()]. *)
Definition calculateResults (now : Date) (quiz : Quiz) (state : QuizState) : QuizResult :=
  let scores := calculateCategoryScores quiz state in
  let contributions := getAnswerContributions quiz state in
  let '(primary, secondary) := determinePrimaryResult quiz scores in
  let isGroundZero := checkGroundZero quiz scores in
  let resultKey :=
    if isGroundZero then "ground-zero"%string
    else buildResultKey quiz primary secondary scores in
  {| resultKey := resultKey;
     primary := primary;
     secondary := secondary;
     res_scores := scores;
     contributions := contributions;
     isGroundZero := isGroundZero;
     timestamp := now;
     res_metadata := metadata state |}.

(* ------------------------------------------------------------------------- *)
(** ** Engine ([QuizEngine.ts], class [QuizEngine])

    The engine object is a record of its fields.  What a method does to the
    outside world is appended to [effects]: an event handed to the
    subscribers, a console line in debug mode, a snapshot written to local
    storage, a timer armed for the automatic advance.  Subscribers are
    observers: they do not call back into the engine while an event is being
    delivered.  [clock k] is the value of the [k]-th evaluation of
    [new Date()] within one method call.  The methods embedded are the ones
    the properties below are about: [getQuestion], [getCurrentQuestion],
    [getVisibleQuestions], [emit], [saveProgress], [submitAnswer] and
    [next]. *)

Inductive QuizEventType : Type :=
| quiz_started | quiz_question_answered | quiz_question_skipped | quiz_navigation
| quiz_completed | quiz_results_viewed | quiz_restarted | quiz_email_submitted.

Record QuizEvent : Type := {
  ev_type : QuizEventType;
  ev_quizId : string;
  ev_timestamp : Date;
  ev_data : list (string * value)
}.

Record QuizConfig : Type := {
  autoAdvance : option bool;
  autoAdvanceDelay : option number;
  debugMode : option bool;
  persistAnswers : option bool;
  storageKey : option string;
  webhookUrl : option string
}.

(** [{ state, questionOrder, savedAt }], the value handed to
    [JSON.stringify]. *)
Record Snapshot : Type := {
  snap_state : QuizState;
  snap_questionOrder : list Z;
  savedAt : Date
}.

Inductive Effect : Type :=
| Emitted (ev : QuizEvent)
| Logged (line : string)
| Stored (key : option string) (snap : Snapshot)
| Scheduled (delay : option number).

Record Engine : Type := {
  quiz : Quiz;
  config : QuizConfig;
  state : QuizState;
  questionOrder : list Z;
  effects : list Effect
}.

Definition flag (o : option bool) : bool :=
  match o with Some true => true | _ => false end.

Definition with_state (e : Engine) (s : QuizState) : Engine :=
  {| quiz := quiz e; config := config e; state := s;
     questionOrder := questionOrder e; effects := effects e |}.

Definition perform (e : Engine) (fx : list Effect) : Engine :=
  {| quiz := quiz e; config := config e; state := state e;
     questionOrder := questionOrder e; effects := effects e ++ fx |}.

(** Get question by index (accounting for ordering) *)
Definition getQuestion (e : Engine) (i : Z) : option Question :=
  match index (questionOrder e) i with
  | Some actualIndex => index (questions (quiz e)) actualIndex
  | None => None
  end.

(** Get current question *)
Definition getCurrentQuestion (e : Engine) : option Question :=
  getQuestion e (currentQuestionIndex (state e)).

(** Get all visible questions (accounting for conditional logic) *)
Definition getVisibleQuestions (e : Engine) : list Question :=
  visibleQuestions (questions (quiz e)) (state e).

Definition emit (now : Date) (type : QuizEventType) (data : list (string * value))
    (e : Engine) : Engine :=
  let event := {| ev_type := type; ev_quizId := quiz_id (quiz e);
                  ev_timestamp := now; ev_data := data |} in
  perform e (Emitted event
             :: (if flag (debugMode (config e)) then [Logged "[QuizEngine] Event:"] else [])).

Definition saveProgress (now : Date) (e : Engine) : Engine :=
  perform e
    [Stored (storageKey (config e))
       {| snap_state := state e; snap_questionOrder := questionOrder e; savedAt := now |}].

(** [this.state.answers[question.id] = { questionId, value, timestamp }] *)
Definition storeAnswer (now : Date) (qid : string) (v : value) (s : QuizState) : QuizState :=
  {| quizId := quizId s;
     currentQuestionIndex := currentQuestionIndex s;
     answers := assign qid {| ans_questionId := qid; ans_value := v; ans_timestamp := now |}
                  (answers s);
     startedAt := startedAt s;
     completedAt := completedAt s;
     metadata := metadata s |}.

Definition moveTo (i : Z) (s : QuizState) : QuizState :=
  {| quizId := quizId s;
     currentQuestionIndex := i;
     answers := answers s;
     startedAt := startedAt s;
     completedAt := completedAt s;
     metadata := metadata s |}.

(** Submit an answer for the current question *)
Definition submitAnswer (clock : nat -> Date) (v : value) (e : Engine)
  : result ValidationResult * Engine :=
  match getCurrentQuestion e with
  | None =>
      (Ok {| isValid := false;
             errors := [mkError EmptyString "No current question" required_code] |}, e)
  | Some question =>
      match validateAnswer question v with
      | Throw x => (Throw x, e)
      | Ok validation =>
          if negb (isValid validation) then (Ok validation, e)
          else
            let e := with_state e (storeAnswer (clock 0%nat) (id question) v (state e)) in
            let e :=
              emit (clock 1%nat) quiz_question_answered
                [("questionId"%string, VStr (id question));
                 ("value"%string, v);
                 ("questionIndex"%string,
                  VNum (num_of_Z (currentQuestionIndex (state e))))]
                e in
            let e := if flag (persistAnswers (config e)) then saveProgress (clock 2%nat) e else e in
            let e :=
              if flag (autoAdvance (config e))
              then perform e [Scheduled (autoAdvanceDelay (config e))]
              else e in
            (Ok {| isValid := true; errors := [] |}, e)
      end
  end.

(** The loop of [next()]: from [nextIndex], the first index below the number
    of questions whose question exists and is visible; [fuel] bounds the
    iterations. *)
Fixpoint scanForward (e : Engine) (fuel : nat) (nextIndex : Z) : Z :=
  match fuel with
  | O => nextIndex
  | S fuel' =>
      if nextIndex <? Z.of_nat (List.length (questions (quiz e))) then
        match getQuestion e nextIndex with
        | Some question =>
            if is_visible question (state e) then nextIndex
            else scanForward e fuel' (nextIndex + 1)
        | None => scanForward e fuel' (nextIndex + 1)
        end
      else nextIndex
  end.

(** Navigate to next question *)
Definition next (clock : nat -> Date) (e : Engine) : bool * Engine :=
  match getCurrentQuestion e with
  | None => (false, e)
  | Some _ =>
      let len := Z.of_nat (List.length (questions (quiz e))) in
      let start := currentQuestionIndex (state e) + 1 in
      let nextIndex := scanForward e (Z.to_nat (len - start)) start in
      if nextIndex >=? len then (false, e)
      else
        let e := with_state e (moveTo nextIndex (state e)) in
        let e :=
          emit (clock 0%nat) quiz_navigation
            [("direction"%string, VStr "next"); ("index"%string, VNum (num_of_Z nextIndex))]
            e in
        let e := if flag (persistAnswers (config e)) then saveProgress (clock 1%nat) e else e in
        (true, e)
  end.

End Core.

Arguments to_String {host} v.

(* ------------------------------------------------------------------------- *)
(** ** Validation utilities ([validation.ts], continued) *)

(** [s] contains the character [>]. *)
Fixpoint has_gt (s : string) : bool :=
  match s with
  | EmptyString => false
  | String c r => Ascii.eqb c ">" || has_gt r
  end.

(** [s.replace(/<[^>]*>/g, '')].  A match starts at a [<] that has a [>]
    somewhere after it and ends at the first such [>]; [inside] says the scan
    is within a match. *)
Fixpoint strip_tags (inside : bool) (s : string) : string :=
  match s with
  | EmptyString => EmptyString
  | String c r =>
      if inside then
        (if Ascii.eqb c ">" then strip_tags false r else strip_tags true r)
      else if Ascii.eqb c "<" && has_gt r then strip_tags true r
      else String c (strip_tags false r)
  end.

(** The canonical form the [i] flag compares characters by: ASCII letters in
    upper case, every other code unit itself. *)
Definition upper_ascii (c : ascii) : ascii :=
  let n := nat_of_ascii c in
  if (Nat.leb 97 n && Nat.leb n 122)%bool then ascii_of_nat (n - 32) else c.

(** [p] is a prefix of [s] up to the case of ASCII letters. *)
Fixpoint prefix_ci (p s : string) : bool :=
  match p, s with
  | EmptyString, _ => true
  | String _ _, EmptyString => false
  | String a p', String b s' =>
      Ascii.eqb (upper_ascii a) (upper_ascii b) && prefix_ci p' s'
  end.

(** [s.replace(/p/gi, '')] for a non-empty literal [p]: matches are taken
    from left to right and do not overlap; [skip] counts the characters of
    the current match still to drop. *)
Fixpoint remove_ci (p : string) (skip : nat) (s : string) : string :=
  match s with
  | EmptyString => EmptyString
  | String c r =>
      match skip with
      | S k => remove_ci p k r
      | O =>
          if prefix_ci p s then remove_ci p (String.length p - 1) r
          else String c (remove_ci p O r)
      end
  end.

(** Sanitize text input (remove harmful content) *)
Definition sanitizeText (text : string) : string :=
  trim (remove_ci "javascript:" 0 (strip_tags false text)).

(** Regular expressions, as far as [isValidEmail] needs them. *)
Inductive regex : Type :=
| NoMatch
| Eps
| CharClass (p : ascii -> bool)
| Cat (r1 r2 : regex)
| Alt (r1 r2 : regex)
| Star (r : regex).

(** [r+] *)
Definition Plus (r : regex) : regex := Cat r (Star r).

Fixpoint nullable (r : regex) : bool :=
  match r with
  | NoMatch => false
  | Eps => true
  | CharClass _ => false
  | Cat r1 r2 => nullable r1 && nullable r2
  | Alt r1 r2 => nullable r1 || nullable r2
  | Star _ => true
  end.

(** The derivative of [r] by the character [c]. *)
Fixpoint deriv (c : ascii) (r : regex) : regex :=
  match r with
  | NoMatch | Eps => NoMatch
  | CharClass p => if p c then Eps else NoMatch
  | Cat r1 r2 =>
      if nullable r1
      then Alt (Cat (deriv c r1) r2) (deriv c r2)
      else Cat (deriv c r1) r2
  | Alt r1 r2 => Alt (deriv c r1) (deriv c r2)
  | Star r1 => Cat (deriv c r1) (Star r1)
  end.

(** [/^r$/.test(s)] *)
Fixpoint full_match (r : regex) (s : string) : bool :=
  match s with
  | EmptyString => nullable r
  | String c rest => full_match (deriv c r) rest
  end.

(** [[^\s@]] *)
Definition not_space_or_at (c : ascii) : bool :=
  negb (is_space c) && negb (Ascii.eqb c "@").

(** [/^[^\s@]+@[^\s@]+\.[^\s@]+$/] *)
Definition emailRegex : regex :=
  Cat (Plus (CharClass not_space_or_at))
    (Cat (CharClass (Ascii.eqb "@"))
       (Cat (Plus (CharClass not_space_or_at))
          (Cat (CharClass (Ascii.eqb "."))
             (Plus (CharClass not_space_or_at))))).

(** Validate email format *)
Definition isValidEmail (email : string) : bool := full_match emailRegex email.

(** Get error message for a specific question *)
Definition getErrorForQuestion (errs : list ValidationError) (questionId : string)
  : option ValidationError :=
  find (fun e => String.eqb (err_questionId e) questionId) errs.

Section Utilities.

Context {host : Host}.

(** The loop of [getVisibleQuestionIndex]: [i] is the loop index, [qs] the
    questions from position [i] on. *)
Fixpoint visibleIndexLoop (qs : list Question) (i currentIndex : Z) (st : QuizState)
    (visibleIndex : nat) : nat :=
  match qs with
  | [] => visibleIndex
  | q :: rest =>
      if i <? currentIndex then
        visibleIndexLoop rest (i + 1) currentIndex st
          (if is_visible q st then S visibleIndex else visibleIndex)
      else visibleIndex
  end.

(** Get current question index accounting for conditional logic *)
Definition getVisibleQuestionIndex (qs : list Question) (currentIndex : Z) (st : QuizState)
  : number :=
  num_of_nat (visibleIndexLoop qs 0 currentIndex st 0).

(** The form field validators; [None] is [null]. *)
Definition validators_required (v : value) : option string :=
  if isEmpty v then Some "This field is required"%string else None.

Definition validators_email (v : value) : option string :=
  if isEmpty v then None
  else if isValidEmail (to_String v) then None
       else Some "Please enter a valid email address"%string.

Definition validators_minLength (min : number) (v : value) : option string :=
  if isEmpty v then None
  else if num_geb (str_length (to_String v)) min then None
       else Some ("Must be at least " ++ Number_toString min ++ " characters")%string.

Definition validators_maxLength (max : number) (v : value) : option string :=
  if isEmpty v then None
  else if num_leb (str_length (to_String v)) max then None
       else Some ("Must be no more than " ++ Number_toString max ++ " characters")%string.

(** [regex] is the [test] method of the compiled expression. *)
Definition validators_pattern (regex : string -> bool) (msg : string) (v : value)
  : option string :=
  if isEmpty v then None
  else if regex (to_String v) then None else Some msg.

Definition validators_range (min max : number) (v : value) : option string :=
  let num := to_Number v in
  if isNaN num then Some "Must be a number"%string
  else if num_geb num min && num_leb num max then None
       else Some ("Must be between " ++ Number_toString min ++ " and "
                    ++ Number_toString max)%string.

(** Compose multiple validators: the first truthy error. *)
Fixpoint composeValidators (vs : list (value -> option string)) (v : value) : option string :=
  match vs with
  | [] => None
  | validator :: rest =>
      if str_truthy (validator v) then validator v else composeValidators rest v
  end.

End Utilities.

(* ------------------------------------------------------------------------- *)
(** ** Scoring utilities ([scoring.ts], continued) *)

(** Calculate percentage for a score *)
Definition calculatePercentage (score max : number) : number :=
  let score := fl score in
  let max := fl max in
  if num_leb max zero then zero
  else Math_round (dmul (ddiv score max) (num_of_Z 100)).

(** [maxScores[category] || 10] *)
Definition max_or_ten (maxScores : list (string * number)) (cat : string) : number :=
  match lookup cat maxScores with
  | Some m => num_or m (num_of_Z 10)
  | None => num_of_Z 10
  end.

(** Normalize scores to 0-100 scale *)
Definition normalizeScores (scores : CategoryScores) (maxScores : list (string * number))
  : CategoryScores :=
  fold_left
    (fun normalized e =>
       assign (fst e) (calculatePercentage (snd e) (max_or_ten maxScores (fst e))) normalized)
    scores [].

(** [l.slice(0, n)] for an integer [n]: a negative [n] counts from the end. *)
Definition slice_to {A : Type} (l : list A) (n : Z) : list A :=
  let len := Z.of_nat (List.length l) in
  let stop := if n <? 0 then Z.max (len + n) 0 else Z.min n len in
  firstn (Z.to_nat stop) l.

(** Get top N scoring categories; [None] is an omitted [n], which defaults
    to 3. *)
Definition getTopCategories (scores : CategoryScores) (n : option Z) : list (string * number) :=
  slice_to (sort_by_score scores) (match n with Some k => k | None => 3 end).

(** [Math.abs(a)] *)
Definition Math_abs (a : number) : number :=
  match a with
  | NaN => NaN
  | NegInf | PosInf => PosInf
  | Fin x => Fin (Qabs x)
  end.

(** Check if two scores are within a threshold (for tie detection); [None]
    is an omitted threshold, which defaults to 2. *)
Definition scoresAreTied (score1 score2 : number) (threshold : option number) : bool :=
  num_leb (Math_abs (dsub (fl score1) (fl score2)))
    (fl (match threshold with Some t => t | None => num_of_Z 2 end)).

(** Calculate score spread (difference between highest and lowest) *)
Definition calculateSpread (scores : CategoryScores) : number :=
  let values := map snd scores in
  if Nat.eqb (List.length values) 0 then zero
  else dsub (fl (Math_max values)) (fl (Math_min values)).

Record BarDatum : Type := {
  bar_key : string;
  bar_label : string;
  bar_value : number
}.

(** The comparator [(a, b) => b.value - a.value] says [a] goes after [b]. *)
Definition bar_sorts_after (a b : BarDatum) : bool :=
  num_gtb (num_sub (bar_value b) (bar_value a)) zero.

Fixpoint insert_bar (x : BarDatum) (l : list BarDatum) : list BarDatum :=
  match l with
  | [] => [x]
  | y :: rest => if bar_sorts_after x y then y :: insert_bar x rest else x :: l
  end.

(** Format scores as bar chart data *)
Definition formatScoresForBars (scores : CategoryScores) (labelFn : string -> string)
  : list BarDatum :=
  fold_right insert_bar []
    (map (fun e => {| bar_key := fst e; bar_label := labelFn (fst e); bar_value := snd e |})
       scores).

(** [if (!grouped[c]) grouped[c] = []; grouped[c].push(contrib)] *)
Definition pushGrouped (contrib : AnswerContribution)
    (grouped : list (string * list AnswerContribution)) (cat : ScoreContribution)
  : list (string * list AnswerContribution) :=
  match lookup (category cat) grouped with
  | Some l => assign (category cat) (l ++ [contrib]) grouped
  | None => assign (category cat) [contrib] grouped
  end.

(** Group contributions by category *)
Definition groupContributionsByCategory (contribs : list AnswerContribution)
  : list (string * list AnswerContribution) :=
  fold_left
    (fun grouped contrib => fold_left (pushGrouped contrib) (ac_categories contrib) grouped)
    contribs [].

(* ------------------------------------------------------------------------- *)
(** ** Engine ([QuizEngine.ts], continued) *)

(** [Math.floor(a)] as an array index, when [a] is finite. *)
Definition floor_index (a : number) : option Z :=
  match a with
  | Fin x => Some (Qfloor x)
  | _ => None
  end.

(** [[order[i], order[j]] = [order[j], order[i]]] for two positions [i], [j]
    of the array; [None] when a position lies outside it (the assignment
    would then store [undefined], which an array of indices cannot hold). *)
Definition swap (order : list Z) (i j : nat) : option (list Z) :=
  match nth_error order i, nth_error order j with
  | Some a, Some b =>
      let order := firstn i order ++ b :: skipn (S i) order in
      Some (firstn j order ++ a :: skipn (S j) order)
  | _, _ => None
  end.

(** The Fisher-Yates loop, from position [i] down to 1; [random k] is the
    value of the [k]-th call of [Math.random()]. *)
Fixpoint shuffleFrom (random : nat -> number) (i k : nat) (order : list Z)
  : option (list Z) :=
  match i with
  | O => Some order
  | S i' =>
      match floor_index (num_mul (random k) (num_of_nat (i + 1))) with
      | Some j =>
          if j <? 0 then None
          else match swap order i (Z.to_nat j) with
               | Some order' => shuffleFrom random i' (S k) order'
               | None => None
               end
      | None => None
      end
  end.

Definition initializeQuestionOrder (random : nat -> number) (q : Quiz) : option (list Z) :=
  let order := map Z.of_nat (seq 0 (List.length (questions q))) in
  match quiz_options q with
  | Some opts =>
      if flag (randomizeQuestions opts)
      then shuffleFrom random (List.length order - 1) 0 order
      else Some order
  | None => Some order
  end.

Definition initializeState (q : Quiz) (now : Date) : QuizState :=
  {| quizId := quiz_id q; currentQuestionIndex := 0; answers := [];
     startedAt := now; completedAt := None; metadata := Some [] |}.

(** Create initial quiz state *)
Definition createQuizState (qid : string) (now : Date) : QuizState :=
  {| quizId := qid; currentQuestionIndex := 0; answers := [];
     startedAt := now; completedAt := None; metadata := None |}.

(** Update answer in state immutably *)
Definition updateAnswer (now : Date) (s : QuizState) (questionId : string) (v : value)
  : QuizState :=
  {| quizId := quizId s;
     currentQuestionIndex := currentQuestionIndex s;
     answers := assign questionId
                  {| ans_questionId := questionId; ans_value := v; ans_timestamp := now |}
                  (answers s);
     startedAt := startedAt s;
     completedAt := completedAt s;
     metadata := metadata s |}.

(** Get current answer for a question *)
Definition getAnswer (e : Engine) (questionId : string) : option QuizAnswer :=
  lookup questionId (answers (state e)).

(** [{ ...base, ...extra }] *)
Definition spread {A : Type} (base extra : list (string * A)) : list (string * A) :=
  fold_left (fun acc kv => assign (fst kv) (snd kv) acc) extra base.

Definition withMetadata (m : QuizMetadata) (s : QuizState) : QuizState :=
  {| quizId := quizId s;
     currentQuestionIndex := currentQuestionIndex s;
     answers := answers s;
     startedAt := startedAt s;
     completedAt := completedAt s;
     metadata := Some m |}.

Section EngineMethods.

Context {host : Host}.

(** Get current progress (0-100) *)
Definition getProgress (e : Engine) : number :=
  calculateProgress (questions (quiz e)) (state e).

(** Check if quiz is complete *)
Definition isComplete (e : Engine) : bool :=
  isQuizComplete (questions (quiz e)) (state e).

(** Get total question count *)
Definition getTotalQuestions (e : Engine) : number :=
  arr_length (getVisibleQuestions e).

(** Start the quiz *)
Definition start (clock : nat -> Date) (e : Engine) : Engine :=
  let e := with_state e (initializeState (quiz e) (clock 0%nat)) in
  let e := emit (clock 1%nat) quiz_started [("quizId"%string, VStr (quiz_id (quiz e)))] e in
  if flag (debugMode (config e)) then perform e [Logged "[QuizEngine] Quiz started:"] else e.

(** [this.quiz.options?.allowBackNavigation], as a condition *)
Definition backAllowed (e : Engine) : bool :=
  match quiz_options (quiz e) with
  | Some opts => flag (allowBackNavigation opts)
  | None => false
  end.

(** The loop of [previous()]: from [prevIndex] down, the first index that is
    0 or more whose question exists and is visible; [fuel] bounds the
    iterations. *)
Fixpoint scanBackward (e : Engine) (fuel : nat) (prevIndex : Z) : Z :=
  match fuel with
  | O => prevIndex
  | S fuel' =>
      if prevIndex >=? 0 then
        match getQuestion e prevIndex with
        | Some question =>
            if is_visible question (state e) then prevIndex
            else scanBackward e fuel' (prevIndex - 1)
        | None => scanBackward e fuel' (prevIndex - 1)
        end
      else prevIndex
  end.

(** Navigate to previous question *)
Definition previous (clock : nat -> Date) (e : Engine) : bool * Engine :=
  if negb (backAllowed e) then (false, e)
  else if currentQuestionIndex (state e) <=? 0 then (false, e)
  else
    let start := currentQuestionIndex (state e) - 1 in
    let prevIndex := scanBackward e (Z.to_nat (start + 1)) start in
    if prevIndex <? 0 then (false, e)
    else
      let e := with_state e (moveTo prevIndex (state e)) in
      let e :=
        emit (clock 0%nat) quiz_navigation
          [("direction"%string, VStr "back"); ("index"%string, VNum (num_of_Z prevIndex))]
          e in
      let e := if flag (persistAnswers (config e)) then saveProgress (clock 1%nat) e else e in
      (true, e).

(** Jump to specific question *)
Definition goToQuestion (clock : nat -> Date) (i : Z) (e : Engine) : bool * Engine :=
  if (i <? 0) || (i >=? Z.of_nat (List.length (questions (quiz e)))) then (false, e)
  else
    match getQuestion e i with
    | None => (false, e)
    | Some question =>
        if negb (is_visible question (state e)) then (false, e)
        else
          let e := with_state e (moveTo i (state e)) in
          (true,
           emit (clock 0%nat) quiz_navigation
             [("direction"%string, VStr "jump"); ("index"%string, VNum (num_of_Z i))] e)
    end.

(** Skip current question *)
Definition skip (clock : nat -> Date) (e : Engine) : bool * Engine :=
  match getCurrentQuestion e with
  | None => (false, e)
  | Some question =>
      if is_required question then (false, e)
      else
        let e :=
          emit (clock 0%nat) quiz_question_skipped
            [("questionId"%string, VStr (id question));
             ("questionIndex"%string, VNum (num_of_Z (currentQuestionIndex (state e))))]
            e in
        next (fun k => clock (S k)) e
  end.

(** Set metadata (gender, stage, etc.) *)
Definition setMetadata (clock : nat -> Date) (partial : QuizMetadata) (e : Engine) : Engine :=
  let base := match metadata (state e) with Some m => m | None => [] end in
  let e := with_state e (withMetadata (spread base partial) (state e)) in
  if flag (persistAnswers (config e)) then saveProgress (clock 0%nat) e else e.

End EngineMethods.

(* ------------------------------------------------------------------------- *)
(** ** A host for running examples

    Exact on what the examples below exercise: integers, [NaN] and the
    infinities are printed as JavaScript prints them, strings that are plain
    decimal integers are parsed, any other string parses to [NaN], the
    pattern made of a lone opening parenthesis is a syntax error and any
    other pattern is read as literal text. *)

Definition print_number (n : number) : string :=
  match n with
  | NaN => "NaN"
  | PosInf => "Infinity"
  | NegInf => "-Infinity"
  | Fin q =>
      let r := Qred q in
      if Pos.eqb (Qden r) 1 then NilZero.string_of_int (Z.to_int (Qnum r))
      else (NilZero.string_of_int (Z.to_int (Qnum r)) ++ "/"
              ++ NilZero.string_of_int (Z.to_int (Zpos (Qden r))))%string
  end.

Definition parse_integer (s : string) : number :=
  match NilZero.int_of_string s with
  | Some i => num_of_Z (Z.of_int i)
  | None => NaN
  end.

Definition parse_number (s : string) : number :=
  if String.eqb (trim s) EmptyString then zero else parse_integer (trim s).

Definition exampleHost : Host :=
  {| Number_toString := print_number;
     StringToNumber := parse_number;
     parseFloat := fun s => parse_integer (trim s);
     RegExp_test := fun pattern text =>
                      if String.eqb pattern "(" then None
                      else Some (includes text pattern) |}.

(* ------------------------------------------------------------------------- *)
(** ** Quiz definitions of the repository *)

Definition plainCategory (i n : string) : ScoringCategory :=
  {| cat_id := i; cat_name := n; maxScore := None; thresholds := None |}.

Definition WAR_MASK_SCORING : ScoringConfig :=
  {| scoring_type := Composite;
     categories :=
       [ plainCategory "abandonment" "Abandonment";
         plainCategory "exposure" "Exposure";
         plainCategory "entrapment" "Entrapment";
         plainCategory "erasure" "Erasure";
         plainCategory "flooded" "Flooded";
         plainCategory "armored" "Armored";
         plainCategory "phantom" "Phantom";
         plainCategory "analyzer" "Analyzer" ];
     groundZeroThreshold :=
       Some {| minCategories := num_of_Z 3; maxSpread := num_of_Z 2; minScore := num_of_Z 3 |} |}.

Definition ARCHETYPE_SCORING : ScoringConfig :=
  {| scoring_type := HighestWins;
     categories :=
       [ plainCategory "fixer" "Fixer";
         plainCategory "vanisher" "Vanisher";
         plainCategory "analyzer" "Analyzer";
         plainCategory "warrior" "Warrior";
         plainCategory "chameleon" "Chameleon";
         plainCategory "performer" "Performer" ];
     groundZeroThreshold := None |}.

Definition taggedOption (l t m w : string) : ChoiceOption :=
  {| letter := Some l; opt_text := t; opt_val := None; scores := None;
     mask := Some m; war := Some w; archetype := None |}.

Definition EXAMPLE_QUIZ : Quiz :=
  {| quiz_id := "example-quiz";
     questions :=
       [ {| id := "q1"; label := Some "Quick check"%string; required := None;
            conditionalDisplay := None;
            kind := Binary (Some "Yes, I spiral"%string) (Some "No, I stay calm"%string)
                      None None (Some "abandonment"%string) |};
         {| id := "q2"; label := Some "Conflict response"%string; required := None;
            conditionalDisplay := None;
            kind := SingleChoice
                      [ taggedOption "A" "I flood with emotion" "flooded" "abandonment";
                        taggedOption "B" "I go cold and detached" "armored" "exposure";
                        taggedOption "C" "I try to fix everything" "phantom" "abandonment";
                        taggedOption "D" "I analyze what went wrong" "analyzer" "erasure" ] |};
         {| id := "q3"; label := Some "Self-assessment"%string; required := None;
            conditionalDisplay := None;
            kind := Likert
                      {| points := num_of_Z 5;
                         scale_labels := [ "Strongly Disagree"; "Disagree"; "Neutral";
                                           "Agree"; "Strongly Agree" ]%string |}
                      None (Some "flooded"%string) |} ];
     scoring := WAR_MASK_SCORING;
     quiz_options :=
       Some {| randomizeQuestions := None; allowBackNavigation := Some true |} |}.

(** A state as [initializeState] builds it, started at [t]. *)
Definition freshState (qid : string) (t : Date) : QuizState :=
  {| quizId := qid; currentQuestionIndex := 0; answers := [];
     startedAt := t; completedAt := None; metadata := Some [] |}.

Definition answer (qid : string) (v : value) (t : Date) : string * QuizAnswer :=
  (qid, {| ans_questionId := qid; ans_value := v; ans_timestamp := t |}).

Definition withAnswers (s : QuizState) (a : list (string * QuizAnswer)) : QuizState :=
  {| quizId := quizId s; currentQuestionIndex := currentQuestionIndex s; answers := a;
     startedAt := startedAt s; completedAt := completedAt s; metadata := metadata s |}.

(** Multi-choice quiz whose only scoring option sits in a multi-choice
    question. *)
Definition multiChoiceQuiz : Quiz :=
  {| quiz_id := "multi";
     questions :=
       [ {| id := "m1"; label := None; required := None; conditionalDisplay := None;
            kind := MultiChoice
                      [ {| letter := Some "A"%string; opt_text := "first"; opt_val := None;
                           scores := Some [ {| category := "fixer"; sc_value := num_of_Z 2;
                                               weight := None |} ];
                           mask := None; war := None; archetype := None |} ]
                      None None |} ];
     scoring := ARCHETYPE_SCORING;
     quiz_options := None |}.

(** A highest-wins configuration whose ground-zero rule accepts a score of 0. *)
Definition lenientGroundZeroQuiz : Quiz :=
  {| quiz_id := "lenient";
     questions := [];
     scoring :=
       {| scoring_type := HighestWins;
          categories := categories WAR_MASK_SCORING;
          groundZeroThreshold :=
            Some {| minCategories := num_of_Z 3; maxSpread := num_of_Z 2;
                    minScore := num_of_Z 0 |} |};
     quiz_options := None |}.

(** The condition of the specification's visibility example. *)
Definition gate_q1_yes : Condition :=
  {| cond_questionId := "q1"; cond_operator := OpEquals; cond_val := CStr "yes" |}.

(** A required text question gated on [gate_q1_yes]; its pattern is not a
    valid regular expression. *)
Definition gatedQuestion (op : LogicOperator) : Question :=
  {| id := "q2"; label := None; required := None;
     conditionalDisplay := Some {| conditions := [gate_q1_yes]; logic_operator := op |};
     kind := TextInput None None (Some "("%string) |}.

Definition defaultConfig : QuizConfig :=
  {| autoAdvance := Some false; autoAdvanceDelay := Some (num_of_Z 300);
     debugMode := Some false; persistAnswers := Some true;
     storageKey := Some "unscarred_quiz_example-quiz"%string; webhookUrl := None |}.

(** The engine over [EXAMPLE_QUIZ] with the cursor at [i]. *)
Definition exampleEngine (i : Z) : Engine :=
  {| quiz := EXAMPLE_QUIZ; config := defaultConfig;
     state := moveTo i (freshState "example-quiz" 0);
     questionOrder := [0; 1; 2]; effects := [] |}.

(* ------------------------------------------------------------------------- *)
(** ** Further quizzes, states and engines for the runs *)

Definition archetypeOption (l t a : string) : ChoiceOption :=
  {| letter := Some l; opt_text := t; opt_val := None; scores := None;
     mask := None; war := None; archetype := Some a |}.

(** A highest-wins quiz scored through archetype tags. *)
Definition archetypeQuiz : Quiz :=
  {| quiz_id := "archetype";
     questions :=
       [ {| id := "a1"; label := None; required := None; conditionalDisplay := None;
            kind := SingleChoice
                      [ archetypeOption "A" "I repair" "fixer";
                        archetypeOption "B" "I leave" "vanisher" ] |} ];
     scoring := ARCHETYPE_SCORING;
     quiz_options := None |}.

Definition warSlider (qid cat : string) : Question :=
  {| id := qid; label := None; required := None; conditionalDisplay := None;
     kind := Slider (num_of_Z 0) (num_of_Z 10) (Some cat) |}.

(** A composite quiz with one slider per war category. *)
Definition warQuiz : Quiz :=
  {| quiz_id := "wars";
     questions := [ warSlider "w1" "abandonment"; warSlider "w2" "exposure";
                    warSlider "w3" "entrapment"; warSlider "w4" "erasure" ];
     scoring := WAR_MASK_SCORING;
     quiz_options := None |}.

(** Answers giving the war scores 4, 3, 3, 1. *)
Definition warState : QuizState :=
  withAnswers (freshState "wars" 0)
    [ answer "w1" (VNum (num_of_Z 4)) 1; answer "w2" (VNum (num_of_Z 3)) 2;
      answer "w3" (VNum (num_of_Z 3)) 3; answer "w4" (VNum (num_of_Z 1)) 4 ].

(** A two-question quiz whose second question is gated on the first. *)
Definition gatedQuiz : Quiz :=
  {| quiz_id := "gated";
     questions :=
       [ {| id := "q1"; label := None; required := None; conditionalDisplay := None;
            kind := TextInput None None None |};
         gatedQuestion AND ];
     scoring := ARCHETYPE_SCORING;
     quiz_options := None |}.

Definition gatedEngine : Engine :=
  {| quiz := gatedQuiz; config := defaultConfig;
     state := freshState "gated" 0;
     questionOrder := [0; 1]; effects := [] |}.

Definition exampleClock (k : nat) : Date := 1000 + Z.of_nat k.

(** A quiz whose two options cancel out on [fixer]. *)
Definition scoredOption (l t cat : string) (v : Z) : ChoiceOption :=
  {| letter := Some l; opt_text := t; opt_val := None;
     scores := Some [ {| category := cat; sc_value := num_of_Z v; weight := None |} ];
     mask := None; war := None; archetype := None |}.

Definition zeroSumQuiz : Quiz :=
  {| quiz_id := "zero-sum";
     questions :=
       [ {| id := "z1"; label := None; required := None; conditionalDisplay := None;
            kind := SingleChoice
                      [ scoredOption "A" "more" "fixer" 1;
                        scoredOption "B" "less" "fixer" (-1) ] |} ];
     scoring := ARCHETYPE_SCORING;
     quiz_options := None |}.

(** A quiz whose first question may be skipped. *)
Definition optionalQuiz : Quiz :=
  {| quiz_id := "optional";
     questions :=
       [ {| id := "o1"; label := None; required := Some false; conditionalDisplay := None;
            kind := TextInput None None None |};
         {| id := "o2"; label := None; required := None; conditionalDisplay := None;
            kind := TextInput None None None |} ];
     scoring := ARCHETYPE_SCORING;
     quiz_options :=
       Some {| randomizeQuestions := None; allowBackNavigation := Some true |} |}.

Definition optionalEngine : Engine :=
  {| quiz := optionalQuiz; config := defaultConfig;
     state := freshState "optional" 0;
     questionOrder := [0; 1]; effects := [] |}.

(** [EXAMPLE_QUIZ] with the questions in random order. *)
Definition randomizedQuiz : Quiz :=
  {| quiz_id := quiz_id EXAMPLE_QUIZ;
     questions := questions EXAMPLE_QUIZ;
     scoring := scoring EXAMPLE_QUIZ;
     quiz_options :=
       Some {| randomizeQuestions := Some true; allowBackNavigation := Some true |} |}.

(** A source of random numbers that always yields one half. *)
Definition halfRandom (k : nat) : number := Fin (1 # 2).

(** The war answers with one more answer, for a question the quiz lacks. *)
Definition strayState : QuizState :=
  withAnswers warState (answers warState ++ [ answer "zz" (VNum (num_of_Z 9)) 5 ]).

(** A text question that asks for five characters or more; with a pattern
    it asks for a format as well. *)
Definition shortTextQuestion (pattern : option string) : Question :=
  {| id := "t1"; label := None; required := None; conditionalDisplay := None;
     kind := TextInput (Some (num_of_Z 5)) None pattern |}.

(** An engine on that question, with a pattern that is not a regular
    expression. *)
Definition brokenPatternEngine : Engine :=
  {| quiz := {| quiz_id := "broken";
                questions := [shortTextQuestion (Some "("%string)];
                scoring := ARCHETYPE_SCORING;
                quiz_options := None |};
     config := defaultConfig;
     state := freshState "broken" 0;
     questionOrder := [0]; effects := [] |}.

(* ------------------------------------------------------------------------- *)
(** ** Specification-side notions *)

(** The empty values the validator's first two steps speak of. *)
Definition empty_value (v : value) : Prop :=
  v = VUndefined \/ v = VNull
  \/ (exists s, v = VStr s /\ trim s = EmptyString)
  \/ v = VArr [].

(** The options of the questions [estimateMaxScore] looks at. *)
Definition choiceOptions (q : Question) : list ChoiceOption :=
  match kind q with
  | SingleChoice options | Scenario _ options => options
  | _ => []
  end.

(** The options of every question that has options. *)
Definition allOptions (q : Question) : list ChoiceOption :=
  match kind q with
  | SingleChoice options | Scenario _ options | MultiChoice options _ _ => options
  | _ => []
  end.

(** What selecting [opt] in question [q] adds to the scores. *)
Definition selectionContributions (q : Question) (opt : ChoiceOption) : list ScoreContribution :=
  match kind q with
  | SingleChoice _ | Scenario _ _ => optionContributions opt
  | MultiChoice _ _ _ => match scores opt with Some l => l | None => [] end
  | _ => []
  end.

(** The sum of [value * weight] over the contributions naming [cat]. *)
Definition contributionTotal (cat : string) (l : list ScoreContribution) : number :=
  fold_left
    (fun acc sc =>
       if String.eqb (category sc) cat
       then num_add acc (num_mul (sc_value sc) (weight_or_one sc))
       else acc)
    l zero.

(** The specification's estimate: every possible contribution any option of
    any question could produce toward [cat], and 10 when no option scores
    toward [cat] at all. *)
Definition possibleContributions (quiz : Quiz) : list ScoreContribution :=
  flat_map (fun q => flat_map (selectionContributions q) (allOptions q)) (questions quiz).

Definition specMaxScore (quiz : Quiz) (cat : string) : number :=
  if existsb (fun sc => String.eqb (category sc) cat) (possibleContributions quiz)
  then contributionTotal cat (possibleContributions quiz)
  else num_of_Z 10.

(** The rational a finite number stands for. *)
Definition Qof (n : number) : Q :=
  match n with Fin q => q | _ => 0%Q end.

Definition finite (n : number) : Prop := exists q, n = Fin q.

(** The war categories whose score is at or above [ms]. *)
Definition qualifyingWars (scores : CategoryScores) (ms : Q) : list string :=
  filter (fun w => Qle_bool ms (Qof (score_or_zero scores w))) warCategories.

(** The number of questions of the quiz. *)
Definition questionCount (e : Engine) : Z := Z.of_nat (List.length (questions (quiz e))).

(** No visible question at the positions from [i] up to the end of the
    question list. *)
Definition none_visible_from {host : Host} (e : Engine) (i : Z) : Prop :=
  forall j q, i <= j < questionCount e ->
              getQuestion e j = Some q -> is_visible q (state e) = false.

(** A score map whose every entry is 0. *)
Definition all_zero (scores : CategoryScores) : Prop :=
  Forall (fun e => snd e = zero) scores.

(** The contributions selecting an option of a single-choice or scenario
    question can produce. *)
Definition choiceContributions (quiz : Quiz) : list ScoreContribution :=
  flat_map (fun q => flat_map optionContributions (choiceOptions q)) (questions quiz).

(** One step of the sum behind [contributionTotal]. *)
Definition addIfNamed (cat : string) (acc : number) (sc : ScoreContribution) : number :=
  if String.eqb (category sc) cat
  then num_add acc (num_mul (sc_value sc) (weight_or_one sc))
  else acc.

(** The state of the loop of [getTopFromList] after the categories [seen]:
    nothing chosen while no score exceeds -1; otherwise the chosen category
    has a score above -1, strictly above the score of every category before
    it and not below the score of any category after it. *)
Definition top_invariant (scores : CategoryScores) (seen : list string)
    (acc : option string * number) : Prop :=
  (fst acc = None /\ snd acc = num_of_Z (-1)
   /\ forall c, In c seen -> num_gtb (score_or_zero scores c) (num_of_Z (-1)) = false)
  \/ (exists c before after,
        fst acc = Some c /\ snd acc = score_or_zero scores c
        /\ seen = before ++ c :: after
        /\ num_gtb (score_or_zero scores c) (num_of_Z (-1)) = true
        /\ (forall c', In c' before ->
                       num_ltb (score_or_zero scores c') (score_or_zero scores c) = true)
        /\ (forall c', In c' after ->
                       num_gtb (score_or_zero scores c') (score_or_zero scores c) = false)).

(** [s] holds an HTML tag in the sense of [sanitizeText]: a [<] with a [>]
    somewhere after it. *)
Fixpoint has_tag (s : string) : bool :=
  match s with
  | EmptyString => false
  | String c r => (Ascii.eqb c "<" && has_gt r) || has_tag r
  end.

(** [t] is [s] with some characters dropped. *)
Inductive subseq : string -> string -> Prop :=
| subseq_nil : subseq EmptyString EmptyString
| subseq_drop (c : ascii) (t s : string) : subseq t s -> subseq t (String c s)
| subseq_keep (c : ascii) (t s : string) : subseq t s -> subseq (String c t) (String c s).

(** Some suffix of [s] starts with [p], up to the case of ASCII letters. *)
Fixpoint occurs_ci (p s : string) : bool :=
  prefix_ci p s
  || match s with
     | EmptyString => false
     | String _ r => occurs_ci p r
     end.

(** The first character of [s] is not white space. *)
Definition starts_clean (s : string) : bool :=
  match s with
  | EmptyString => true
  | String c _ => negb (is_space c)
  end.

(** The strings a regular expression stands for. *)
Inductive lang : regex -> string -> Prop :=
| lang_eps : lang Eps EmptyString
| lang_char (p : ascii -> bool) (c : ascii) :
    p c = true -> lang (CharClass p) (String c EmptyString)
| lang_cat (r1 r2 : regex) (s1 s2 : string) :
    lang r1 s1 -> lang r2 s2 -> lang (Cat r1 r2) (s1 ++ s2)
| lang_alt_l (r1 r2 : regex) (s : string) : lang r1 s -> lang (Alt r1 r2) s
| lang_alt_r (r1 r2 : regex) (s : string) : lang r2 s -> lang (Alt r1 r2) s
| lang_star_nil (r : regex) : lang (Star r) EmptyString
| lang_star_cons (r : regex) (s1 s2 : string) :
    lang r s1 -> lang (Star r) s2 -> lang (Star r) (s1 ++ s2).

(** Every character of [s] satisfies [p]. *)
Fixpoint all_chars (p : ascii -> bool) (s : string) : bool :=
  match s with
  | EmptyString => true
  | String c r => p c && all_chars p r
  end.

(** A non-empty run of characters that are neither white space nor [@]. *)
Definition email_part (s : string) : Prop :=
  s <> EmptyString /\ all_chars not_space_or_at s = true.

(** Every contribution the stored answers produce, in answer order. *)
Definition answerContributions (quiz : Quiz) (st : QuizState) : list ScoreContribution :=
  flat_map
    (fun entry =>
       match findQuestion quiz (fst entry) with
       | None => []
       | Some question => getScoreContributionsFromAnswer question (ans_value (snd entry))
       end)
    (answers st).

(** A finite number in lowest terms, as the arithmetic operators return it. *)
Definition reduced (n : number) : Prop := exists q, n = Fin (Qred q).

(** No score of the list is [NaN]. *)
Definition no_NaN (l : list (string * number)) : Prop :=
  Forall (fun e => snd e <> NaN) l.

(** [a] does not rank below [b]. *)
Definition ranks_before (a b : string * number) : Prop :=
  num_ltb (snd a) (snd b) = false.

(** The contributions that name category [c], once for each of their
    entries for [c], in order. *)
Definition contributionsTo (c : string) (contribs : list AnswerContribution)
  : list AnswerContribution :=
  flat_map
    (fun contrib =>
       map (fun _ => contrib)
         (filter (fun sc => String.eqb (category sc) c) (ac_categories contrib)))
    contribs.

(** A property that is present only for a list with an element. *)
Definition present {A : Type} (l : list A) : option (list A) :=
  match l with [] => None | _ => Some l end.

(** Replacement of the element at position [i]. *)
Definition replace_at {A : Type} (i : nat) (x : A) (l : list A) : list A :=
  firstn i l ++ x :: skipn (S i) l.

(** [q] is a double: reading it as a double changes nothing. *)
Definition double (q : Q) : Prop := round_double q = Fin q.

(** The max-minus-min spread among the scores of the categories [cats] is
    at most [bound]: for a category of highest and a category of lowest
    score among them, the difference of the two scores, as the language
    computes it on doubles, is at most [bound].  It holds when [cats] is
    empty. *)
Definition spreadAtMost (scores : CategoryScores) (cats : list string) (bound : number)
  : Prop :=
  forall hi lo,
    In hi cats -> In lo cats ->
    (forall w, In w cats ->
               (Qof (score_or_zero scores w) <= Qof (score_or_zero scores hi))%Q) ->
    (forall w, In w cats ->
               (Qof (score_or_zero scores lo) <= Qof (score_or_zero scores w))%Q) ->
    num_leb (dsub (fl (score_or_zero scores hi)) (fl (score_or_zero scores lo))) (fl bound)
    = true.

(* ------------------------------------------------------------------------- *)
(** ** Binary64: rounding *)

(** *** Powers of two *)

Lemma pow2_pos (e : Z) : (0 < pow2 e)%Q.
Proof. apply Qpower_0_lt. reflexivity. Qed.

Lemma pow2_add (a b : Z) : (pow2 (a + b) == pow2 a * pow2 b)%Q.
Proof. apply Qpower_plus. discriminate. Qed.

Lemma pow2_le (a b : Z) : a <= b -> (pow2 a <= pow2 b)%Q.
Proof. intros H. apply Qpower_le_compat_l; [exact H | discriminate]. Qed.

Lemma pow2_lt_inv (a b : Z) : (pow2 a < pow2 b)%Q -> a < b.
Proof. intros H. apply (Qpower_lt_compat_l_inv 2); [exact H | reflexivity]. Qed.

Lemma pow2_Z (a : Z) : 0 <= a -> (pow2 a == inject_Z (2 ^ a))%Q.
Proof. intros H. unfold pow2. now rewrite (Zpower_Qpower 2 a H). Qed.

Lemma pow2_sub (a b : Z) : (pow2 (a - b) == pow2 a / pow2 b)%Q.
Proof.
  unfold Z.sub. rewrite pow2_add. unfold pow2. rewrite Qpower_opp. reflexivity.
Qed.

(** [q / 2^u <= 2^(e-u)] is [q <= 2^e], and so on. *)
Lemma scaled_le (q : Q) (e u : Z) :
  (q <= pow2 e)%Q -> (q / pow2 u <= pow2 (e - u))%Q.
Proof.
  intros H. rewrite pow2_sub. unfold Qdiv.
  apply Qmult_le_compat_r; [exact H|].
  apply Qlt_le_weak, Qinv_lt_0_compat, pow2_pos.
Qed.

Lemma scaled_ge (q : Q) (e u : Z) :
  (pow2 e <= q)%Q -> (pow2 (e - u) <= q / pow2 u)%Q.
Proof.
  intros H. rewrite pow2_sub. unfold Qdiv.
  apply Qmult_le_compat_r; [exact H|].
  apply Qlt_le_weak, Qinv_lt_0_compat, pow2_pos.
Qed.

Lemma scaled_back (z : Q) (u : Z) : (z / pow2 u * pow2 u == z)%Q.
Proof.
  pose proof (pow2_pos u). field. intros E. rewrite E in H. discriminate.
Qed.

(** *** The binary logarithm *)

Lemma ilog2_spec (q : Q) :
  (0 < q)%Q -> (pow2 (ilog2 q) <= q)%Q /\ (q < pow2 (ilog2 q + 1))%Q.
Proof.
  intros Hq. unfold ilog2.
  destruct q as [n d]. cbn [Qnum Qden].
  assert (Hn : 0 < n).
  { unfold Qlt in Hq. simpl in Hq. lia. }
  set (a := Z.log2 n). set (b := Z.log2 (Zpos d)).
  destruct (Z.log2_spec n Hn) as [Ha1 Ha2]. fold a in Ha1, Ha2.
  destruct (Z.log2_spec (Zpos d) (Pos2Z.is_pos d)) as [Hb1 Hb2]. fold b in Hb1, Hb2.
  assert (Ha0 : 0 <= a) by apply Z.log2_nonneg.
  assert (Hb0 : 0 <= b) by apply Z.log2_nonneg.
  assert (Hlow : (pow2 (a - b - 1) <= n # d)%Q).
  { replace (a - b - 1) with (a - (b + 1)) by lia.
    rewrite pow2_sub, (pow2_Z a), (pow2_Z (b + 1)), (Qmake_Qdiv n d) by lia.
    apply Qle_shift_div_l.
    - change 0%Q with (inject_Z 0). rewrite <- Zlt_Qlt. lia.
    - unfold Qdiv. rewrite <- Qmult_assoc, (Qmult_comm (/ _)), Qmult_assoc.
      apply Qle_shift_div_r.
      + change 0%Q with (inject_Z 0). rewrite <- Zlt_Qlt. lia.
      + rewrite <- !inject_Z_mult, <- Zle_Qle. nia. }
  assert (Hhigh : (n # d < pow2 (a - b + 1))%Q).
  { replace (a - b + 1) with (a + 1 - b) by lia.
    rewrite pow2_sub, (pow2_Z (a + 1)), (pow2_Z b), (Qmake_Qdiv n d) by lia.
    apply Qlt_shift_div_l.
    - change 0%Q with (inject_Z 0). rewrite <- Zlt_Qlt. lia.
    - unfold Qdiv. rewrite <- Qmult_assoc, (Qmult_comm (/ _)), Qmult_assoc.
      apply Qlt_shift_div_r.
      + change 0%Q with (inject_Z 0). rewrite <- Zlt_Qlt. lia.
      + rewrite <- !inject_Z_mult, <- Zlt_Qlt. nia. }
  destruct (Qle_bool (pow2 (a - b)) (n # d)) eqn:E.
  - apply Qle_bool_iff in E. split; assumption.
  - split; [exact Hlow|].
    replace (a - b - 1 + 1) with (a - b) by lia.
    apply Qnot_le_lt. intros H. apply Qle_bool_iff in H. congruence.
Qed.

Lemma ilog2_mono (x y : Q) : (0 < x)%Q -> (x <= y)%Q -> ilog2 x <= ilog2 y.
Proof.
  intros Hx Hxy.
  destruct (ilog2_spec x Hx) as [Hx1 _].
  destruct (ilog2_spec y) as [_ Hy2]; [lra|].
  assert (H : (pow2 (ilog2 x) < pow2 (ilog2 y + 1))%Q) by lra.
  apply pow2_lt_inv in H. lia.
Qed.

(** A power of two below [q] is below the binade of [q]. *)
Lemma ilog2_ge (q : Q) (e : Z) : (pow2 e <= q)%Q -> e <= ilog2 q.
Proof.
  intros H. pose proof (pow2_pos e).
  destruct (ilog2_spec q) as [_ H2]; [lra|].
  assert (H3 : (pow2 e < pow2 (ilog2 q + 1))%Q) by lra.
  apply pow2_lt_inv in H3. lia.
Qed.

Lemma ilog2_lt (q : Q) (e : Z) : (0 < q)%Q -> (q < pow2 e)%Q -> ilog2 q < e.
Proof.
  intros Hq H. destruct (ilog2_spec q Hq) as [H1 _].
  assert (H3 : (pow2 (ilog2 q) < pow2 e)%Q) by lra.
  now apply pow2_lt_inv in H3.
Qed.

(** *** Rounding to an integer *)

Lemma round_half_even_cases (s : Q) :
  round_half_even s = Qfloor s \/ round_half_even s = Qfloor s + 1.
Proof.
  unfold round_half_even.
  destruct (Qcompare _ _); auto. destruct (Z.even _); auto.
Qed.

Lemma round_half_even_Z (z : Z) : round_half_even (inject_Z z) = z.
Proof.
  unfold round_half_even. rewrite Qfloor_Z.
  destruct (Qcompare_spec (inject_Z z - inject_Z z) (1 # 2)) as [H|H|H];
    [lra | reflexivity | lra].
Qed.

Lemma round_half_even_mono (s t : Q) :
  (s <= t)%Q -> round_half_even s <= round_half_even t.
Proof.
  intros Hst. pose proof (Qfloor_resp_le s t Hst) as Hf.
  destruct (Z.eq_dec (Qfloor s) (Qfloor t)) as [E|Hne].
  - unfold round_half_even. rewrite <- E.
    destruct (Qcompare_spec (s - inject_Z (Qfloor s)) (1 # 2)) as [Hs|Hs|Hs];
      destruct (Qcompare_spec (t - inject_Z (Qfloor s)) (1 # 2)) as [Ht|Ht|Ht];
      try lia; try lra; destruct (Z.even (Qfloor s)); lia.
  - destruct (round_half_even_cases s) as [-> | ->],
             (round_half_even_cases t) as [-> | ->]; lia.
Qed.

Lemma round_half_even_comp (s t : Q) : (s == t)%Q -> round_half_even s = round_half_even t.
Proof.
  intros H. apply Z.le_antisymm; apply round_half_even_mono; lra.
Qed.

Lemma round_half_even_ge (s : Q) (z : Z) : (inject_Z z <= s)%Q -> z <= round_half_even s.
Proof.
  intros H. rewrite <- (round_half_even_Z z). now apply round_half_even_mono.
Qed.

Lemma round_half_even_le (s : Q) (z : Z) : (s <= inject_Z z)%Q -> round_half_even s <= z.
Proof.
  intros H. rewrite <- (round_half_even_Z z). now apply round_half_even_mono.
Qed.

(** *** Rounding to 53 bits *)

Lemma ulp_exponent_mono (x y : Q) :
  (0 < x)%Q -> (x <= y)%Q -> ulp_exponent x <= ulp_exponent y.
Proof.
  intros Hx Hxy. unfold ulp_exponent. pose proof (ilog2_mono x y Hx Hxy). lia.
Qed.

(** A power of two at or above the last place bounds the rounded value as it
    bounds the value. *)
Lemma round_mantissa_le (q : Q) (e : Z) :
  ulp_exponent q <= e -> (q <= pow2 e)%Q -> (round_mantissa q <= pow2 e)%Q.
Proof.
  intros He Hq. unfold round_mantissa. set (u := ulp_exponent q) in *.
  assert (H : round_half_even (q / pow2 u) <= 2 ^ (e - u)).
  { apply round_half_even_le. rewrite <- pow2_Z by lia. now apply scaled_le. }
  rewrite Zle_Qle, <- pow2_Z in H by lia.
  apply (Qmult_le_compat_r _ _ (pow2 u)) in H; [|apply Qlt_le_weak, pow2_pos].
  rewrite <- pow2_add in H. now replace (e - u + u) with e in H by lia.
Qed.

Lemma round_mantissa_ge (q : Q) (e : Z) :
  ulp_exponent q <= e -> (pow2 e <= q)%Q -> (pow2 e <= round_mantissa q)%Q.
Proof.
  intros He Hq. unfold round_mantissa. set (u := ulp_exponent q) in *.
  assert (H : 2 ^ (e - u) <= round_half_even (q / pow2 u)).
  { apply round_half_even_ge. rewrite <- pow2_Z by lia. now apply scaled_ge. }
  rewrite Zle_Qle, <- pow2_Z in H by lia.
  apply (Qmult_le_compat_r _ _ (pow2 u)) in H; [|apply Qlt_le_weak, pow2_pos].
  rewrite <- pow2_add in H. now replace (e - u + u) with e in H by lia.
Qed.

Lemma round_mantissa_nonneg (q : Q) : (0 <= q)%Q -> (0 <= round_mantissa q)%Q.
Proof.
  intros Hq. unfold round_mantissa. apply Qmult_le_0_compat.
  - change 0%Q with (inject_Z 0). rewrite <- Zle_Qle.
    apply round_half_even_ge. change (inject_Z 0) with 0%Q.
    apply Qle_shift_div_l; [apply pow2_pos | lra].
  - apply Qlt_le_weak, pow2_pos.
Qed.

Lemma round_mantissa_mono (x y : Q) :
  (0 < x)%Q -> (x <= y)%Q -> (round_mantissa x <= round_mantissa y)%Q.
Proof.
  intros Hx Hxy.
  pose proof (ulp_exponent_mono x y Hx Hxy) as Hu.
  destruct (Z.eq_dec (ulp_exponent x) (ulp_exponent y)) as [E|Hne].
  - unfold round_mantissa. rewrite E.
    apply Qmult_le_compat_r; [|apply Qlt_le_weak, pow2_pos].
    rewrite <- Zle_Qle. apply round_half_even_mono.
    unfold Qdiv. apply Qmult_le_compat_r; [exact Hxy|].
    apply Qlt_le_weak, Qinv_lt_0_compat, pow2_pos.
  - assert (Hy : ulp_exponent y = ilog2 y - 52) by (unfold ulp_exponent in *; lia).
    assert (Hlog : ilog2 x + 1 <= ilog2 y) by (unfold ulp_exponent in *; lia).
    destruct (ilog2_spec x Hx) as [_ Hx2].
    destruct (ilog2_spec y) as [Hy1 _]; [lra|].
    set (e := Z.max (ilog2 x + 1) (ulp_exponent x)).
    apply (Qle_trans _ (pow2 e)).
    + apply round_mantissa_le; [lia|].
      apply (Qle_trans _ (pow2 (ilog2 x + 1))); [lra | apply pow2_le; lia].
    + apply (Qle_trans _ (pow2 (ilog2 y))); [apply pow2_le; lia|].
      apply round_mantissa_ge; [lia | exact Hy1].
Qed.

(** *** The nearest double *)

Lemma round_pos_shape (q : Q) :
  (0 <= q)%Q ->
  round_pos q = PosInf
  \/ exists v, round_pos q = Fin v /\ (v == round_mantissa q)%Q /\ (0 <= v)%Q.
Proof.
  intros Hq. unfold round_pos. destruct (Qle_bool _ _); auto.
  right. eexists. split; [reflexivity|]. split; [apply Qred_correct|].
  rewrite Qred_correct. now apply round_mantissa_nonneg.
Qed.

Lemma round_pos_mono (x y : Q) :
  (0 < x)%Q -> (x <= y)%Q -> num_leb (round_pos x) (round_pos y) = true.
Proof.
  intros Hx Hxy. pose proof (round_mantissa_mono x y Hx Hxy) as Hm.
  unfold round_pos.
  destruct (Qle_bool (pow2 1024) (round_mantissa y)) eqn:Ey.
  - now destruct (Qle_bool (pow2 1024) (round_mantissa x)).
  - destruct (Qle_bool (pow2 1024) (round_mantissa x)) eqn:Ex.
    + apply Qle_bool_iff in Ex.
      assert (H : (pow2 1024 <= round_mantissa y)%Q) by lra.
      apply Qle_bool_iff in H. congruence.
    + cbn [num_leb]. apply Qle_bool_iff. now rewrite !Qred_correct.
Qed.

Lemma round_double_comp (x y : Q) : (x == y)%Q -> round_double x = round_double y.
Proof. intros H. unfold round_double. now rewrite (Qred_complete x y H). Qed.

Lemma round_double_not_NaN (q : Q) : round_double q <> NaN.
Proof.
  unfold round_double. destruct (Qcompare_spec (Qred q) 0) as [H|H|H]; try discriminate.
  - destruct (round_pos_shape (- Qred q)) as [E | [v [E _]]]; [lra | |];
      rewrite E; discriminate.
  - destruct (round_pos_shape (Qred q)) as [E | [v [E _]]]; [lra | |];
      rewrite E; discriminate.
Qed.

(** Rounding keeps the order. *)
Lemma round_double_mono (x y : Q) :
  (x <= y)%Q -> num_leb (round_double x) (round_double y) = true.
Proof.
  intros Hxy. unfold round_double.
  assert (Hred : (Qred x <= Qred y)%Q) by now rewrite !Qred_correct.
  destruct (Qcompare_spec (Qred x) 0) as [Hx|Hx|Hx];
    destruct (Qcompare_spec (Qred y) 0) as [Hy|Hy|Hy]; try lra; try reflexivity.
  - destruct (round_pos_shape (Qred y)) as [E | [v [E [_ Hv]]]]; [lra | |]; rewrite E.
    + reflexivity.
    + cbn [num_leb]. now apply Qle_bool_iff.
  - destruct (round_pos_shape (- Qred x)) as [E | [v [E [_ Hv]]]]; [lra | |]; rewrite E.
    + reflexivity.
    + cbn [num_neg num_leb]. apply Qle_bool_iff. rewrite Qred_correct. lra.
  - assert (Hm : num_leb (round_pos (- Qred y)) (round_pos (- Qred x)) = true).
    { apply round_pos_mono; lra. }
    destruct (round_pos_shape (- Qred x)) as [E | [v [E [_ Hv]]]]; [lra | |];
      destruct (round_pos_shape (- Qred y)) as [E' | [w [E' [_ Hw]]]]; try lra;
      rewrite E, E' in *; try reflexivity; try discriminate.
    cbn [num_neg num_leb] in *. apply Qle_bool_iff in Hm. apply Qle_bool_iff.
    rewrite !Qred_correct. lra.
  - destruct (round_pos_shape (- Qred x)) as [E | [v [E [_ Hv]]]]; [lra | |];
      destruct (round_pos_shape (Qred y)) as [E' | [w [E' [_ Hw]]]]; try lra;
      rewrite E, E'; try reflexivity.
    cbn [num_neg num_leb]. apply Qle_bool_iff. rewrite Qred_correct. lra.
  - apply round_pos_mono; lra.
Qed.

(** Rounding commutes with the change of sign. *)
Lemma round_double_opp (q : Q) :
  match round_double q with
  | Fin v => exists w, round_double (- q) = Fin w /\ (w == - v)%Q
  | PosInf => round_double (- q) = NegInf
  | NegInf => round_double (- q) = PosInf
  | NaN => False
  end.
Proof.
  unfold round_double. rewrite Qred_opp.
  destruct (Qcompare_spec (Qred q) 0) as [H|H|H];
    destruct (Qcompare_spec (- Qred q) 0) as [H'|H'|H']; try lra.
  - exists 0%Q. split; [reflexivity | lra].
  - destruct (round_pos_shape (- Qred q)) as [E | [v [E _]]]; [lra | |]; rewrite E.
    + reflexivity.
    + cbn [num_neg]. exists v. split; [reflexivity|]. rewrite Qred_correct. lra.
  - assert (E0 : (- - Qred q = Qred q)%Q).
    { destruct (Qred q) as [n d]. unfold Qopp. cbn [Qnum Qden]. now rewrite Z.opp_involutive. }
    rewrite E0.
    destruct (round_pos_shape (Qred q)) as [E | [v [E _]]]; [lra | |]; rewrite E.
    + reflexivity.
    + cbn [num_neg]. eexists. split; [reflexivity | apply Qred_correct].
Qed.

Lemma Qred_inject_Z (z : Z) : Qred (inject_Z z) = inject_Z z.
Proof.
  unfold Qred, inject_Z.
  pose proof (Z.ggcd_gcd z 1) as Hg. pose proof (Z.ggcd_correct_divisors z 1) as Hd.
  destruct (Z.ggcd z 1) as [g [a b]]. cbn [fst snd] in *.
  rewrite Z.gcd_1_r in Hg. subst g. destruct Hd as [Ha Hb].
  rewrite Z.mul_1_l in Ha, Hb. now subst.
Qed.

(** An integer of magnitude up to [2^53] is a double. *)
Lemma round_double_Z (z : Z) :
  Z.abs z <= 2 ^ 53 -> round_double (inject_Z z) = Fin (inject_Z z).
Proof.
  assert (Hpos : forall m, 0 < m <= 2 ^ 53 -> round_pos (inject_Z m) = Fin (inject_Z m)).
  { intros m Hm.
    assert (Hq : (inject_Z m == inject_Z m * pow2 0)%Q) by (unfold pow2; simpl; ring).
    assert (Hlog : ilog2 (inject_Z m) < 54).
    { apply ilog2_lt.
      - change 0%Q with (inject_Z 0). rewrite <- Zlt_Qlt. lia.
      - rewrite pow2_Z by lia. rewrite <- Zlt_Qlt.
        change (2 ^ 54) with (2 * 2 ^ 53). lia. }
    assert (Hlog0 : 0 <= ilog2 (inject_Z m)).
    { apply ilog2_ge. rewrite pow2_Z by lia. rewrite <- Zle_Qle. simpl. lia. }
    assert (Hex : (round_mantissa (inject_Z m) == inject_Z m)%Q).
    { unfold round_mantissa. set (u := ulp_exponent (inject_Z m)).
      assert (Hu : u = ilog2 (inject_Z m) - 52) by (unfold u, ulp_exponent; lia).
      destruct (Z_le_gt_dec u 0) as [Hle|Hgt].
      - assert (Hs : (inject_Z m / pow2 u == inject_Z (m * 2 ^ (- u)))%Q).
        { rewrite inject_Z_mult, <- pow2_Z by lia. unfold pow2. rewrite Qpower_opp.
          pose proof (pow2_pos u) as Hp. unfold pow2 in Hp. field.
          intros E. rewrite E in Hp. discriminate. }
        rewrite (round_half_even_comp _ _ Hs), round_half_even_Z, <- Hs.
        apply scaled_back.
      - assert (Hu1 : u = 1) by lia.
        assert (Hm53 : m = 2 ^ 53).
        { destruct (ilog2_spec (inject_Z m)) as [H1 _].
          - change 0%Q with (inject_Z 0). rewrite <- Zlt_Qlt. lia.
          - replace (ilog2 (inject_Z m)) with 53 in H1 by lia.
            rewrite pow2_Z in H1 by lia. rewrite <- Zle_Qle in H1. lia. }
        rewrite Hu1, Hm53. vm_compute. reflexivity. }
    unfold round_pos.
    destruct (Qle_bool (pow2 1024) (round_mantissa (inject_Z m))) eqn:E.
    - apply Qle_bool_iff in E. rewrite Hex, pow2_Z in E by lia.
      rewrite <- Zle_Qle in E.
      assert (2 ^ 53 < 2 ^ 1024) by (apply Z.pow_lt_mono_r; lia). lia.
    - now rewrite (Qred_complete _ _ Hex), Qred_inject_Z. }
  intros Hz. unfold round_double. rewrite Qred_inject_Z.
  destruct (Qcompare_spec (inject_Z z) 0) as [H|H|H].
  - assert (Hz0 : z = 0) by (unfold Qeq in H; simpl in H; lia). now subst.
  - change 0%Q with (inject_Z 0) in H. rewrite <- Zlt_Qlt in H.
    rewrite <- inject_Z_opp, Hpos by lia. cbn [num_neg].
    now rewrite <- inject_Z_opp, Z.opp_involutive, Qred_inject_Z.
  - change 0%Q with (inject_Z 0) in H. rewrite <- Zlt_Qlt in H. apply Hpos. lia.
Qed.

(* ------------------------------------------------------------------------- *)
(** ** Dictionaries *)

Lemma lookup_assign_same {A : Type} (k : string) (v : A) (obj : list (string * A)) :
  lookup k (assign k v obj) = Some v.
Proof.
  induction obj as [|[k' w] rest IH]; simpl.
  - now rewrite String.eqb_refl.
  - destruct (String.eqb k' k) eqn:E; simpl; rewrite E; auto.
Qed.

Lemma lookup_assign_other {A : Type} (k k' : string) (v : A) (obj : list (string * A)) :
  k <> k' -> lookup k' (assign k v obj) = lookup k' obj.
Proof.
  intros Hne. induction obj as [|[k0 w] rest IH]; simpl.
  - destruct (String.eqb k k') eqn:E; auto.
    apply String.eqb_eq in E. contradiction.
  - destruct (String.eqb k0 k) eqn:E; simpl.
    + apply String.eqb_eq in E. subst k0.
      destruct (String.eqb k k') eqn:E'; auto.
      apply String.eqb_eq in E'. contradiction.
    + destruct (String.eqb k0 k'); auto.
Qed.

Lemma assign_values {A : Type} (P : A -> Prop) (k : string) (v : A) (obj : list (string * A)) :
  P v -> Forall (fun e => P (snd e)) obj -> Forall (fun e => P (snd e)) (assign k v obj).
Proof.
  intros Hv Hobj. induction Hobj as [|[k' w] rest Hw Hrest IH]; simpl.
  - constructor; auto.
  - destruct (String.eqb k' k); constructor; auto.
Qed.

(* ------------------------------------------------------------------------- *)
(** ** Comparisons with [NaN] *)

Lemma num_ltb_NaN_l (a : number) : num_ltb NaN a = false.
Proof. reflexivity. Qed.

Lemma num_ltb_NaN_r (a : number) : num_ltb a NaN = false.
Proof. destruct a; reflexivity. Qed.

Lemma num_leb_NaN_l (a : number) : num_leb NaN a = false.
Proof. reflexivity. Qed.

Lemma num_leb_NaN_r (a : number) : num_leb a NaN = false.
Proof. destruct a; reflexivity. Qed.

(* ------------------------------------------------------------------------- *)
(** ** Validation *)

Section ValidationProperties.

Context {host : Host}.

Lemma empty_value_isEmpty (v : value) : empty_value v -> isEmpty v = true.
Proof.
  intros [-> | [-> | [[s [-> Hs]] | ->]]]; simpl; auto.
  rewrite Hs. reflexivity.
Qed.

Lemma isEmpty_empty_value (v : value) : isEmpty v = true -> empty_value v.
Proof.
  unfold empty_value. destruct v as [| | b | n | s | a]; simpl; intros H; try discriminate; auto.
  - right; right; left. exists s. split; auto. now apply String.eqb_eq.
  - destruct a; try discriminate. auto.
Qed.

(** C7.  On an empty value (undefined, null, a string blank after trimming,
    an empty array) [validateAnswer] stops before any type-specific check:
    when the question's required flag is not false the result is invalid with
    exactly one error, of code [required]; when the flag is false the result
    is valid with no error.  This holds for every kind of question, so no
    type-specific check can have run (one of them may throw). *)
Theorem validateAnswer_empty_value (question : Question) (v : value) :
  empty_value v ->
  (required question <> Some false ->
   validateAnswer question v =
     Ok {| isValid := false;
           errors := [ {| err_questionId := id question;
                          message := "This question requires an answer";
                          code := required_code |} ] |})
  /\ (required question = Some false ->
      validateAnswer question v = Ok {| isValid := true; errors := [] |}).
Proof.
  intros Hv. apply empty_value_isEmpty in Hv.
  unfold validateAnswer, is_required. rewrite Hv. split.
  - intros Hreq. destruct (required question) as [[|]|]; simpl; auto. congruence.
  - intros ->. reflexivity.
Qed.

Lemma answer_value_absent (st : QuizState) (qid : string) :
  lookup qid (answers st) = None -> answer_value st qid = VUndefined.
Proof. unfold answer_value. now intros ->. Qed.

Lemma strict_eq_undefined_cond (c : CondValue) : strict_eq VUndefined (cond_value c) = false.
Proof. destruct c; reflexivity. Qed.

(** A question whose display logic is the single condition [c], failing in
    [st], is hidden whatever the logic's operator. *)
Lemma single_condition_hidden (q : Question) (c : Condition) (op : LogicOperator) (st : QuizState) :
  conditionalDisplay q = Some {| conditions := [c]; logic_operator := op |} ->
  evaluateCondition c st = false ->
  is_visible q st = false.
Proof.
  intros Hq Hc. unfold is_visible, evaluateConditions. rewrite Hq. simpl.
  rewrite Hc. destruct op; reflexivity.
Qed.

(** A hidden question does not count in the completeness check. *)
Lemma isQuizComplete_skips_hidden (qs1 qs2 : list Question) (q : Question) (st : QuizState) :
  is_visible q st = false ->
  isQuizComplete (qs1 ++ q :: qs2) st = isQuizComplete (qs1 ++ qs2) st.
Proof.
  intros Hq. unfold isQuizComplete. rewrite !forallb_app. simpl. now rewrite Hq.
Qed.

(** C8.  When the question a condition refers to has no stored answer, its
    answer value is [undefined] and the condition is false under [equals],
    [greater-than], [less-than] and [in-range] and true under [not-equals].
    A question gated on [{questionId: q1, operator: equals, value: yes}] is
    then hidden, and the completeness check gives the same verdict with and
    without it. *)
Theorem evaluateCondition_unanswered (condition : Condition) (st : QuizState) :
  lookup (cond_questionId condition) (answers st) = None ->
  (cond_operator condition = OpEquals -> evaluateCondition condition st = false)
  /\ (cond_operator condition = OpGreaterThan -> evaluateCondition condition st = false)
  /\ (cond_operator condition = OpLessThan -> evaluateCondition condition st = false)
  /\ (cond_operator condition = OpInRange -> evaluateCondition condition st = false)
  /\ (cond_operator condition = OpNotEquals -> evaluateCondition condition st = true)
  /\ (condition = gate_q1_yes ->
      forall (q : Question) (op : LogicOperator) (qs1 qs2 : list Question),
        conditionalDisplay q = Some {| conditions := [condition]; logic_operator := op |} ->
        is_visible q st = false
        /\ isQuizComplete [q] st = true
        /\ isQuizComplete (qs1 ++ q :: qs2) st = isQuizComplete (qs1 ++ qs2) st).
Proof.
  intros Habsent. apply answer_value_absent in Habsent.
  assert (Heq : cond_operator condition = OpEquals -> evaluateCondition condition st = false).
  { intros Hop. unfold evaluateCondition. rewrite Habsent, Hop.
    apply strict_eq_undefined_cond. }
  repeat split; auto.
  - intros Hop. unfold evaluateCondition. rewrite Habsent, Hop.
    apply num_ltb_NaN_r.
  - intros Hop. unfold evaluateCondition. rewrite Habsent, Hop.
    apply num_ltb_NaN_l.
  - intros Hop. unfold evaluateCondition. rewrite Habsent, Hop.
    destruct (range_bounds (cond_val condition)) as [[lo hi]|]; auto.
    simpl. unfold num_geb. now rewrite num_leb_NaN_r.
  - intros Hop. unfold evaluateCondition. rewrite Habsent, Hop.
    now rewrite strict_eq_undefined_cond.
  - eapply single_condition_hidden; eauto. apply Heq. subst condition. reflexivity.
  - assert (Hh : is_visible q st = false).
    { eapply single_condition_hidden; eauto. apply Heq. subst condition. reflexivity. }
    apply (isQuizComplete_skips_hidden [] [] q st Hh).
  - apply isQuizComplete_skips_hidden.
    eapply single_condition_hidden; eauto. apply Heq. subst condition. reflexivity.
Qed.

Lemma visibleQuestions_nil (qs : list Question) (st : QuizState) :
  (forall q, In q qs -> is_visible q st = false) -> visibleQuestions qs st = [].
Proof.
  intros H. unfold visibleQuestions. induction qs as [|q rest IH]; simpl; auto.
  rewrite (H q (or_introl eq_refl)). apply IH. intros q' Hq'. apply H. now right.
Qed.

(** C10.  When conditional logic hides every question, [calculateProgress]
    returns 100; whenever it does divide, the divisor is the count of visible
    questions and that count is positive. *)
Theorem calculateProgress_no_visible_question (qs : list Question) (st : QuizState) :
  ((forall q, In q qs -> is_visible q st = false) -> calculateProgress qs st = num_of_Z 100)
  /\ (calculateProgress qs st = num_of_Z 100
      \/ exists answered : list Question,
           calculateProgress qs st =
             Math_round (dmul (ddiv (arr_length answered)
                                 (arr_length (visibleQuestions qs st)))
                           (num_of_Z 100))
           /\ (0 < List.length (visibleQuestions qs st))%nat).
Proof.
  split.
  - intros H. unfold calculateProgress. now rewrite (visibleQuestions_nil qs st H).
  - unfold calculateProgress.
    destruct (visibleQuestions qs st) as [|q rest] eqn:E.
    + now left.
    + right. cbn [List.length Nat.eqb]. eexists. split; [reflexivity | lia].
Qed.

End ValidationProperties.

(* ------------------------------------------------------------------------- *)
(** ** Engine *)

Section EngineProperties.

Context {host : Host}.


(** Whatever the value, a call that does not return a valid result leaves
    the engine as it was, also when validation itself throws. *)
Lemma submitAnswer_changes_only_on_success (clock : nat -> Date) (v : value) (e : Engine) :
  fst (submitAnswer clock v e) <> Ok {| isValid := true; errors := [] |} ->
  snd (submitAnswer clock v e) = e.
Proof.
  unfold submitAnswer.
  destruct (getCurrentQuestion e) as [question|]; auto.
  destruct (validateAnswer question v) as [validation|x]; auto.
  destruct (isValid validation); simpl; auto.
  intros H. now contradiction H.
Qed.

(** What the loop of [next()] computes, given fuel for every remaining
    position. *)
Lemma scanForward_spec (e : Engine) (fuel : nat) (i : Z) :
  questionCount e - i <= Z.of_nat fuel ->
  let r := scanForward e fuel i in
  i <= r
  /\ (forall j q, i <= j < r -> getQuestion e j = Some q -> is_visible q (state e) = false)
  /\ (questionCount e <= r
      \/ exists q, getQuestion e r = Some q /\ is_visible q (state e) = true).
Proof.
  revert i. induction fuel as [|fuel IH]; intros i Hfuel; simpl.
  - split; [lia | split; [intros; lia | left; lia]].
  - fold (questionCount e).
    destruct (i <? questionCount e) eqn:Hlt.
    + apply Z.ltb_lt in Hlt.
      assert (Hrec : questionCount e - (i + 1) <= Z.of_nat fuel) by lia.
      specialize (IH (i + 1) Hrec). simpl in IH. destruct IH as [IH1 [IH2 IH3]].
      assert (Hstep : forall j q,
                 getQuestion e i = None
                 \/ (exists q', getQuestion e i = Some q' /\ is_visible q' (state e) = false) ->
                 i <= j < scanForward e fuel (i + 1) ->
                 getQuestion e j = Some q -> is_visible q (state e) = false).
      { intros j q Hi Hj Hqj. destruct (Z.eq_dec j i) as [->|Hne].
        - destruct Hi as [Hi | [q' [Hi Hvis]]]; congruence.
        - apply (IH2 j q); auto. lia. }
      destruct (getQuestion e i) as [question|] eqn:Hq.
      * destruct (is_visible question (state e)) eqn:Hvis.
        -- split; [lia | split; [intros; lia | right; eauto]].
        -- split; [lia | split; [|exact IH3]].
           intros j q. apply Hstep. right. eauto.
      * split; [lia | split; [|exact IH3]].
        intros j q. apply Hstep. now left.
    + apply Z.ltb_ge in Hlt. split; [lia | split; [intros; lia | left; lia]].
Qed.

(** More fuel than the remaining positions changes nothing: the bound used
    by [next] is the loop. *)
Lemma scanForward_fuel (e : Engine) (fuel fuel' : nat) (i : Z) :
  questionCount e - i <= Z.of_nat fuel ->
  questionCount e - i <= Z.of_nat fuel' ->
  scanForward e fuel i = scanForward e fuel' i.
Proof.
  revert fuel' i. induction fuel as [|fuel IH]; intros fuel' i H H'.
  - destruct fuel' as [|fuel']; simpl; auto. fold (questionCount e).
    destruct (i <? questionCount e) eqn:Hlt; auto. apply Z.ltb_lt in Hlt. lia.
  - destruct fuel' as [|fuel']; simpl; fold (questionCount e).
    + destruct (i <? questionCount e) eqn:Hlt; auto. apply Z.ltb_lt in Hlt. lia.
    + destruct (i <? questionCount e) eqn:Hlt; auto. apply Z.ltb_lt in Hlt.
      destruct (getQuestion e i) as [question|].
      * destruct (is_visible question (state e)); auto. apply IH; lia.
      * apply IH; lia.
Qed.

Lemma scanForward_none_visible (e : Engine) (fuel : nat) (i : Z) :
  questionCount e - i <= Z.of_nat fuel ->
  none_visible_from e i ->
  questionCount e <= scanForward e fuel i.
Proof.
  intros Hfuel Hnone.
  destruct (scanForward_spec e fuel i Hfuel) as [H1 [H2 [H3 | [q [Hq Hvis]]]]]; auto.
  destruct (Z_lt_le_dec (scanForward e fuel i) (questionCount e)) as [Hlt|]; auto.
  rewrite (Hnone _ q (conj H1 Hlt) Hq) in Hvis. discriminate.
Qed.

(** C9.  When no visible question remains after the cursor, [next()] returns
    false and leaves the engine, in particular the cursor, as it was; a
    repeated call therefore returns false again on the same state. *)
Theorem next_after_last_visible (clock clock' : nat -> Date) (e : Engine) :
  none_visible_from e (currentQuestionIndex (state e) + 1) ->
  next clock e = (false, e)
  /\ currentQuestionIndex (state (snd (next clock e))) = currentQuestionIndex (state e)
  /\ next clock' (snd (next clock e)) = (false, e).
Proof.
  intros Hnone.
  assert (H : forall c, next c e = (false, e)).
  { intros c. unfold next. destruct (getCurrentQuestion e); auto.
    fold (questionCount e).
    pose proof (scanForward_none_visible e
                  (Z.to_nat (questionCount e - (currentQuestionIndex (state e) + 1)))
                  (currentQuestionIndex (state e) + 1)) as Hscan.
    destruct (_ >=? questionCount e) eqn:Hge; auto.
    rewrite Z.geb_leb in Hge. apply Z.leb_gt in Hge.
    assert (questionCount e <=
            scanForward e (Z.to_nat (questionCount e - (currentQuestionIndex (state e) + 1)))
              (currentQuestionIndex (state e) + 1)) by (apply Hscan; auto; lia).
    lia. }
  rewrite (H clock). simpl. auto.
Qed.

End EngineProperties.

(* ------------------------------------------------------------------------- *)
(** ** Scoring: results on no answers, determinism *)

Section ScoringProperties.

Context {host : Host}.

Lemma initialScores_fold (cats : list ScoringCategory) (acc : CategoryScores) :
  all_zero acc ->
  let r := fold_left (fun scores cat => assign (cat_id cat) zero scores) cats acc in
  all_zero r
  /\ (forall k, lookup k acc = Some zero -> lookup k r = Some zero)
  /\ (forall cat, In cat cats -> lookup (cat_id cat) r = Some zero).
Proof.
  revert acc. induction cats as [|c rest IH]; intros acc Hacc; simpl.
  - repeat split; auto. intros cat [].
  - assert (Hacc' : all_zero (assign (cat_id c) zero acc)).
    { apply (assign_values (fun n => n = zero)); auto. }
    destruct (IH _ Hacc') as [H1 [H2 H3]].
    assert (Hkeep : forall k, lookup k acc = Some zero ->
                              lookup k (assign (cat_id c) zero acc) = Some zero).
    { intros k Hk. destruct (string_dec (cat_id c) k) as [<-|Hne].
      - apply lookup_assign_same.
      - now rewrite lookup_assign_other. }
    split; [exact H1 | split].
    + intros k Hk. apply H2. now apply Hkeep.
    + intros cat [<- | Hin].
      * apply H2. apply lookup_assign_same.
      * now apply H3.
Qed.

(** Every configured category starts at 0. *)
Lemma initialScores_zero (cfg : ScoringConfig) :
  all_zero (initialScores cfg)
  /\ (forall cat, In cat (categories cfg) -> lookup (cat_id cat) (initialScores cfg) = Some zero).
Proof.
  destruct (initialScores_fold (categories cfg) [] (Forall_nil _)) as [H1 [_ H3]].
  split; auto.
Qed.

Lemma score_or_zero_all_zero (scores : CategoryScores) (cat : string) :
  all_zero scores -> score_or_zero scores cat = zero.
Proof.
  intros H. unfold score_or_zero. induction H as [|[k n] rest Hn Hrest IH]; simpl; auto.
  destruct (String.eqb k cat); auto. simpl in Hn. subst n. reflexivity.
Qed.

Lemma no_positive_all_zero (scores : CategoryScores) :
  all_zero scores -> filter (fun e => num_gtb (snd e) zero) scores = [].
Proof.
  intros H. induction H as [|[k n] rest Hn Hrest IH]; simpl; auto.
  simpl in Hn. subst n. exact IH.
Qed.

Lemma num_ltb_not_leb (a b : number) : num_ltb a b = true -> num_leb b a = false.
Proof.
  destruct a, b; simpl; try discriminate; auto.
  unfold Qltb. now destruct (Qle_bool q0 q).
Qed.

(** On scores that are all 0, a ground-zero rule asking for a positive
    minimum score in a positive number of categories does not fire. *)
Lemma checkGroundZero_all_zero_strict (quiz : Quiz) (scores : CategoryScores) (gz : GroundZeroConfig) :
  all_zero scores ->
  groundZeroThreshold (scoring quiz) = Some gz ->
  num_gtb (minScore gz) zero = true ->
  num_gtb (minCategories gz) zero = true ->
  checkGroundZero quiz scores = false.
Proof.
  intros Hz Hgz Hms Hmc. unfold checkGroundZero. rewrite Hgz.
  unfold warCategories. cbn [map]. rewrite !(score_or_zero_all_zero scores _ Hz).
  cbn [filter]. unfold num_geb. rewrite (num_ltb_not_leb _ _ Hms).
  change (arr_length (@nil number)) with zero.
  unfold num_gtb in Hmc. now rewrite Hmc.
Qed.

(** C1 (amended).  Two calls of [calculateResults] on the same quiz and
    state agree on every field but the timestamp; the timestamp of each
    result is the clock reading of its call, so the results are equal when
    the two readings are. *)
Theorem calculateResults_deterministic_up_to_timestamp (now1 now2 : Date)
    (quiz : Quiz) (st : QuizState) :
  let r1 := calculateResults now1 quiz st in
  let r2 := calculateResults now2 quiz st in
  resultKey r1 = resultKey r2
  /\ primary r1 = primary r2
  /\ secondary r1 = secondary r2
  /\ res_scores r1 = res_scores r2
  /\ contributions r1 = contributions r2
  /\ isGroundZero r1 = isGroundZero r2
  /\ res_metadata r1 = res_metadata r2
  /\ timestamp r1 = now1
  /\ timestamp r2 = now2.
Proof.
  unfold calculateResults.
  destruct (determinePrimaryResult quiz (calculateCategoryScores quiz st)) as [p s].
  simpl. repeat split; reflexivity.
Qed.

(** C2 (amended).  For a configuration whose type is not composite,
    [calculateResults] on a state with no answers yields a score map with
    every configured category at 0, the [unknown] primary dimension, no
    secondary dimension and no contribution; the result key is [ground-zero]
    when the ground-zero rule accepts the all-zero scores and [unknown]
    otherwise, in particular when no ground-zero rule is configured or when
    the rule asks for a positive minimum score in a positive number of
    categories. *)
Theorem calculateResults_no_answers (now : Date) (quiz : Quiz) (st : QuizState) :
  answers st = [] ->
  is_composite (scoring_type (scoring quiz)) = false ->
  let r := calculateResults now quiz st in
  (forall cat, In cat (categories (scoring quiz)) ->
               lookup (cat_id cat) (res_scores r) = Some zero)
  /\ all_zero (res_scores r)
  /\ primary r = {| dim_category := "unknown"; dim_score := zero;
                    percentage := None; dim_level := None |}
  /\ secondary r = None
  /\ contributions r = []
  /\ resultKey r = (if isGroundZero r then "ground-zero" else "unknown")%string
  /\ (groundZeroThreshold (scoring quiz) = None -> resultKey r = "unknown"%string)
  /\ (forall gz, groundZeroThreshold (scoring quiz) = Some gz ->
                 num_gtb (minScore gz) zero = true ->
                 num_gtb (minCategories gz) zero = true ->
                 resultKey r = "unknown"%string).
Proof.
  intros Hans Hnc.
  destruct (initialScores_zero (scoring quiz)) as [Hz Hlook].
  assert (Hscores : calculateCategoryScores quiz st = initialScores (scoring quiz)).
  { unfold calculateCategoryScores. now rewrite Hans. }
  assert (Hcontrib : getAnswerContributions quiz st = []).
  { unfold getAnswerContributions. now rewrite Hans. }
  assert (Hprim : determinePrimaryResult quiz (initialScores (scoring quiz)) =
                  ({| dim_category := "unknown"; dim_score := zero;
                      percentage := None; dim_level := None |}, None)).
  { unfold determinePrimaryResult. now rewrite (no_positive_all_zero _ Hz). }
  unfold calculateResults. rewrite Hscores, Hcontrib, Hprim. simpl.
  assert (Hkey : forall b : bool,
             (if b then "ground-zero"%string
              else buildResultKey quiz
                     {| dim_category := "unknown"; dim_score := zero;
                        percentage := None; dim_level := None |}
                     None (initialScores (scoring quiz)))
             = (if b then "ground-zero" else "unknown")%string).
  { intros [|]; auto. unfold buildResultKey. now rewrite Hnc. }
  repeat split; auto.
  - intros Hgz. rewrite Hkey. unfold checkGroundZero. now rewrite Hgz.
  - intros gz Hgz Hms Hmc. rewrite Hkey.
    now rewrite (checkGroundZero_all_zero_strict quiz _ gz Hz Hgz Hms Hmc).
Qed.

(** With a composite configuration and scores that are 0 in the war and mask
    categories, [getTopFromList] still names the first category of each
    list, so the key is built from them and the highest-wins fallback is not
    reached. *)
Lemma buildResultKey_composite_zero_scores (quiz : Quiz) (p : ResultDimension)
    (s : option ResultDimension) (scores : CategoryScores) :
  is_composite (scoring_type (scoring quiz)) = true ->
  (forall c, In c (warCategories ++ maskCategories) -> score_or_zero scores c = zero) ->
  buildResultKey quiz p s scores = "abandonment-flooded"%string.
Proof.
  intros Hc Hz. unfold buildResultKey, getTopFromList. rewrite Hc. simpl.
  rewrite !Hz by (simpl; tauto). reflexivity.
Qed.

End ScoringProperties.

(* ------------------------------------------------------------------------- *)
(** ** Scoring: the estimated maximum of a category *)

Lemma fold_left_flat_map {A B C : Type} (f : A -> B -> A) (g : C -> list B)
    (l : list C) (acc : A) :
  fold_left f (flat_map g l) acc = fold_left (fun a x => fold_left f (g x) a) l acc.
Proof.
  revert acc. induction l as [|x rest IH]; intros acc; simpl; auto.
  now rewrite fold_left_app, IH.
Qed.

Lemma fold_left_ext_in {A B : Type} (f g : A -> B -> A) (l : list B) (acc : A) :
  (forall a x, In x l -> f a x = g a x) -> fold_left f l acc = fold_left g l acc.
Proof.
  revert acc. induction l as [|x rest IH]; intros acc H; simpl; auto.
  rewrite (H acc x (or_introl eq_refl)). apply IH. intros a y Hy. apply H. now right.
Qed.

Lemma addIfNamed_unnamed (cat : string) (l : list ScoreContribution) (acc : number) :
  existsb (fun sc => String.eqb (category sc) cat) l = false ->
  fold_left (addIfNamed cat) l acc = acc.
Proof.
  revert acc. induction l as [|sc rest IH]; intros acc H; simpl in *; auto.
  apply orb_false_iff in H. destruct H as [H1 H2].
  unfold addIfNamed at 2. rewrite H1. now apply IH.
Qed.

(** A tag that does not name [cat] adds nothing toward [cat]. *)
Lemma tag_contribution_other (cat : string) (tag : option string) (acc : number) :
  tag_is tag cat = false ->
  fold_left (addIfNamed cat) (tag_contribution tag) acc = acc.
Proof.
  intros H. destruct tag as [s|]; simpl; auto.
  destruct (String.eqb s EmptyString); simpl; auto.
  unfold addIfNamed. simpl in *. now rewrite H.
Qed.

(** A tag that names [cat] adds one point. *)
Lemma tag_contribution_named (cat : string) (tag : option string) (acc : number) :
  cat <> EmptyString ->
  tag_is tag cat = true ->
  fold_left (addIfNamed cat) (tag_contribution tag) acc = num_add acc one.
Proof.
  intros Hne H. destruct tag as [s|]; simpl in *; try discriminate.
  apply String.eqb_eq in H. subst s.
  destruct (String.eqb cat EmptyString) eqn:E.
  - apply String.eqb_eq in E. contradiction.
  - simpl. unfold addIfNamed. simpl. now rewrite String.eqb_refl.
Qed.

Lemma tag_is_false (tag : option string) (cat : string) :
  tag <> Some cat -> tag_is tag cat = false.
Proof.
  intros H. destruct tag as [s|]; simpl; auto.
  destruct (String.eqb s cat) eqn:E; auto.
  apply String.eqb_eq in E. subst s. now contradiction H.
Qed.

(** The body of the loop over options in [estimateMaxScore] is the sum over
    what the option contributes when selected, for an option that does not
    name the category by its archetype tag or twice by war and mask. *)
Lemma estimate_option_step (cat : string) (opt : ChoiceOption) (acc : number) :
  cat <> EmptyString ->
  archetype opt <> Some cat ->
  ~ (war opt = Some cat /\ mask opt = Some cat) ->
  (let max :=
     match scores opt with
     | Some l =>
         fold_left
           (fun max sc =>
              if String.eqb (category sc) cat
              then num_add max (num_mul (sc_value sc) (weight_or_one sc))
              else max)
           l acc
     | None => acc
     end in
   if tag_is (war opt) cat || tag_is (mask opt) cat then num_add max one else max)
  = fold_left (addIfNamed cat) (optionContributions opt) acc.
Proof.
  intros Hne Harch Hboth. unfold optionContributions.
  rewrite !fold_left_app.
  rewrite (tag_contribution_other cat (archetype opt)) by now apply tag_is_false.
  set (base := fold_left (addIfNamed cat)
                 match scores opt with Some l => l | None => [] end acc).
  assert (Hbase : match scores opt with
                  | Some l =>
                      fold_left
                        (fun max sc =>
                           if String.eqb (category sc) cat
                           then num_add max (num_mul (sc_value sc) (weight_or_one sc))
                           else max)
                        l acc
                  | None => acc
                  end = base).
  { unfold base. destruct (scores opt); reflexivity. }
  cbv zeta. rewrite Hbase.
  destruct (tag_is (war opt) cat) eqn:Hw; destruct (tag_is (mask opt) cat) eqn:Hm; simpl.
  - exfalso. apply Hboth.
    destruct (war opt) as [w|], (mask opt) as [m|]; simpl in *; try discriminate.
    apply String.eqb_eq in Hw, Hm. now subst.
  - rewrite (tag_contribution_named cat (war opt)) by auto.
    now rewrite (tag_contribution_other cat (mask opt)).
  - rewrite (tag_contribution_other cat (war opt)) by auto.
    now rewrite (tag_contribution_named cat (mask opt)).
  - rewrite (tag_contribution_other cat (war opt)) by auto.
    now rewrite (tag_contribution_other cat (mask opt)).
Qed.


(* ------------------------------------------------------------------------- *)
(** ** Scoring: ground-zero detection *)

Lemma Qle_bool_false (a b : Q) : Qle_bool a b = false -> (b < a)%Q.
Proof.
  intros H. apply Qnot_le_lt. intros Hle. apply Qle_bool_iff in Hle. congruence.
Qed.

Lemma Qltb_true (a b : Q) : Qltb a b = true -> (a < b)%Q.
Proof.
  unfold Qltb. intros H. apply Qle_bool_false. now destruct (Qle_bool b a).
Qed.

Lemma Qltb_false (a b : Q) : Qltb a b = false -> (b <= a)%Q.
Proof.
  unfold Qltb. intros H. apply Qle_bool_iff. now destruct (Qle_bool b a).
Qed.

Lemma num_max_finite (a b : Q) :
  num_max (Fin a) (Fin b) = if Qltb a b then Fin b else Fin a.
Proof. reflexivity. Qed.

Lemma num_min_finite (a b : Q) :
  num_min (Fin a) (Fin b) = if Qltb b a then Fin b else Fin a.
Proof. reflexivity. Qed.

(** [Math.max] over finite numbers, from a finite start: the result is one
    of them and bounds them all. *)
Lemma fold_max_finite (qs : list Q) (acc : Q) :
  exists m, fold_left num_max (map Fin qs) (Fin acc) = Fin m
            /\ (m = acc \/ In m qs)
            /\ (acc <= m)%Q
            /\ (forall x, In x qs -> (x <= m)%Q).
Proof.
  revert acc. induction qs as [|x rest IH]; intros acc; cbn [map fold_left].
  - exists acc. split; [reflexivity | split; [now left | split; [apply Qle_refl | intros x []]]].
  - rewrite num_max_finite. destruct (Qltb acc x) eqn:E.
    + apply Qltb_true in E. destruct (IH x) as [m [Hm [Hin [Hle Hall]]]].
      exists m. split; [exact Hm | split; [|split]].
      * destruct Hin as [-> | Hin]; [right; now left | right; now right].
      * lra.
      * intros y [<- | Hy]; [exact Hle | now apply Hall].
    + apply Qltb_false in E. destruct (IH acc) as [m [Hm [Hin [Hle Hall]]]].
      exists m. split; [exact Hm | split; [|split]].
      * destruct Hin as [-> | Hin]; [now left | right; now right].
      * exact Hle.
      * intros y [<- | Hy]; [lra | now apply Hall].
Qed.

Lemma fold_min_finite (qs : list Q) (acc : Q) :
  exists m, fold_left num_min (map Fin qs) (Fin acc) = Fin m
            /\ (m = acc \/ In m qs)
            /\ (m <= acc)%Q
            /\ (forall x, In x qs -> (m <= x)%Q).
Proof.
  revert acc. induction qs as [|x rest IH]; intros acc; cbn [map fold_left].
  - exists acc. split; [reflexivity | split; [now left | split; [apply Qle_refl | intros x []]]].
  - rewrite num_min_finite. destruct (Qltb x acc) eqn:E.
    + apply Qltb_true in E. destruct (IH x) as [m [Hm [Hin [Hle Hall]]]].
      exists m. split; [exact Hm | split; [|split]].
      * destruct Hin as [-> | Hin]; [right; now left | right; now right].
      * lra.
      * intros y [<- | Hy]; [exact Hle | now apply Hall].
    + apply Qltb_false in E. destruct (IH acc) as [m [Hm [Hin [Hle Hall]]]].
      exists m. split; [exact Hm | split; [|split]].
      * destruct Hin as [-> | Hin]; [now left | right; now right].
      * exact Hle.
      * intros y [<- | Hy]; [lra | now apply Hall].
Qed.

Lemma filter_map_swap {A B : Type} (f : B -> bool) (g : A -> B) (l : list A) :
  filter f (map g l) = map g (filter (fun a => f (g a)) l).
Proof.
  induction l as [|a rest IH]; simpl; auto.
  destruct (f (g a)); simpl; now rewrite IH.
Qed.

(** The scores [checkGroundZero] keeps are the scores of the qualifying war
    categories. *)
Lemma warScores_qualifying (scores : CategoryScores) (ms : Q) :
  (forall w, In w warCategories -> finite (score_or_zero scores w)) ->
  filter (fun score => num_geb score (Fin ms))
    (map (fun war => score_or_zero scores war) warCategories)
  = map Fin (map (fun w => Qof (score_or_zero scores w)) (qualifyingWars scores ms)).
Proof.
  intros Hfin. unfold qualifyingWars.
  rewrite filter_map_swap, map_map.
  assert (Hf : forall l : list string,
             (forall w, In w l -> finite (score_or_zero scores w)) ->
             map (fun w => score_or_zero scores w)
               (filter (fun a => num_geb (score_or_zero scores a) (Fin ms)) l)
             = map (fun w => Fin (Qof (score_or_zero scores w)))
                 (filter (fun w => Qle_bool ms (Qof (score_or_zero scores w))) l)).
  { induction l as [|w rest IH]; intros Hl; cbn [filter map]; auto.
    destruct (Hl w (or_introl eq_refl)) as [q Hq].
    assert (Hrest : forall w', In w' rest -> finite (score_or_zero scores w')).
    { intros w' Hw'. apply Hl. now right. }
    rewrite Hq.
    change (num_geb (Fin q) (Fin ms)) with (Qle_bool ms q).
    change (Qof (Fin q)) with q.
    destruct (Qle_bool ms q); cbn [map]; rewrite (IH Hrest); auto.
    now rewrite Hq. }
  apply Hf. exact Hfin.
Qed.

(** The ground-zero test, for finite scores and a finite configuration. *)
Lemma checkGroundZero_iff (quiz : Quiz) (scores : CategoryScores) (mc sp ms : Q) :
  groundZeroThreshold (scoring quiz) =
    Some {| minCategories := Fin mc; maxSpread := Fin sp; minScore := Fin ms |} ->
  (forall w, In w warCategories -> finite (score_or_zero scores w)) ->
  checkGroundZero quiz scores = true
  <-> (mc <= inject_Z (Z.of_nat (List.length (qualifyingWars scores ms))))%Q
      /\ spreadAtMost scores (qualifyingWars scores ms) (Fin sp).
Proof.
  intros Hgz Hfin. unfold checkGroundZero. rewrite Hgz. cbn [minScore minCategories maxSpread].
  rewrite (warScores_qualifying scores ms Hfin).
  set (g := fun w => Qof (score_or_zero scores w)).
  set (Q := qualifyingWars scores ms).
  assert (Hscore : forall w, In w Q -> score_or_zero scores w = Fin (g w)).
  { intros w Hw. apply filter_In in Hw. destruct Hw as [Hw _].
    destruct (Hfin w Hw) as [q Hq]. unfold g. now rewrite Hq. }
  unfold arr_length, num_of_nat, num_of_Z. rewrite !length_map.
  cbn [num_ltb]. unfold Qltb.
  destruct (Qle_bool mc (inject_Z (Z.of_nat (List.length Q)))) eqn:Hcount; cbn [negb].
  2: { apply Qle_bool_false in Hcount. split; [discriminate|]. intros [H _]. lra. }
  apply Qle_bool_iff in Hcount.
  clearbody Q. destruct Q as [|w0 rest].
  - cbn [map]. unfold Math_max, Math_min. cbn [fold_left fl dsub num_sub].
    split.
    + intros _. split; [exact Hcount | intros hi lo []].
    + intros _. pose proof (round_double_not_NaN sp).
      cbn [fl]. now destruct (round_double sp).
  - set (Q := w0 :: rest) in *.
    assert (Hmax : exists hi, In hi Q /\ Math_max (map Fin (map g Q)) = Fin (g hi)
                              /\ forall w, In w Q -> (g w <= g hi)%Q).
    { unfold Q, Math_max. cbn [map fold_left].
      change (num_max NegInf (Fin (g w0))) with (Fin (g w0)).
      destruct (fold_max_finite (map g rest) (g w0)) as [M [HM [HMin [HMle HMall]]]].
      rewrite HM. destruct HMin as [-> | HMin].
      - exists w0. split; [now left|]. split; [reflexivity|].
        intros w [<- | Hw]; [lra | apply HMall, in_map, Hw].
      - apply in_map_iff in HMin. destruct HMin as [hi [<- Hhi]].
        exists hi. split; [now right|]. split; [reflexivity|].
        intros w [<- | Hw]; [exact HMle | apply HMall, in_map, Hw]. }
    assert (Hmin : exists lo, In lo Q /\ Math_min (map Fin (map g Q)) = Fin (g lo)
                              /\ forall w, In w Q -> (g lo <= g w)%Q).
    { unfold Q, Math_min. cbn [map fold_left].
      change (num_min PosInf (Fin (g w0))) with (Fin (g w0)).
      destruct (fold_min_finite (map g rest) (g w0)) as [m [Hm [Hmin [Hmle Hmall]]]].
      rewrite Hm. destruct Hmin as [-> | Hmin].
      - exists w0. split; [now left|]. split; [reflexivity|].
        intros w [<- | Hw]; [lra | apply Hmall, in_map, Hw].
      - apply in_map_iff in Hmin. destruct Hmin as [lo [<- Hlo]].
        exists lo. split; [now right|]. split; [reflexivity|].
        intros w [<- | Hw]; [exact Hmle | apply Hmall, in_map, Hw]. }
    destruct Hmax as [hi0 [Hhi0 [EM Hhi0max]]]. destruct Hmin as [lo0 [Hlo0 [Em Hlo0min]]].
    rewrite EM, Em. split.
    + intros H. split; [exact Hcount|]. intros hi lo Hhi Hlo Hhimax Hlomin.
      rewrite (Hscore hi Hhi), (Hscore lo Hlo). fold (g hi) (g lo) in *.
      assert (E1 : (g hi == g hi0)%Q).
      { apply Qle_antisym; [apply Hhi0max, Hhi | apply Hhimax, Hhi0]. }
      assert (E2 : (g lo == g lo0)%Q).
      { apply Qle_antisym; [apply Hlomin, Hlo0 | apply Hlo0min, Hlo]. }
      cbn [fl]. rewrite (round_double_comp _ _ E1), (round_double_comp _ _ E2). exact H.
    + intros [_ H]. specialize (H hi0 lo0 Hhi0 Hlo0 Hhi0max Hlo0min).
      now rewrite (Hscore hi0 Hhi0), (Hscore lo0 Hlo0) in H.
Qed.

(** On integers of magnitude up to [2^52] the difference is exact. *)
Lemma dsub_leb_integers (a b c : Z) :
  Z.abs a <= 2 ^ 52 -> Z.abs b <= 2 ^ 52 -> Z.abs c <= 2 ^ 53 ->
  num_leb (dsub (fl (num_of_Z a)) (fl (num_of_Z b))) (fl (num_of_Z c)) = (a - b <=? c).
Proof.
  intros Ha Hb Hc. unfold num_of_Z. cbn [fl].
  assert (H52 : 2 ^ 52 < 2 ^ 53) by (apply Z.pow_lt_mono_r; lia).
  assert (H53 : 2 ^ 53 = 2 * 2 ^ 52) by reflexivity.
  rewrite !round_double_Z by lia. unfold dsub. cbn [num_sub fl].
  assert (E : (Qred (inject_Z a - inject_Z b) == inject_Z (a - b))%Q).
  { rewrite Qred_correct. unfold Z.sub. rewrite inject_Z_plus, inject_Z_opp. reflexivity. }
  rewrite (round_double_comp _ _ E), round_double_Z by lia.
  cbn [num_leb]. destruct (a - b <=? c) eqn:Hle.
  - apply Z.leb_le in Hle. apply Qle_bool_iff. now rewrite <- Zle_Qle.
  - apply Z.leb_gt in Hle. destruct (Qle_bool _ _) eqn:Hq; auto.
    apply Qle_bool_iff in Hq. rewrite <- Zle_Qle in Hq. lia.
Qed.

(** For scores and a bound that are such integers, the spread is within the
    bound exactly when any two of the scores differ by at most the bound. *)
Lemma spreadAtMost_integers (scores : CategoryScores) (cats : list string) (sp : Z) :
  (forall w, In w cats ->
             exists z, score_or_zero scores w = num_of_Z z /\ Z.abs z <= 2 ^ 52) ->
  Z.abs sp <= 2 ^ 53 ->
  spreadAtMost scores cats (num_of_Z sp)
  <-> (forall w1 w2, In w1 cats -> In w2 cats ->
                     (Qof (score_or_zero scores w1) - Qof (score_or_zero scores w2)
                      <= inject_Z sp)%Q).
Proof.
  intros Hint Hsp.
  set (g := fun w => Qof (score_or_zero scores w)).
  assert (Hleb : forall hi lo, In hi cats -> In lo cats ->
             num_leb (dsub (fl (score_or_zero scores hi)) (fl (score_or_zero scores lo)))
               (fl (num_of_Z sp)) = true
             <-> (g hi - g lo <= inject_Z sp)%Q).
  { intros hi lo Hhi Hlo. unfold g.
    destruct (Hint hi Hhi) as [a [-> Ha]]. destruct (Hint lo Hlo) as [b [-> Hb]].
    rewrite dsub_leb_integers by assumption. cbn [Qof num_of_Z].
    rewrite Z.leb_le, Zle_Qle. unfold Z.sub. rewrite inject_Z_plus, inject_Z_opp.
    reflexivity. }
  split.
  - intros H w1 w2 H1 H2.
    assert (Hext : exists hi lo, In hi cats /\ In lo cats
                                 /\ forall w, In w cats -> (g lo <= g w <= g hi)%Q).
    { assert (Hne : cats <> []) by (intros ->; destruct H1).
      clear - Hne. induction cats as [|c rest IH]; [congruence|].
      destruct rest as [|c' rest'].
      - exists c, c. split; [now left|]. split; [now left|].
        intros w [<- | []]. lra.
      - destruct IH as [hi [lo [Hhi [Hlo Hall]]]]; [discriminate|].
        exists (if Qle_bool (g hi) (g c) then c else hi),
               (if Qle_bool (g c) (g lo) then c else lo).
        split; [destruct (Qle_bool (g hi) (g c)); [now left | now right]|].
        split; [destruct (Qle_bool (g c) (g lo)); [now left | now right]|].
        intros w Hw.
        assert (Hc : (g lo <= g w <= g hi)%Q \/ w = c).
        { destruct Hw as [<- | Hw]; [now right | left; now apply Hall]. }
        destruct (Qle_bool (g hi) (g c)) eqn:E1, (Qle_bool (g c) (g lo)) eqn:E2;
          try apply Qle_bool_iff in E1; try apply Qle_bool_iff in E2;
          try apply Qle_bool_false in E1; try apply Qle_bool_false in E2;
          destruct Hc as [Hc | ->]; lra. }
    destruct Hext as [hi [lo [Hhi [Hlo Hall]]]].
    assert (Hd : (g hi - g lo <= inject_Z sp)%Q).
    { apply Hleb; auto. apply H; auto; intros w Hw; apply Hall, Hw. }
    pose proof (Hall w1 H1). pose proof (Hall w2 H2). fold (g w1) (g w2). lra.
  - intros H hi lo Hhi Hlo _ _. apply Hleb; auto. now apply H.
Qed.

(** The flag of the result is the outcome of the ground-zero test on the
    scores of the state, and a detected ground zero overrides every other
    key. *)
Lemma calculateResults_ground_zero {host : Host} (now : Date) (quiz : Quiz) (st : QuizState) :
  isGroundZero (calculateResults now quiz st)
  = checkGroundZero quiz (calculateCategoryScores quiz st)
  /\ (checkGroundZero quiz (calculateCategoryScores quiz st) = true ->
      resultKey (calculateResults now quiz st) = "ground-zero"%string).
Proof.
  unfold calculateResults.
  destruct (determinePrimaryResult quiz (calculateCategoryScores quiz st)) as [p s].
  cbn [isGroundZero resultKey]. split; [reflexivity|]. now intros ->.
Qed.

(** C4.  With a ground-zero configuration present, the ground-zero flag of
    the result is true exactly when, among the four war categories, at
    least [minCategories] have a score at or above [minScore] and the
    max-minus-min spread among those qualifying scores, the difference the
    language computes between the highest and the lowest of them, is at
    most [maxSpread]; a true flag makes the result key [ground-zero].  For
    scores and a bound that are integers of magnitude up to [2^52] and
    [2^53] the spread is within the bound exactly when any two qualifying
    scores differ by at most the bound.  In particular war scores 4, 3, 3, 1
    under
    [{minCategories: 3, maxSpread: 2, minScore: 3}] give a true flag and the
    result key [ground-zero]. *)
Theorem groundZero_detection {host : Host} (now : Date) (quiz : Quiz) (st : QuizState)
    (mc sp ms : Q) :
  let scores := calculateCategoryScores quiz st in
  let result := calculateResults now quiz st in
  (groundZeroThreshold (scoring quiz) =
     Some {| minCategories := Fin mc; maxSpread := Fin sp; minScore := Fin ms |} ->
   (forall w, In w warCategories -> finite (score_or_zero scores w)) ->
   (isGroundZero result = true
    <-> (mc <= inject_Z (Z.of_nat (List.length (qualifyingWars scores ms))))%Q
        /\ spreadAtMost scores (qualifyingWars scores ms) (Fin sp))
   /\ (isGroundZero result = true -> resultKey result = "ground-zero"%string))
  /\ (forall bound : Z,
        (forall w, In w warCategories ->
                   exists z, score_or_zero scores w = num_of_Z z /\ Z.abs z <= 2 ^ 52) ->
        Z.abs bound <= 2 ^ 53 ->
        (spreadAtMost scores (qualifyingWars scores ms) (num_of_Z bound)
         <-> forall w1 w2,
               In w1 (qualifyingWars scores ms) -> In w2 (qualifyingWars scores ms) ->
               (Qof (score_or_zero scores w1) - Qof (score_or_zero scores w2)
                <= inject_Z bound)%Q))
  /\ (groundZeroThreshold (scoring quiz) =
        Some {| minCategories := num_of_Z 3; maxSpread := num_of_Z 2; minScore := num_of_Z 3 |} ->
      score_or_zero scores "abandonment" = num_of_Z 4 ->
      score_or_zero scores "exposure" = num_of_Z 3 ->
      score_or_zero scores "entrapment" = num_of_Z 3 ->
      score_or_zero scores "erasure" = num_of_Z 1 ->
      qualifyingWars scores 3 = ["abandonment"; "exposure"; "entrapment"]%string
      /\ isGroundZero result = true
      /\ resultKey result = "ground-zero"%string).
Proof.
  cbv zeta. destruct (calculateResults_ground_zero now quiz st) as [Hflag Hkey].
  split; [|split].
  - intros Hgz Hfin. rewrite Hflag. split.
    + now apply checkGroundZero_iff.
    + exact Hkey.
  - intros bound Hint Hbound. apply spreadAtMost_integers; [|exact Hbound].
    intros w Hw. apply Hint. unfold qualifyingWars in Hw. apply filter_In in Hw. tauto.
  - intros Hgz Ha Hx Hn Hr.
    assert (Hq : qualifyingWars (calculateCategoryScores quiz st) 3 =
                 ["abandonment"; "exposure"; "entrapment"]%string).
    { unfold qualifyingWars, warCategories. cbn [filter]. rewrite Ha, Hx, Hn, Hr. reflexivity. }
    assert (Hc : checkGroundZero quiz (calculateCategoryScores quiz st) = true).
    { unfold checkGroundZero. rewrite Hgz. unfold warCategories. cbn [map].
      rewrite Ha, Hx, Hn, Hr. vm_compute. reflexivity. }
    split; [exact Hq|]. split; [now rewrite Hflag | now apply Hkey].
Qed.

(* ------------------------------------------------------------------------- *)
(** ** Scoring: the composite key *)

Lemma score_or_zero_not_NaN (scores : CategoryScores) (c : string) :
  score_or_zero scores c <> NaN.
Proof.
  unfold score_or_zero, num_or. destruct (lookup c scores) as [n|]; [|discriminate].
  destruct n as [| |q|]; simpl; try discriminate.
  destruct (Qeq_bool q 0); discriminate.
Qed.

Lemma num_ltb_trans (a b c : number) :
  num_ltb a b = true -> num_ltb b c = true -> num_ltb a c = true.
Proof.
  destruct a, b, c; simpl; try discriminate; auto.
  intros H1 H2. apply Qltb_true in H1, H2.
  unfold Qltb. destruct (Qle_bool q1 q) eqn:E; auto.
  apply Qle_bool_iff in E. lra.
Qed.

(** [b <= a < c] gives [b < c], for numbers that are not [NaN]. *)
Lemma num_nlt_ltb_trans (a b c : number) :
  a <> NaN -> b <> NaN ->
  num_ltb a b = false -> num_ltb a c = true -> num_ltb b c = true.
Proof.
  intros Ha Hb. destruct a, b, c; simpl; try discriminate; auto; try congruence.
  intros H1 H2. apply Qltb_false in H1. apply Qltb_true in H2.
  unfold Qltb. destruct (Qle_bool q1 q0) eqn:E; auto.
  apply Qle_bool_iff in E. lra.
Qed.

#[local] Arguments num_ltb : simpl never.
#[local] Arguments score_or_zero : simpl never.

Lemma getTopFromList_loop (scores : CategoryScores) (todo seen : list string)
    (acc : option string * number) :
  top_invariant scores seen acc ->
  top_invariant scores (seen ++ todo)
    (fold_left
       (fun acc cat =>
          let score := score_or_zero scores cat in
          if num_gtb score (snd acc) then (Some cat, score) else acc)
       todo acc).
Proof.
  revert seen acc. induction todo as [|x rest IH]; intros seen acc Hinv; simpl.
  - now rewrite app_nil_r.
  - replace (seen ++ x :: rest) with ((seen ++ [x]) ++ rest)
      by (now rewrite <- app_assoc).
    apply IH.
    pose proof (score_or_zero_not_NaN scores x) as Hx.
    destruct Hinv as [[Htop [Hts Hlow]] | [c [before [after [Htop [Hts [Hseen [Hc [Hb Ha]]]]]]]]].
    + rewrite Hts. destruct (num_gtb (score_or_zero scores x) (num_of_Z (-1))) eqn:E.
      * right. exists x, seen, []. simpl. repeat split; auto.
        -- intros c' Hc'. unfold num_gtb in *.
           apply (num_nlt_ltb_trans (num_of_Z (-1))); auto.
           ++ discriminate.
           ++ apply score_or_zero_not_NaN.
        -- intros c' [].
      * left. repeat split; auto.
        intros c' Hc'. apply in_app_or in Hc'. destruct Hc' as [Hc' | [<- | []]]; auto.
    + rewrite Hts. destruct (num_gtb (score_or_zero scores x) (score_or_zero scores c)) eqn:E.
      * right. exists x, seen, []. simpl. repeat split; auto.
        -- unfold num_gtb in *. eapply num_ltb_trans; eauto.
        -- intros c' Hc'. subst seen. unfold num_gtb in *.
           apply in_app_or in Hc'. destruct Hc' as [Hc' | [<- | Hc']]; auto.
           ++ eapply num_ltb_trans; eauto.
           ++ apply (num_nlt_ltb_trans (score_or_zero scores c)); auto;
                apply score_or_zero_not_NaN.
        -- intros c' [].
      * right. exists c, before, (after ++ [x]). subst seen. repeat split; auto.
        -- now rewrite <- app_assoc.
        -- intros c' Hc'. apply in_app_or in Hc'. destruct Hc' as [Hc' | [<- | []]]; auto.
Qed.

(** What [getTopFromList] returns: nothing exactly when no score of the list
    exceeds -1; otherwise the first category of the greatest score. *)
Lemma getTopFromList_spec (scores : CategoryScores) (cats : list string) :
  match getTopFromList scores cats with
  | None =>
      forall c, In c cats -> num_gtb (score_or_zero scores c) (num_of_Z (-1)) = false
  | Some c =>
      exists before after,
        cats = before ++ c :: after
        /\ num_gtb (score_or_zero scores c) (num_of_Z (-1)) = true
        /\ (forall c', In c' before ->
                       num_ltb (score_or_zero scores c') (score_or_zero scores c) = true)
        /\ (forall c', In c' after ->
                       num_gtb (score_or_zero scores c') (score_or_zero scores c) = false)
  end.
Proof.
  unfold getTopFromList.
  assert (Hinit : top_invariant scores [] (None, num_of_Z (-1))).
  { left. repeat split. intros c []. }
  pose proof (getTopFromList_loop scores cats [] _ Hinit) as H. simpl in H.
  destruct H as [[Htop [_ Hlow]] | [c [before [after [Htop [_ [Hseen [Hc [Hb Ha]]]]]]]]];
    rewrite Htop; eauto 10.
Qed.

(** Scores that are 0 or more always yield a top category: the fallback of
    [buildResultKey] is reached only when every score of a list is -1 or
    less. *)
Lemma getTopFromList_some (scores : CategoryScores) (c : string) (cats : list string) :
  In c cats ->
  num_geb (score_or_zero scores c) zero = true ->
  exists top, getTopFromList scores cats = Some top.
Proof.
  intros Hin Hge. pose proof (getTopFromList_spec scores cats) as H.
  destruct (getTopFromList scores cats) as [top|]; eauto.
  specialize (H c Hin). unfold num_gtb, num_geb in *.
  destruct (score_or_zero scores c) as [| |q|]; simpl in *; try discriminate.
  apply Qltb_false in H. apply Qle_bool_iff in Hge.
  unfold inject_Z in *. exfalso. revert H Hge. unfold Qle. simpl. lia.
Qed.

(** The composite key joins the two tops whenever both lists have one. *)
Lemma buildResultKey_composite (quiz : Quiz) (p : ResultDimension)
    (s : option ResultDimension) (scores : CategoryScores) (w m : string) :
  is_composite (scoring_type (scoring quiz)) = true ->
  getTopFromList scores warCategories = Some w ->
  getTopFromList scores maskCategories = Some m ->
  In w warCategories /\ In m maskCategories
  /\ buildResultKey quiz p s scores = (w ++ "-" ++ m)%string.
Proof.
  intros Hc Hw Hm.
  pose proof (getTopFromList_spec scores warCategories) as Sw. rewrite Hw in Sw.
  pose proof (getTopFromList_spec scores maskCategories) as Sm. rewrite Hm in Sm.
  destruct Sw as [bw [aw [Ew _]]]. destruct Sm as [bm [am [Em _]]].
  assert (Iw : In w warCategories) by (rewrite Ew; apply in_elt).
  assert (Im : In m maskCategories) by (rewrite Em; apply in_elt).
  repeat split; auto.
  unfold buildResultKey. rewrite Hc, Hw, Hm.
  simpl in Iw, Im.
  destruct Iw as [<- | [<- | [<- | [<- | []]]]];
    destruct Im as [<- | [<- | [<- | [<- | []]]]]; reflexivity.
Qed.

(* ------------------------------------------------------------------------- *)
(** ** Runs on concrete quizzes *)

(** C1, counterexample: the same quiz and state scored at two clock readings
    give results whose timestamps differ. *)
Lemma calculateResults_timestamp_differs :
  (timestamp (calculateResults (host := exampleHost) 1000 EXAMPLE_QUIZ
                (freshState "example-quiz" 0))
   =? timestamp (calculateResults (host := exampleHost) 2000 EXAMPLE_QUIZ
                   (freshState "example-quiz" 0))) = false.
Proof. reflexivity. Qed.

(** C2, counterexample: with no answer and a ground-zero rule whose minimum
    score is 0, every war category qualifies with score 0 and the key is
    [ground-zero], not [unknown]. *)
Lemma no_answers_ground_zero_key :
  answers (freshState "lenient" 0) = []
  /\ resultKey (calculateResults (host := exampleHost) 0 lenientGroundZeroQuiz
                  (freshState "lenient" 0)) = "ground-zero"%string.
Proof. split; reflexivity. Qed.

(** C2 on [archetypeQuiz] (highest-wins, no ground-zero rule) with no answer. *)
Lemma calculateResults_no_answers_witness :
  resultKey (calculateResults (host := exampleHost) 0 archetypeQuiz (freshState "archetype" 0))
  = "unknown"%string.
Proof.
  apply (calculateResults_no_answers (host := exampleHost) 0 archetypeQuiz
           (freshState "archetype" 0) eq_refl eq_refl).
  reflexivity.
Defined.

(** C3, the code at the failing inputs.  On [EXAMPLE_QUIZ] (composite) with
    no answer, every score is 0, ground zero is not detected and the primary
    dimension is [unknown], yet the key is [abandonment-flooded] instead of
    the highest-wins key [unknown].  With the single answer q1 = 1 the only
    positive score is abandonment's and no mask category has a positive
    score, yet the key is [abandonment-flooded] instead of the highest-wins
    key [abandonment]. *)
Theorem composite_key_without_positive_score :
  let r0 := calculateResults (host := exampleHost) 0 EXAMPLE_QUIZ
              (freshState "example-quiz" 0) in
  let r1 := calculateResults (host := exampleHost) 0 EXAMPLE_QUIZ
              (withAnswers (freshState "example-quiz" 0) [answer "q1" (VNum one) 1]) in
  (all_zero (res_scores r0)
   /\ isGroundZero r0 = false
   /\ dim_category (primary r0) = "unknown"%string
   /\ secondary r0 = None
   /\ resultKey r0 = "abandonment-flooded"%string)
  /\ (filter (fun e => num_gtb (snd e) zero) (res_scores r1) = [("abandonment"%string, one)]
      /\ isGroundZero r1 = false
      /\ dim_category (primary r1) = "abandonment"%string
      /\ secondary r1 = None
      /\ resultKey r1 = "abandonment-flooded"%string).
Proof.
  cbv zeta. split.
  - split; [|repeat split; reflexivity].
    vm_compute. repeat constructor.
  - repeat split; reflexivity.
Qed.

(** C4 on [warQuiz] answered with 4, 3, 3, 1. *)
Lemma groundZero_detection_witness :
  (isGroundZero (calculateResults (host := exampleHost) 0 warQuiz warState) = true
   <-> (3 <= inject_Z (Z.of_nat (List.length
                 (qualifyingWars (calculateCategoryScores warQuiz warState) 3))))%Q
       /\ spreadAtMost (calculateCategoryScores warQuiz warState)
            (qualifyingWars (calculateCategoryScores warQuiz warState) 3) (num_of_Z 2))
  /\ isGroundZero (calculateResults (host := exampleHost) 0 warQuiz warState) = true
  /\ resultKey (calculateResults (host := exampleHost) 0 warQuiz warState) = "ground-zero"%string.
Proof.
  destruct (groundZero_detection (host := exampleHost) 0 warQuiz warState 3 2 3)
    as [Hgen [_ Hex]].
  destruct (Hgen eq_refl) as [Hiff _].
  { intros w [<- | [<- | [<- | [<- | []]]]]; eexists; reflexivity. }
  destruct (Hex eq_refl eq_refl eq_refl eq_refl eq_refl) as [_ [H1 H2]].
  split; [exact Hiff | split; assumption].
Defined.



(** C7 on a blank string for a required question whose pattern would throw. *)
Lemma validateAnswer_empty_value_witness :
  validateAnswer (host := exampleHost) (gatedQuestion AND) (VStr "   ")
  = Ok {| isValid := false;
          errors := [ {| err_questionId := "q2";
                         message := "This question requires an answer";
                         code := required_code |} ] |}.
Proof.
  assert (Hv : empty_value (VStr "   ")).
  { right; right; left. exists "   "%string. split; reflexivity. }
  destruct (validateAnswer_empty_value (host := exampleHost) (gatedQuestion AND)
              (VStr "   ") Hv) as [H _].
  apply H. discriminate.
Defined.

(** C8 on the gating condition of the visibility example, with no stored answer. *)
Lemma evaluateCondition_unanswered_witness :
  evaluateCondition (host := exampleHost) gate_q1_yes (freshState "gated" 0) = false
  /\ isQuizComplete (host := exampleHost) [gatedQuestion AND] (freshState "gated" 0) = true.
Proof.
  destruct (evaluateCondition_unanswered (host := exampleHost) gate_q1_yes
              (freshState "gated" 0) eq_refl) as [H [_ [_ [_ [_ Hgate]]]]].
  split.
  - apply H. reflexivity.
  - destruct (Hgate eq_refl (gatedQuestion AND) AND [] [] eq_refl) as [_ [Hc _]].
    exact Hc.
Defined.

(** C10 on two questions, both hidden. *)
Lemma calculateProgress_no_visible_question_witness :
  calculateProgress (host := exampleHost) [gatedQuestion AND; gatedQuestion OR]
    (freshState "gated" 0) = num_of_Z 100.
Proof.
  destruct (calculateProgress_no_visible_question (host := exampleHost)
              [gatedQuestion AND; gatedQuestion OR] (freshState "gated" 0)) as [H _].
  apply H. intros q [<- | [<- | []]]; reflexivity.
Defined.



(** C9 on [gatedEngine]: the only later question is hidden. *)
Lemma next_after_last_visible_witness :
  next (host := exampleHost) exampleClock gatedEngine = (false, gatedEngine).
Proof.
  assert (Hnone : none_visible_from (host := exampleHost) gatedEngine
                    (currentQuestionIndex (state gatedEngine) + 1)).
  { intros j q Hj Hq. unfold questionCount in Hj. simpl in Hj.
    assert (j = 1) by lia. subst j.
    vm_compute in Hq. injection Hq as <-. reflexivity. }
  destruct (next_after_last_visible (host := exampleHost) exampleClock exampleClock
              gatedEngine Hnone) as [H _].
  exact H.
Defined.

(* ------------------------------------------------------------------------- *)
(** ** Further runs of the model *)

(** The composite key example of the specification. *)
Example composite_key_example :
  buildResultKey EXAMPLE_QUIZ
    {| dim_category := "abandonment"; dim_score := num_of_Z 5;
       percentage := None; dim_level := None |}
    None
    [ ("abandonment", num_of_Z 5); ("exposure", num_of_Z 2); ("entrapment", num_of_Z 1);
      ("erasure", num_of_Z 0); ("flooded", num_of_Z 3); ("armored", num_of_Z 1);
      ("phantom", num_of_Z 0); ("analyzer", num_of_Z 0) ]%string
  = "abandonment-flooded"%string.
Proof. reflexivity. Qed.

(** A valid answer is stored, announced and saved. *)
Example submitAnswer_valid_run :
  let r := submitAnswer (host := exampleHost) exampleClock (VStr "A") (exampleEngine 1) in
  fst r = Ok {| isValid := true; errors := [] |}
  /\ answers (state (snd r))
     = [("q2"%string, {| ans_questionId := "q2"; ans_value := VStr "A"; ans_timestamp := 1000 |})]
  /\ List.length (effects (snd r)) = 2%nat.
Proof. repeat split; reflexivity. Qed.

(** A non-empty value against a question whose pattern is not a regular
    expression: validation throws, and so does [submitAnswer]. *)
Example submitAnswer_throwing_pattern :
  validateAnswer (host := exampleHost) (gatedQuestion AND) (VStr "x") = Throw "SyntaxError"
  /\ submitAnswer (host := exampleHost) exampleClock (VStr "x")
       {| quiz := gatedQuiz; config := defaultConfig; state := moveTo 1 (freshState "gated" 0);
          questionOrder := [0; 1]; effects := [] |}
     = (Throw "SyntaxError",
        {| quiz := gatedQuiz; config := defaultConfig; state := moveTo 1 (freshState "gated" 0);
           questionOrder := [0; 1]; effects := [] |}).
Proof. split; reflexivity. Qed.

(** From the first question of [EXAMPLE_QUIZ], [next()] moves to the second. *)
Example next_moves_forward :
  let r := next (host := exampleHost) exampleClock (exampleEngine 0) in
  fst r = true /\ currentQuestionIndex (state (snd r)) = 1.
Proof. split; reflexivity. Qed.

(** An option scored through its archetype tag adds a point when selected,
    and [estimateMaxScore] does not count it. *)
Example estimateMaxScore_archetype_tag :
  res_scores (calculateResults (host := exampleHost) 0 archetypeQuiz
                (withAnswers (freshState "archetype" 0) [answer "a1" (VStr "A") 1]))
  = [ ("fixer", num_of_Z 1); ("vanisher", num_of_Z 0); ("analyzer", num_of_Z 0);
      ("warrior", num_of_Z 0); ("chameleon", num_of_Z 0); ("performer", num_of_Z 0) ]%string
  /\ estimateMaxScore archetypeQuiz "fixer" = num_of_Z 10.
Proof. split; reflexivity. Qed.

(* ------------------------------------------------------------------------- *)
(** ** Validation: results, whole-state validation, completeness *)

Section MoreValidationProperties.

Context {host : Host}.

Lemma push_if_ids (qid : string) (b : bool) (msg : string) (c : ValidationErrorCode) :
  Forall (fun e => err_questionId e = qid) (push_if b (mkError qid msg c)).
Proof. destruct b; simpl; repeat constructor. Qed.

Lemma validateMultiChoice_ids (qid : string) (mn mx : option number) (v : value) :
  Forall (fun e => err_questionId e = qid) (validateMultiChoice qid mn mx v).
Proof.
  unfold validateMultiChoice. apply Forall_app. split.
  - destruct mn; [apply push_if_ids | constructor].
  - destruct mx; [apply push_if_ids | constructor].
Qed.

Lemma validateTextInput_ids (qid : string) (mn mx : option number) (pat : option string)
    (v : value) (errs : list ValidationError) :
  validateTextInput qid mn mx pat v = Ok errs ->
  Forall (fun e => err_questionId e = qid) errs.
Proof.
  unfold validateTextInput.
  set (e1 := match mn with Some m => _ | None => [] end).
  set (e2 := match mx with Some m => _ | None => [] end).
  assert (H1 : Forall (fun e => err_questionId e = qid) e1).
  { unfold e1. destruct mn; [apply push_if_ids | constructor]. }
  assert (H2 : Forall (fun e => err_questionId e = qid) e2).
  { unfold e2. destruct mx; [apply push_if_ids | constructor]. }
  destruct (str_truthy pat).
  - destruct (RegExp_test _ _); [|discriminate].
    intros [= <-]. repeat (apply Forall_app; split); auto. apply push_if_ids.
  - intros [= <-]. apply Forall_app. split; auto.
Qed.

Lemma validateSlider_ids (qid : string) (mn mx : number) (v : value) :
  Forall (fun e => err_questionId e = qid) (validateSlider qid mn mx v).
Proof.
  unfold validateSlider. destruct (isNaN (as_number v)).
  - repeat constructor.
  - apply push_if_ids.
Qed.

(** X1.  Whenever [validateAnswer] returns, the result is valid exactly when
    it carries no error, and every error it carries names the validated
    question. *)
Theorem validateAnswer_result_shape (question : Question) (v : value) (r : ValidationResult) :
  validateAnswer question v = Ok r ->
  (isValid r = true <-> errors r = [])
  /\ Forall (fun e => err_questionId e = id question) (errors r).
Proof.
  unfold validateAnswer.
  destruct (is_required question && isEmpty v).
  { intros [= <-]. simpl. split; [split; discriminate | repeat constructor]. }
  destruct (isEmpty v).
  { intros [= <-]. simpl. split; [tauto | constructor]. }
  destruct (match kind question with
            | MultiChoice _ mn mx => Ok (validateMultiChoice (id question) mn mx v)
            | TextInput mn mx pat => validateTextInput (id question) mn mx pat v
            | Slider mn mx _ => Ok (validateSlider (id question) mn mx v)
            | Likert _ _ _ => Ok (validateLikert (id question) v)
            | _ => Ok []
            end) as [errs|x] eqn:E; simpl; [|discriminate].
  intros [= <-]. simpl. split.
  - destruct errs; simpl; split; auto; discriminate.
  - destruct (kind question); try (injection E as <-); try constructor.
    + apply validateMultiChoice_ids.
    + apply push_if_ids.
    + apply validateSlider_ids.
    + eapply validateTextInput_ids; eauto.
Qed.

(** X2.  The quiz is complete exactly when no question is reported as
    unanswered. *)
Theorem isQuizComplete_iff_no_unanswered (qs : list Question) (st : QuizState) :
  isQuizComplete qs st = true <-> getUnansweredQuestions qs st = [].
Proof.
  unfold isQuizComplete, getUnansweredQuestions.
  induction qs as [|q rest IH]; simpl; [tauto|].
  destruct (is_visible q st); simpl.
  - destruct (is_required q); simpl.
    + destruct (isEmpty (answer_value st (id q))); simpl.
      * split; discriminate.
      * exact IH.
    + exact IH.
  - exact IH.
Qed.

(** A visible required question without an answer makes [validateAnswer]
    report an error. *)
Lemma validateAnswer_required_empty (q : Question) (v : value) (r : ValidationResult) :
  is_required q = true -> isEmpty v = true ->
  validateAnswer q v = Ok r -> errors r <> [].
Proof.
  intros Hr He. unfold validateAnswer. rewrite Hr, He. simpl.
  intros [= <-]. discriminate.
Qed.

Lemma validateQuizState_errors_spec (qs : list Question) (st : QuizState)
    (errs : list ValidationError) :
  validateQuizState_errors qs st = Ok errs ->
  Forall (fun e => exists q, In q qs /\ is_visible q st = true /\ err_questionId e = id q) errs
  /\ (errs = [] -> isQuizComplete qs st = true).
Proof.
  revert errs. induction qs as [|q rest IH]; intros errs; simpl.
  - intros [= <-]. split; [constructor | reflexivity].
  - destruct (is_visible q st) eqn:Hvis; simpl.
    + destruct (validateAnswer q (answer_value st (id q))) as [r|x] eqn:Hr; simpl; [|discriminate].
      destruct (validateQuizState_errors rest st) as [more|x] eqn:Hmore; simpl; [|discriminate].
      intros [= <-]. destruct (IH more eq_refl) as [IH1 IH2].
      destruct (validateAnswer_result_shape q _ r Hr) as [_ Hids].
      split.
      * apply Forall_app. split.
        -- eapply Forall_impl; [|exact Hids]. intros e He. exists q. auto.
        -- eapply Forall_impl; [|exact IH1]. intros e [q' [Hin [Hv Hid]]]. exists q'. auto.
      * intros Hnil. apply app_eq_nil in Hnil. destruct Hnil as [Hr0 Hm0].
        rewrite (IH2 Hm0), andb_true_r.
        destruct (is_required q) eqn:Hreq; auto.
        destruct (isEmpty (answer_value st (id q))) eqn:He; auto.
        exfalso. exact (validateAnswer_required_empty q _ r Hreq He Hr Hr0).
    + intros H. destruct (IH errs H) as [IH1 IH2]. split; auto.
      eapply Forall_impl; [|exact IH1]. intros e [q' [Hin [Hv Hid]]]. exists q'. auto.
Qed.

(** X3.  When [validateQuizState] returns, every error names a question of
    the list that is currently visible, the result is valid exactly when
    there is no error, and a valid result means the quiz is complete. *)
Theorem validateQuizState_visible_only (qs : list Question) (st : QuizState)
    (r : ValidationResult) :
  validateQuizState qs st = Ok r ->
  Forall (fun e => exists q, In q qs /\ is_visible q st = true /\ err_questionId e = id q)
    (errors r)
  /\ (isValid r = true <-> errors r = [])
  /\ (isValid r = true -> isQuizComplete qs st = true).
Proof.
  unfold validateQuizState.
  destruct (validateQuizState_errors qs st) as [errs|x] eqn:E; simpl; [|discriminate].
  intros [= <-]. simpl. destruct (validateQuizState_errors_spec qs st errs E) as [H1 H2].
  split; [exact H1 | split].
  - destruct errs; simpl; split; auto; discriminate.
  - intros Hv. apply H2. destruct errs; auto. discriminate.
Qed.

(** X4.  A hidden question takes no part in whole-state validation, even one
    whose own validation would throw. *)
Theorem validateQuizState_skips_hidden (qs1 qs2 : list Question) (q : Question)
    (st : QuizState) :
  is_visible q st = false ->
  validateQuizState (qs1 ++ q :: qs2) st = validateQuizState (qs1 ++ qs2) st
  /\ getUnansweredQuestions (qs1 ++ q :: qs2) st = getUnansweredQuestions (qs1 ++ qs2) st
  /\ calculateProgress (qs1 ++ q :: qs2) st = calculateProgress (qs1 ++ qs2) st.
Proof.
  intros Hq.
  assert (He : validateQuizState_errors (qs1 ++ q :: qs2) st
               = validateQuizState_errors (qs1 ++ qs2) st).
  { induction qs1 as [|a rest IH]; simpl.
    - now rewrite Hq.
    - now rewrite IH. }
  split; [|split].
  - unfold validateQuizState. now rewrite He.
  - unfold getUnansweredQuestions. rewrite !filter_app. simpl. now rewrite Hq.
  - unfold calculateProgress, visibleQuestions. rewrite !filter_app. simpl. now rewrite Hq.
Qed.

Lemma visibleIndexLoop_spec (qs : list Question) (i currentIndex : Z) (st : QuizState)
    (acc : nat) :
  visibleIndexLoop qs i currentIndex st acc
  = (acc + List.length (visibleQuestions (firstn (Z.to_nat (currentIndex - i)) qs) st))%nat.
Proof.
  revert i acc. induction qs as [|q rest IH]; intros i acc; simpl.
  - rewrite firstn_nil. simpl. lia.
  - destruct (i <? currentIndex) eqn:Hlt.
    + apply Z.ltb_lt in Hlt. rewrite IH.
      replace (Z.to_nat (currentIndex - i)) with (S (Z.to_nat (currentIndex - (i + 1)))) by lia.
      simpl. destruct (is_visible q st); simpl; lia.
    + apply Z.ltb_ge in Hlt.
      replace (Z.to_nat (currentIndex - i)) with 0%nat by lia. simpl. lia.
Qed.

Lemma filter_firstn_length {A : Type} (f : A -> bool) (n : nat) (l : list A) :
  (List.length (filter f (firstn n l)) <= List.length (filter f l))%nat.
Proof.
  revert n. induction l as [|a rest IH]; intros [|n]; simpl; try lia.
  destruct (f a); simpl; specialize (IH n); lia.
Qed.

(** X5.  The visible index of a position is the number of visible questions
    before it, and never exceeds the visible question count; it is 0 for a
    position of 0 or less. *)
Theorem getVisibleQuestionIndex_counts_visible (qs : list Question) (currentIndex : Z)
    (st : QuizState) :
  getVisibleQuestionIndex qs currentIndex st
  = arr_length (visibleQuestions (firstn (Z.to_nat currentIndex) qs) st)
  /\ (List.length (visibleQuestions (firstn (Z.to_nat currentIndex) qs) st)
      <= List.length (visibleQuestions qs st))%nat
  /\ (currentIndex <= 0 -> getVisibleQuestionIndex qs currentIndex st = zero)
  /\ (Z.of_nat (List.length qs) <= currentIndex ->
      getVisibleQuestionIndex qs currentIndex st = getVisibleQuestionCount qs st).
Proof.
  assert (H : getVisibleQuestionIndex qs currentIndex st
              = arr_length (visibleQuestions (firstn (Z.to_nat currentIndex) qs) st)).
  { unfold getVisibleQuestionIndex, arr_length. rewrite visibleIndexLoop_spec.
    now rewrite Z.sub_0_r. }
  split; [exact H | split; [apply filter_firstn_length | split]].
  - intros Hle. rewrite H. replace (Z.to_nat currentIndex) with 0%nat by lia. reflexivity.
  - intros Hge. rewrite H. unfold getVisibleQuestionCount.
    rewrite firstn_all2 by lia. reflexivity.
Qed.

End MoreValidationProperties.

(* ------------------------------------------------------------------------- *)
(** ** Validation: sanitizing text *)

Lemma has_gt_subseq (t s : string) : subseq t s -> has_gt t = true -> has_gt s = true.
Proof.
  induction 1 as [|c t s H IH|c t s H IH]; simpl; auto.
  - intros Ht. rewrite (IH Ht). apply orb_true_r.
  - destruct (Ascii.eqb c ">"); simpl; auto.
Qed.

(** Dropping characters cannot create a tag. *)
Lemma has_tag_subseq (t s : string) : subseq t s -> has_tag s = false -> has_tag t = false.
Proof.
  induction 1 as [|c t s H IH|c t s H IH]; simpl; auto.
  - intros Hs. apply orb_false_iff in Hs. destruct Hs as [_ Hs]. auto.
  - intros Hs. apply orb_false_iff in Hs. destruct Hs as [H1 H2].
    rewrite (IH H2), orb_false_r.
    destruct (Ascii.eqb c "<"); simpl in *; auto.
    destruct (has_gt t) eqn:Ht; auto.
    rewrite (has_gt_subseq t s H Ht) in H1. discriminate.
Qed.

Lemma subseq_refl (s : string) : subseq s s.
Proof. induction s; [constructor | apply subseq_keep; auto]. Qed.

Lemma subseq_trans (a b c : string) : subseq a b -> subseq b c -> subseq a c.
Proof.
  intros Hab Hbc. revert a Hab.
  induction Hbc as [|x b c H IH|x b c H IH]; intros a Hab; auto.
  - constructor. auto.
  - inversion Hab; subst.
    + constructor. auto.
    + apply subseq_keep. auto.
Qed.

Lemma subseq_empty (s : string) : subseq EmptyString s.
Proof. induction s; constructor; auto. Qed.

Lemma subseq_app (a b c d : string) :
  subseq a b -> subseq c d -> subseq (a ++ c) (b ++ d).
Proof.
  intros Hab Hcd. induction Hab; simpl; auto.
  - apply subseq_drop; auto.
  - apply subseq_keep; auto.
Qed.

Lemma string_app_assoc (a b c : string) : ((a ++ b) ++ c)%string = (a ++ (b ++ c))%string.
Proof. induction a; simpl; congruence. Qed.

Lemma rev_string_app (s acc : string) :
  rev_string s acc = (rev_string s EmptyString ++ acc)%string.
Proof.
  revert acc. induction s as [|c s IH]; intros acc; simpl; auto.
  rewrite (IH (String c acc)), (IH (String c EmptyString)).
  now rewrite string_app_assoc.
Qed.

Lemma string_app_nil_r (s : string) : (s ++ EmptyString)%string = s.
Proof. induction s; simpl; congruence. Qed.

Lemma rev_string_subseq (t s : string) :
  subseq t s -> subseq (rev_string t EmptyString) (rev_string s EmptyString).
Proof.
  induction 1 as [|c t s H IH|c t s H IH]; simpl.
  - constructor.
  - rewrite (rev_string_app s). rewrite <- (string_app_nil_r (rev_string t EmptyString)).
    apply subseq_app; auto. apply subseq_empty.
  - rewrite (rev_string_app t), (rev_string_app s).
    apply subseq_app; auto. apply subseq_refl.
Qed.

Lemma rev_string_append (a b : string) :
  rev_string (a ++ b) EmptyString
  = (rev_string b EmptyString ++ rev_string a EmptyString)%string.
Proof.
  induction a as [|x a IHa]; simpl.
  - now rewrite string_app_nil_r.
  - rewrite (rev_string_app (a ++ b) (String x EmptyString)), IHa,
      (rev_string_app a (String x EmptyString)).
    now rewrite string_app_assoc.
Qed.

Lemma rev_string_involutive (s : string) :
  rev_string (rev_string s EmptyString) EmptyString = s.
Proof.
  induction s as [|c s IH]; simpl; auto.
  rewrite (rev_string_app s (String c EmptyString)), rev_string_append.
  simpl. now rewrite IH.
Qed.

Lemma trim_start_subseq (s : string) : subseq (trim_start s) s.
Proof.
  induction s as [|c s IH]; simpl; [constructor|].
  destruct (is_space c); [apply subseq_drop; auto | apply subseq_refl].
Qed.

Lemma trim_subseq (s : string) : subseq (trim s) s.
Proof.
  unfold trim. eapply subseq_trans; [|apply trim_start_subseq].
  rewrite <- (rev_string_involutive (trim_start s)) at 2.
  apply rev_string_subseq. apply trim_start_subseq.
Qed.

Lemma remove_ci_subseq (p : string) (skip : nat) (s : string) :
  subseq (remove_ci p skip s) s.
Proof.
  revert skip. induction s as [|c s IH]; intros skip; simpl; [constructor|].
  destruct skip as [|k]; [|apply subseq_drop; auto].
  destruct (prefix_ci p (String c s)); [apply subseq_drop | apply subseq_keep]; auto.
Qed.

Lemma strip_tags_has_gt (b : bool) (s : string) :
  has_gt s = false -> has_gt (strip_tags b s) = false.
Proof.
  revert b. induction s as [|c s IH]; intros b; simpl; auto.
  intros H. apply orb_false_iff in H. destruct H as [H1 H2]. rewrite H1.
  destruct b; auto.
  rewrite H2, andb_false_r. simpl. rewrite H1. simpl. auto.
Qed.

Lemma strip_tags_no_tag (b : bool) (s : string) : has_tag (strip_tags b s) = false.
Proof.
  revert b. induction s as [|c s IH]; intros b; simpl; auto.
  destruct b.
  - destruct (Ascii.eqb c ">"); auto.
  - destruct (Ascii.eqb c "<") eqn:Hc; simpl.
    + destruct (has_gt s) eqn:Hgt; simpl; auto.
      rewrite Hc, IH. simpl. now rewrite strip_tags_has_gt.
    + rewrite Hc, IH. reflexivity.
Qed.

Lemma strip_tags_clean (s : string) : has_tag s = false -> strip_tags false s = s.
Proof.
  induction s as [|c s IH]; simpl; auto.
  intros H. apply orb_false_iff in H. destruct H as [H1 H2].
  rewrite H1, (IH H2). reflexivity.
Qed.

Lemma remove_ci_clean (p s : string) : occurs_ci p s = false -> remove_ci p 0 s = s.
Proof.
  induction s as [|c s IH]; auto.
  intros H. cbn [occurs_ci] in H. apply orb_false_iff in H. destruct H as [H1 H2].
  cbn [remove_ci]. rewrite H1, (IH H2). reflexivity.
Qed.

Lemma trim_start_clean (s : string) : starts_clean s = true -> trim_start s = s.
Proof.
  destruct s as [|c s]; simpl; auto.
  intros H. now destruct (is_space c).
Qed.

(** X6.  Sanitized text is the input with characters dropped, it holds no
    tag (no [<] with a [>] anywhere after it), and text that needs no
    sanitizing comes back unchanged: no tag, no occurrence of [javascript:]
    in any letter case, no white space at either end. *)
Theorem sanitizeText_removes_tags (text : string) :
  subseq (sanitizeText text) text
  /\ has_tag (sanitizeText text) = false
  /\ (has_tag text = false ->
      occurs_ci "javascript:" text = false ->
      starts_clean text = true ->
      starts_clean (rev_string text EmptyString) = true ->
      sanitizeText text = text).
Proof.
  assert (Hsub : subseq (sanitizeText text) (strip_tags false text)).
  { unfold sanitizeText. eapply subseq_trans; [apply trim_subseq | apply remove_ci_subseq]. }
  split; [|split].
  - eapply subseq_trans; [exact Hsub|].
    assert (H : forall b s, subseq (strip_tags b s) s).
    { intros b s. revert b. induction s as [|c s IH]; intros b; simpl; [constructor|].
      destruct b.
      - destruct (Ascii.eqb c ">"); apply subseq_drop; auto.
      - destruct (Ascii.eqb c "<" && has_gt s); [apply subseq_drop | apply subseq_keep]; auto. }
    apply H.
  - eapply has_tag_subseq; [exact Hsub | apply strip_tags_no_tag].
  - intros Ht Hjs Hs He. unfold sanitizeText.
    rewrite (strip_tags_clean text Ht), (remove_ci_clean _ text Hjs).
    unfold trim. rewrite (trim_start_clean text Hs), (trim_start_clean _ He).
    apply rev_string_involutive.
Qed.

(* ------------------------------------------------------------------------- *)
(** ** Validation: the e-mail pattern *)

Lemma string_app_eq_nil (a b : string) :
  (a ++ b)%string = EmptyString -> a = EmptyString /\ b = EmptyString.
Proof. destruct a; simpl; [auto | discriminate]. Qed.

Lemma nullable_lang (r : regex) : nullable r = true <-> lang r EmptyString.
Proof.
  split.
  - induction r; simpl; intros H; try discriminate.
    + constructor.
    + apply andb_true_iff in H. destruct H as [H1 H2].
      change EmptyString with (EmptyString ++ EmptyString)%string. constructor; auto.
    + apply orb_true_iff in H. destruct H as [H|H]; [apply lang_alt_l | apply lang_alt_r]; auto.
    + constructor.
  - intros H. remember EmptyString as s eqn:Hs.
    induction H; simpl; auto; try discriminate.
    + apply string_app_eq_nil in Hs. destruct Hs as [-> ->].
      rewrite IHlang1, IHlang2; auto.
    + rewrite IHlang; auto.
    + rewrite IHlang; auto. apply orb_true_r.
Qed.

Lemma deriv_sound (c : ascii) (r : regex) (s : string) :
  lang (deriv c r) s -> lang r (String c s).
Proof.
  revert s. induction r; simpl; intros s H.
  - inversion H.
  - inversion H.
  - destruct (p c) eqn:Hp; inversion H; subst. now constructor.
  - assert (Hcat : forall w, lang (Cat (deriv c r1) r2) w -> lang (Cat r1 r2) (String c w)).
    { intros w Hw. inversion Hw; subst.
      change (String c (s1 ++ s2)) with (String c s1 ++ s2)%string.
      constructor; auto. }
    destruct (nullable r1) eqn:Hn.
    + inversion H; subst; auto.
      change (String c s) with (EmptyString ++ String c s)%string.
      constructor; auto. now apply nullable_lang.
    + auto.
  - inversion H; subst; [apply lang_alt_l | apply lang_alt_r]; auto.
  - inversion H; subst.
    change (String c (s1 ++ s2)) with (String c s1 ++ s2)%string.
    constructor; auto.
Qed.

Lemma deriv_complete (c : ascii) (r : regex) (s : string) :
  lang r (String c s) -> lang (deriv c r) s.
Proof.
  intros H. remember (String c s) as w eqn:Hw. revert c s Hw.
  induction H; intros c0 s0 Hw; simpl; try discriminate.
  - injection Hw as -> <-. rewrite H. constructor.
  - destruct s1 as [|x s1']; simpl in Hw.
    + subst s2. assert (Hn : nullable r1 = true) by now apply nullable_lang.
      rewrite Hn. apply lang_alt_r. auto.
    + injection Hw as -> <-.
      assert (Hc : lang (Cat (deriv c0 r1) r2) (s1' ++ s2)) by (constructor; auto).
      destruct (nullable r1); [apply lang_alt_l|]; auto.
  - apply lang_alt_l. auto.
  - apply lang_alt_r. auto.
  - destruct s1 as [|x s1']; simpl in Hw.
    + subst s2. apply (IHlang2 c0 s0 eq_refl).
    + injection Hw as -> <-. constructor; auto.
Qed.

(** The derivative matcher decides the language of the expression. *)
Lemma full_match_lang (r : regex) (s : string) : full_match r s = true <-> lang r s.
Proof.
  revert r. induction s as [|c s IH]; intros r; simpl.
  - apply nullable_lang.
  - rewrite IH. split; [apply deriv_sound | apply deriv_complete].
Qed.

Lemma lang_star_class (p : ascii -> bool) (s : string) :
  lang (Star (CharClass p)) s <-> all_chars p s = true.
Proof.
  split.
  - intros H. remember (Star (CharClass p)) as r eqn:Hr.
    induction H; try discriminate; auto.
    injection Hr as ->. inversion H as [|p' c Hp| | | | |]; subst.
    simpl. rewrite Hp. simpl. auto.
  - induction s as [|c s IH]; simpl; intros H.
    + constructor.
    + apply andb_true_iff in H. destruct H as [H1 H2].
      change (String c s) with (String c EmptyString ++ s)%string.
      constructor; auto. now constructor.
Qed.

Lemma lang_plus_class (p : ascii -> bool) (s : string) :
  lang (Plus (CharClass p)) s <-> s <> EmptyString /\ all_chars p s = true.
Proof.
  unfold Plus. split.
  - intros H. inversion H as [| |r1 r2 s1 s2 H1 H2| | | |]; subst.
    inversion H1 as [|p' c Hp| | | | |]; subst. simpl.
    split; [discriminate|]. rewrite Hp. simpl. now apply lang_star_class.
  - intros [Hne H]. destruct s as [|c s]; [congruence|]. simpl in H.
    apply andb_true_iff in H. destruct H as [H1 H2].
    change (String c s) with (String c EmptyString ++ s)%string.
    constructor; [now constructor | now apply lang_star_class].
Qed.

Lemma lang_one_char (a : ascii) (s : string) :
  lang (CharClass (Ascii.eqb a)) s <-> s = String a EmptyString.
Proof.
  split.
  - intros H. inversion H as [|p' c Hp| | | | |]; subst.
    apply Ascii.eqb_eq in Hp. now subst.
  - intros ->. constructor. apply Ascii.eqb_refl.
Qed.

(** X7.  [isValidEmail] accepts exactly the strings of the form
    [local@domain.tail] whose three parts are non-empty and hold neither
    white space nor [@]. *)
Theorem isValidEmail_iff (email : string) :
  isValidEmail email = true
  <-> exists a b c,
        email = (a ++ "@" ++ b ++ "." ++ c)%string
        /\ email_part a /\ email_part b /\ email_part c.
Proof.
  unfold isValidEmail. rewrite full_match_lang. unfold emailRegex, email_part. split.
  - intros H. inversion H as [| |r1 r2 a w1 Ha H1| | | |]; subst.
    inversion H1 as [| |r1 r2 at_ w2 Hat H2| | | |]; subst.
    inversion H2 as [| |r1 r2 b w3 Hb H3| | | |]; subst.
    inversion H3 as [| |r1 r2 dot c Hdot Hc| | | |]; subst.
    apply lang_one_char in Hat, Hdot. subst.
    apply lang_plus_class in Ha, Hb, Hc.
    exists a, b, c. auto.
  - intros [a [b [c [-> [Ha [Hb Hc]]]]]].
    repeat (constructor; try (now apply lang_plus_class); try (now apply lang_one_char)).
Qed.

(* ------------------------------------------------------------------------- *)
(** ** Validation: form field validators *)

Section ValidatorProperties.

Context {host : Host}.

(** X8.  On an empty value the [required] validator reports an error and
    the [email], [minLength], [maxLength] and [pattern] validators all
    pass.  The [range] validator has no such exemption: it rejects
    [undefined] as not a number, and it judges [null] as the number 0, so
    that [null] passes exactly when 0 lies in the range and is otherwise
    reported as out of range. *)
Theorem validators_on_empty (v : value) (n : number) (regex : string -> bool) (msg : string) :
  isEmpty v = true ->
  validators_required v = Some "This field is required"%string
  /\ validators_email v = None
  /\ validators_minLength n v = None
  /\ validators_maxLength n v = None
  /\ validators_pattern regex msg v = None
  /\ (forall lo hi, validators_range lo hi VUndefined = Some "Must be a number"%string)
  /\ (forall lo hi,
        validators_range lo hi VNull = validators_range lo hi (VNum zero)
        /\ validators_range lo hi VNull
           = if num_leb lo zero && num_leb zero hi then None
             else Some ("Must be between " ++ Number_toString lo ++ " and "
                          ++ Number_toString hi)%string).
Proof.
  intros H.
  unfold validators_required, validators_email, validators_minLength, validators_maxLength,
    validators_pattern.
  rewrite H. repeat split; auto.
Qed.

(** X9.  [composeValidators] returns the error of the first validator whose
    error is truthy and [null] when there is none: an empty-string error
    counts as a pass.  Composing a concatenation is composing the two
    parts. *)
Theorem composeValidators_first_error (vs ws : list (value -> option string)) (v : value) :
  (str_truthy (composeValidators vs v) = false
   <-> Forall (fun f => str_truthy (f v) = false) vs)
  /\ (str_truthy (composeValidators vs v) = false -> composeValidators vs v = None)
  /\ (str_truthy (composeValidators vs v) = true ->
      exists before f after,
        vs = before ++ f :: after
        /\ Forall (fun g => str_truthy (g v) = false) before
        /\ composeValidators vs v = f v)
  /\ composeValidators (vs ++ ws) v
     = composeValidators [composeValidators vs; composeValidators ws] v.
Proof.
  split; [|split; [|split]].
  - induction vs as [|f rest IH]; simpl.
    + split; auto.
    + destruct (str_truthy (f v)) eqn:E.
      * rewrite E. split; [discriminate|]. intros H. inversion H. congruence.
      * rewrite IH. split; [constructor; auto|]. intros H. now inversion H.
  - induction vs as [|f rest IH]; simpl; auto.
    destruct (str_truthy (f v)) eqn:E; auto. rewrite E. discriminate.
  - induction vs as [|f rest IH]; simpl; [discriminate|].
    destruct (str_truthy (f v)) eqn:E.
    + intros _. exists [], f, rest. repeat split; auto.
    + intros H. destruct (IH H) as [before [g [after [-> [Hb Hg]]]]].
      exists (f :: before), g, after. repeat split; auto.
  - assert (Hn : forall l, str_truthy (composeValidators l v) = false ->
                           composeValidators l v = None).
    { induction l as [|g l IHl]; simpl; auto.
      destruct (str_truthy (g v)) eqn:Eg; auto. rewrite Eg. discriminate. }
    simpl. induction vs as [|f rest IH]; simpl.
    + destruct (str_truthy (composeValidators ws v)) eqn:E; auto.
    + destruct (str_truthy (f v)) eqn:E.
      * now rewrite E.
      * exact IH.
Qed.

End ValidatorProperties.

(* ------------------------------------------------------------------------- *)
(** ** Percentages *)

(** [Math.round(a / b * 100)] for [0 <= a <= b], [0 < b]: an integer from 0
    to 100, 100 when [a] is [b] and 0 when [a] is 0. *)
Lemma round_double_1 : round_double 1 = Fin 1.
Proof. vm_compute. reflexivity. Qed.

Lemma round_double_100 : round_double 100 = Fin 100.
Proof. vm_compute. reflexivity. Qed.

(** A number between two finite numbers is finite. *)
Lemma fin_between (x : number) (lo hi : Q) :
  num_leb (Fin lo) x = true -> num_leb x (Fin hi) = true ->
  exists d, x = Fin d /\ (lo <= d <= hi)%Q.
Proof.
  destruct x as [| |d|]; cbn [num_leb]; try discriminate.
  intros H1 H2. apply Qle_bool_iff in H1, H2. eauto.
Qed.

(** The percentage [Math.round((a / b) * 100)] of a part [a] of [b], as
    binary64 computes it. *)
Lemma percent_round_range (a b : Q) :
  (0 <= a)%Q -> (a <= b)%Q -> (0 < b)%Q ->
  exists p : Z,
    Math_round (dmul (ddiv (Fin a) (Fin b)) (num_of_Z 100)) = num_of_Z p
    /\ 0 <= p <= 100
    /\ ((a == b)%Q -> p = 100)
    /\ ((a == 0)%Q -> p = 0).
Proof.
  intros Ha Hab Hb.
  assert (Hbz : Qeq_bool b 0 = false).
  { destruct (Qeq_bool b 0) eqn:E; auto. apply Qeq_bool_iff in E. lra. }
  assert (H0 : (0 <= a / b)%Q).
  { apply Qle_shift_div_l; auto. lra. }
  assert (H1 : (a / b <= 1)%Q).
  { apply Qle_shift_div_r; auto. lra. }
  unfold ddiv, num_div. rewrite Hbz. cbn [fl].
  destruct (fin_between (round_double (Qred (a / b))) 0 1) as [d [Ed Hd]].
  { change (Fin 0) with (round_double 0). apply round_double_mono.
    now rewrite Qred_correct. }
  { rewrite <- round_double_1. apply round_double_mono.
    now rewrite Qred_correct. }
  rewrite Ed. unfold dmul, num_of_Z at 1. cbn [num_mul fl].
  destruct (fin_between (round_double (Qred (d * inject_Z 100))) 0 100) as [y [Ey Hy]].
  { change (Fin 0) with (round_double 0). apply round_double_mono.
    rewrite Qred_correct. change (inject_Z 100) with 100%Q. lra. }
  { rewrite <- round_double_100. apply round_double_mono.
    rewrite Qred_correct. change (inject_Z 100) with 100%Q. lra. }
  rewrite Ey. cbn [Math_round].
  exists (Qfloor (y + (1 # 2))). split; [reflexivity | split; [split | split]].
  - change 0 with (Qfloor (inject_Z 0)). apply Qfloor_resp_le.
    change (inject_Z 0) with 0%Q. lra.
  - change 100 with (Qfloor (201 # 2)). apply Qfloor_resp_le. lra.
  - intros E. assert (Hq : (Qred (a / b) == 1)%Q).
    { rewrite Qred_correct, E. field. lra. }
    rewrite (round_double_comp _ _ Hq), round_double_1 in Ed.
    injection Ed as <-.
    assert (Hy' : round_double (Qred (1 * inject_Z 100)) = Fin 100).
    { vm_compute. reflexivity. }
    rewrite Hy' in Ey. injection Ey as <-. reflexivity.
  - intros E. assert (Hq : (Qred (a / b) == 0)%Q).
    { rewrite Qred_correct, E. field. lra. }
    rewrite (round_double_comp _ _ Hq) in Ed.
    change (round_double 0) with (Fin 0) in Ed. injection Ed as <-.
    assert (Hy' : round_double (Qred (0 * inject_Z 100)) = Fin 0).
    { vm_compute. reflexivity. }
    rewrite Hy' in Ey. injection Ey as <-. reflexivity.
Qed.

Lemma filter_none {A : Type} (f : A -> bool) (l : list A) :
  (forall x, In x l -> f x = false) -> filter f l = [].
Proof.
  induction l as [|a rest IH]; simpl; auto.
  intros H. rewrite (H a (or_introl eq_refl)). apply IH. intros x Hx. apply H. now right.
Qed.

Section ProgressProperties.

Context {host : Host}.

(** X10.  Progress is a whole number from 0 to 100: it is 100 when every
    visible question has a non-empty answer (in particular when none is
    visible) and 0 when some question is visible and none of the visible
    ones is answered. *)
Theorem calculateProgress_range (qs : list Question) (st : QuizState) :
  (exists p : Z, calculateProgress qs st = num_of_Z p /\ 0 <= p <= 100)
  /\ ((forall q, In q (visibleQuestions qs st) ->
                 isEmpty (answer_value st (id q)) = false) ->
      calculateProgress qs st = num_of_Z 100)
  /\ (visibleQuestions qs st <> [] ->
      (forall q, In q (visibleQuestions qs st) ->
                 isEmpty (answer_value st (id q)) = true) ->
      calculateProgress qs st = num_of_Z 0).
Proof.
  unfold calculateProgress.
  set (visible := visibleQuestions qs st).
  set (answered := filter (fun q => negb (isEmpty (answer_value st (id q)))) visible).
  destruct (Nat.eqb (List.length visible) 0) eqn:Hlen.
  - repeat split.
    + exists 100. split; [reflexivity | lia].
    + intros Hne _. apply Nat.eqb_eq in Hlen. destruct visible; [congruence | discriminate].
  - apply Nat.eqb_neq in Hlen.
    assert (Hle : (List.length answered <= List.length visible)%nat).
    { unfold answered. apply filter_length_le. }
    assert (Ha : (0 <= inject_Z (Z.of_nat (List.length answered)))%Q).
    { change 0%Q with (inject_Z 0). rewrite <- Zle_Qle. lia. }
    assert (Hab : (inject_Z (Z.of_nat (List.length answered))
                   <= inject_Z (Z.of_nat (List.length visible)))%Q).
    { rewrite <- Zle_Qle. lia. }
    assert (Hb : (0 < inject_Z (Z.of_nat (List.length visible)))%Q).
    { change 0%Q with (inject_Z 0). rewrite <- Zlt_Qlt. lia. }
    destruct (percent_round_range _ _ Ha Hab Hb) as [p [Hp [Hr [Hfull Hnone]]]].
    change (Math_round (dmul (ddiv (arr_length answered) (arr_length visible))
                          (num_of_Z 100)) = num_of_Z p) in Hp.
    split; [|split].
    + exists p. split; auto.
    + intros Hall. rewrite Hp. f_equal. apply Hfull.
      assert (E : answered = visible).
      { unfold answered. apply forallb_filter_id. apply forallb_forall.
        intros q Hq. now rewrite (Hall q Hq). }
      now rewrite E.
    + intros _ Hall. rewrite Hp. f_equal. apply Hnone.
      assert (E : answered = []).
      { unfold answered. apply filter_none. intros q Hq. now rewrite (Hall q Hq). }
      rewrite E. reflexivity.
Qed.

End ProgressProperties.

(** X11.  [calculatePercentage] is 0 for a maximum of 0 or less and
    otherwise, for a score between 0 and a maximum that is finite and
    positive as a double, a whole number from 0 to 100, 100 at the maximum. *)
Theorem calculatePercentage_range (score max m : Q) :
  ((max <= 0)%Q -> calculatePercentage (Fin score) (Fin max) = zero)
  /\ ((0 <= score)%Q -> (score <= max)%Q -> fl (Fin max) = Fin m -> (0 < m)%Q ->
      exists p : Z,
        calculatePercentage (Fin score) (Fin max) = num_of_Z p
        /\ 0 <= p <= 100
        /\ ((score == max)%Q -> p = 100)).
Proof.
  unfold calculatePercentage. cbv zeta. split.
  - intros H. assert (E : num_leb (fl (Fin max)) zero = true).
    { change zero with (round_double 0). now apply round_double_mono. }
    now rewrite E.
  - intros Hs Hsm Hmax Hm. rewrite Hmax.
    assert (E : num_leb (Fin m) zero = false).
    { cbn [num_leb zero num_of_Z]. destruct (Qle_bool m (inject_Z 0)) eqn:E; auto.
      apply Qle_bool_iff in E. change (inject_Z 0) with 0%Q in E. lra. }
    rewrite E.
    destruct (fin_between (fl (Fin score)) 0 m) as [s [Es Hsr]].
    { change (Fin 0) with (round_double 0). now apply round_double_mono. }
    { rewrite <- Hmax. now apply round_double_mono. }
    rewrite Es.
    destruct (percent_round_range s m) as [p [Hp [Hr [Hfull _]]]]; try tauto.
    exists p. split; [exact Hp | split; [exact Hr|]].
    intros Heq. apply Hfull.
    cbn [fl] in Es, Hmax. rewrite (round_double_comp _ _ Heq), Hmax in Es.
    injection Es as <-. reflexivity.
Qed.

(* ------------------------------------------------------------------------- *)
(** ** Scoring: accumulation of category scores *)

Lemma calculateCategoryScores_fold (quiz : Quiz) (st : QuizState) :
  calculateCategoryScores quiz st
  = fold_left addContribution (answerContributions quiz st) (initialScores (scoring quiz)).
Proof.
  unfold calculateCategoryScores, answerContributions.
  rewrite fold_left_flat_map. apply fold_left_ext_in.
  intros scores entry _. destruct (findQuestion quiz (fst entry)); reflexivity.
Qed.

(** X12.  An answer whose question id is not in the quiz changes nothing in
    the result: scores, contributions and every other field are those of the
    state without it. *)
Theorem scoring_ignores_unknown_answers {host : Host} (now : Date) (quiz : Quiz)
    (st : QuizState) (before after : list (string * QuizAnswer)) (entry : string * QuizAnswer) :
  answers st = before ++ entry :: after ->
  findQuestion quiz (fst entry) = None ->
  calculateCategoryScores quiz st
  = calculateCategoryScores quiz (withAnswers st (before ++ after))
  /\ getAnswerContributions quiz st
     = getAnswerContributions quiz (withAnswers st (before ++ after))
  /\ calculateResults now quiz st
     = calculateResults now quiz (withAnswers st (before ++ after)).
Proof.
  intros Hans Hq.
  assert (H1 : calculateCategoryScores quiz st
               = calculateCategoryScores quiz (withAnswers st (before ++ after))).
  { unfold calculateCategoryScores. simpl. rewrite Hans, !fold_left_app. simpl.
    now rewrite Hq. }
  assert (H2 : getAnswerContributions quiz st
               = getAnswerContributions quiz (withAnswers st (before ++ after))).
  { unfold getAnswerContributions. simpl. rewrite Hans, !flat_map_app. simpl.
    now rewrite Hq. }
  split; [exact H1 | split; [exact H2|]].
  unfold calculateResults. rewrite <- H1, <- H2. reflexivity.
Qed.

Lemma lookup_assign_iff {A : Type} (k k' : string) (v : A) (obj : list (string * A)) :
  lookup k (assign k' v obj) <> None <-> k' = k \/ lookup k obj <> None.
Proof.
  destruct (string_dec k' k) as [<-|Hne].
  - rewrite lookup_assign_same. split; [now left | discriminate].
  - rewrite (lookup_assign_other k' k v obj Hne). tauto.
Qed.

(** X13.  Whatever the answers, the score map has an entry for exactly the
    configured categories and the categories that the contributions of the
    stored answers name: no configured category is lost and no other key
    appears. *)
Theorem calculateCategoryScores_keeps_categories (quiz : Quiz) (st : QuizState) (k : string) :
  lookup k (calculateCategoryScores quiz st) <> None
  <-> (exists cat, In cat (categories (scoring quiz)) /\ cat_id cat = k)
      \/ (exists sc, In sc (answerContributions quiz st) /\ category sc = k).
Proof.
  rewrite calculateCategoryScores_fold.
  assert (Hfold : forall (l : list ScoreContribution) (acc : CategoryScores),
             lookup k (fold_left addContribution l acc) <> None
             <-> lookup k acc <> None \/ exists sc, In sc l /\ category sc = k).
  { induction l as [|sc rest IH]; intros acc; cbn [fold_left].
    - split; [now left | intros [H | [sc [[] _]]]; exact H].
    - rewrite IH. unfold addContribution at 1. rewrite lookup_assign_iff. split.
      + intros [[E | H] | [sc' [Hin E]]].
        * right. exists sc. split; [now left | exact E].
        * now left.
        * right. exists sc'. split; [now right | exact E].
      + intros [H | [sc' [[<- | Hin] E]]].
        * left. now right.
        * left. now left.
        * right. now exists sc'. }
  assert (Hinit : forall (cats : list ScoringCategory) (acc : CategoryScores),
             lookup k (fold_left (fun scores cat => assign (cat_id cat) zero scores) cats acc)
             <> None
             <-> lookup k acc <> None \/ exists cat, In cat cats /\ cat_id cat = k).
  { induction cats as [|c rest IH]; intros acc; cbn [fold_left].
    - split; [now left | intros [H | [c [[] _]]]; exact H].
    - rewrite IH, lookup_assign_iff. split.
      + intros [[E | H] | [c' [Hin E]]].
        * right. exists c. split; [now left | exact E].
        * now left.
        * right. exists c'. split; [now right | exact E].
      + intros [H | [c' [[<- | Hin] E]]].
        * left. now right.
        * left. now left.
        * right. now exists c'. }
  rewrite Hfold. unfold initialScores. rewrite Hinit. cbn [lookup]. tauto.
Qed.

Lemma reduced_zero : reduced zero.
Proof. exists 0%Q. reflexivity. Qed.

(** [n || 0] leaves a reduced number as it is. *)
Lemma num_or_zero_reduced (n : number) : reduced n -> num_or n zero = n.
Proof.
  intros [q ->]. unfold num_or. simpl.
  destruct (Qeq_bool (Qred q) 0) eqn:E; simpl; auto.
  apply Qeq_bool_iff in E. apply Qred_complete in E.
  rewrite Qcanon.Qred_involutive in E. rewrite E. reflexivity.
Qed.

Lemma num_add_reduced (a b : number) : finite a -> finite b -> reduced (num_add a b).
Proof. intros [x ->] [y ->]. exists (x + y)%Q. reflexivity. Qed.

Lemma num_mul_finite (a b : number) : finite a -> finite b -> finite (num_mul a b).
Proof. intros [x ->] [y ->]. exists (Qred (x * y)). reflexivity. Qed.

Lemma reduced_finite (n : number) : reduced n -> finite n.
Proof. intros [q ->]. eexists. reflexivity. Qed.

Lemma contributionTotal_snoc (cat : string) (l : list ScoreContribution) (sc : ScoreContribution) :
  contributionTotal cat (l ++ [sc]) = addIfNamed cat (contributionTotal cat l) sc.
Proof. unfold contributionTotal. now rewrite fold_left_app. Qed.

Lemma contributionTotal_reduced (cat : string) (l : list ScoreContribution) :
  Forall (fun sc => finite (sc_value sc) /\ finite (weight_or_one sc)) l ->
  reduced (contributionTotal cat l).
Proof.
  induction l as [|sc rest IH] using rev_ind; intros H.
  - apply reduced_zero.
  - apply Forall_app in H. destruct H as [Hrest Hsc]. inversion Hsc as [|? ? [Hv Hw] _]; subst.
    rewrite contributionTotal_snoc. unfold addIfNamed.
    destruct (String.eqb (category sc) cat); auto.
    apply num_add_reduced.
    + apply reduced_finite. auto.
    + now apply num_mul_finite.
Qed.


(* ------------------------------------------------------------------------- *)
(** ** Scoring: ranking *)

Lemma num_ltb_asym (a b : number) : num_ltb a b = true -> num_ltb b a = false.
Proof.
  destruct a as [| |x|], b as [| |y|]; cbn [num_ltb]; try discriminate; auto.
  intros H. apply Qltb_true in H.
  destruct (Qltb y x) eqn:E; auto. apply Qltb_true in E. lra.
Qed.

(** Not being below is transitive on numbers that are not [NaN]. *)
Lemma num_nlt_trans (a b c : number) :
  b <> NaN ->
  num_ltb a b = false -> num_ltb b c = false -> num_ltb a c = false.
Proof.
  intros Hb. destruct a as [| |x|], b as [| |y|], c as [| |z|];
    cbn [num_ltb]; try discriminate; auto; try congruence.
  intros H1 H2. apply Qltb_false in H1, H2.
  destruct (Qltb x z) eqn:E; auto. apply Qltb_true in E. lra.
Qed.

(** The comparator of the sort orders two numbers that are not [NaN] as [<]
    does. *)
Lemma sorts_after_ltb (a b : string * number) :
  snd a <> NaN -> snd b <> NaN -> sorts_after a b = num_ltb (snd a) (snd b).
Proof.
  unfold sorts_after, num_gtb. destruct a as [ka [| |x|]], b as [kb [| |y|]];
    cbn [snd]; intros Ha Hb; try congruence; try reflexivity.
  change (Qltb (inject_Z 0) (Qred (y - x)) = Qltb x y).
  destruct (Qltb x y) eqn:E, (Qltb (inject_Z 0) (Qred (y - x))) eqn:E2; auto.
  - apply Qltb_true in E. apply Qltb_false in E2. rewrite Qred_correct in E2.
    change (inject_Z 0) with 0%Q in E2. lra.
  - apply Qltb_false in E. apply Qltb_true in E2. rewrite Qred_correct in E2.
    change (inject_Z 0) with 0%Q in E2. lra.
Qed.

Lemma insert_entry_perm (x : string * number) (l : list (string * number)) :
  Permutation (x :: l) (insert_entry x l).
Proof.
  induction l as [|y rest IH]; simpl; auto.
  destruct (sorts_after x y); auto.
  eapply perm_trans; [apply perm_swap|]. now constructor.
Qed.

Lemma sort_by_score_perm (l : list (string * number)) : Permutation l (sort_by_score l).
Proof.
  unfold sort_by_score. induction l as [|x rest IH]; simpl; auto.
  eapply perm_trans; [|apply insert_entry_perm]. now constructor.
Qed.

Lemma no_NaN_perm (l l' : list (string * number)) :
  Permutation l l' -> no_NaN l -> no_NaN l'.
Proof. intros H. unfold no_NaN. now rewrite H. Qed.

Lemma insert_entry_sorted (x : string * number) (l : list (string * number)) :
  snd x <> NaN -> no_NaN l ->
  StronglySorted ranks_before l -> StronglySorted ranks_before (insert_entry x l).
Proof.
  intros Hx Hl Hs. induction Hs as [|y rest Hrest IH Hy]; simpl.
  - repeat constructor.
  - inversion Hl as [|? ? Hyn Hrn]; subst.
    rewrite (sorts_after_ltb x y Hx Hyn).
    destruct (num_ltb (snd x) (snd y)) eqn:E.
    + constructor; [now apply IH|].
      assert (Hp : Forall (ranks_before y) (x :: rest)).
      { constructor; auto. now apply num_ltb_asym. }
      eapply Permutation_Forall; [apply insert_entry_perm | exact Hp].
    + constructor; [now constructor|].
      constructor; auto.
      eapply Forall_impl; [|exact Hy]. intros z Hz. unfold ranks_before in *.
      now apply (num_nlt_trans _ (snd y)).
Qed.

Lemma sort_by_score_sorted (l : list (string * number)) :
  no_NaN l -> StronglySorted ranks_before (sort_by_score l).
Proof.
  unfold sort_by_score. induction 1 as [|x rest Hx Hrest IH]; simpl.
  - constructor.
  - apply insert_entry_sorted; auto.
    eapply no_NaN_perm; [apply sort_by_score_perm | exact Hrest].
Qed.

(** The sort is stable: its first entry is the first entry of the greatest
    score. *)
Lemma sort_by_score_head (l : list (string * number)) (x : string * number)
    (rest : list (string * number)) :
  no_NaN l -> sort_by_score l = x :: rest ->
  exists before after,
    l = before ++ x :: after
    /\ (forall e, In e before -> num_ltb (snd e) (snd x) = true)
    /\ (forall e, In e after -> num_ltb (snd x) (snd e) = false).
Proof.
  intros Hl. revert x rest. induction Hl as [|a l' Ha Hl' IH]; intros x rest; [discriminate|].
  change (sort_by_score (a :: l')) with (insert_entry a (sort_by_score l')).
  destruct (sort_by_score l') as [|m r] eqn:Es.
  - assert (l' = []).
    { apply Permutation_nil. rewrite <- Es. apply Permutation_sym, sort_by_score_perm. }
    subst l'. simpl. intros [= <- <-]. exists [], [].
    split; [reflexivity|]. split; intros e [].
  - destruct (IH m r eq_refl) as [before [after [-> [Hb Hafter]]]].
    assert (Hm : snd m <> NaN).
    { apply Forall_app in Hl'. destruct Hl' as [_ H]. now inversion H. }
    simpl. rewrite (sorts_after_ltb a m Ha Hm).
    destruct (num_ltb (snd a) (snd m)) eqn:E.
    + intros [= <- <-]. exists (a :: before), after.
      split; [reflexivity|]. split; [|exact Hafter].
      intros e [<- | He]; auto.
    + intros [= <- <-]. exists [], (before ++ m :: after).
      split; [reflexivity|]. split; [intros e []|].
      intros e He. apply in_app_or in He. destruct He as [He | [<- | He]]; auto.
      * destruct (num_ltb (snd a) (snd e)) eqn:E2; auto.
        rewrite (num_ltb_trans _ _ _ E2 (Hb e He)) in E. discriminate.
      * apply (num_nlt_trans _ (snd m)); auto.
Qed.

Lemma positive_not_NaN (scores : CategoryScores) :
  no_NaN (filter (fun e => num_gtb (snd e) zero) scores).
Proof.
  unfold no_NaN. apply Forall_forall. intros e He. apply filter_In in He.
  destruct He as [_ He]. intros Hn. rewrite Hn in He. discriminate.
Qed.

(** X15.  The primary dimension is the category of the greatest positive
    score, the first one in the order of the score map when several share
    it.  The secondary dimension is present exactly when two or more scores
    are positive; it is another entry of the positive scores (the positive
    entries are the primary, the secondary and the rest), its score does not
    exceed the primary's and no remaining entry exceeds it.  With no
    positive score the primary is [unknown] and there is no secondary. *)
Theorem determinePrimaryResult_top (quiz : Quiz) (scores : CategoryScores) :
  let positives := filter (fun e => num_gtb (snd e) zero) scores in
  let r := determinePrimaryResult quiz scores in
  (positives = [] ->
   r = ({| dim_category := "unknown"; dim_score := zero;
           percentage := None; dim_level := None |}, None))
  /\ (positives <> [] ->
      exists before k s after,
        positives = before ++ (k, s) :: after
        /\ (forall e, In e before -> num_ltb (snd e) s = true)
        /\ (forall e, In e after -> num_ltb s (snd e) = false)
        /\ dim_category (fst r) = k /\ dim_score (fst r) = s)
  /\ (forall sec, snd r = Some sec ->
                  exists rest,
                    Permutation positives
                      ((dim_category (fst r), dim_score (fst r))
                         :: (dim_category sec, dim_score sec) :: rest)
                    /\ num_ltb (dim_score (fst r)) (dim_score sec) = false
                    /\ (forall e, In e rest -> num_ltb (dim_score sec) (snd e) = false))
  /\ (snd r = None <-> (List.length positives <= 1)%nat).
Proof.
  cbv zeta. unfold determinePrimaryResult.
  set (positives := filter (fun e => num_gtb (snd e) zero) scores).
  pose proof (positive_not_NaN scores) as Hn. fold positives in Hn.
  pose proof (sort_by_score_perm positives) as Hp.
  pose proof (sort_by_score_sorted positives Hn) as Hs.
  pose proof (sort_by_score_head positives) as Hh.
  destruct (sort_by_score positives) as [|[k s] rest] eqn:Es.
  - apply Permutation_sym, Permutation_nil in Hp. rewrite Hp. simpl.
    repeat split; auto; try discriminate; try congruence; lia.
  - split; [|split; [|split]].
    + intros E. rewrite E in Hp. apply Permutation_nil in Hp. discriminate.
    + intros _. destruct (Hh (k, s) rest Hn eq_refl) as [before [after [E [Hb Ha]]]].
      exists before, k, s, after. simpl. auto.
    + intros sec. simpl. destruct rest as [|[k2 s2] rest']; [discriminate|].
      intros [= <-]. simpl. exists rest'.
      inversion Hs as [|? ? Hs' Hall]; subst. inversion Hall as [|? ? Hfirst _]; subst.
      inversion Hs' as [|? ? _ Hall']; subst.
      split; [exact Hp|]. split; [exact Hfirst|].
      intros e He. rewrite Forall_forall in Hall'. exact (Hall' e He).
    + apply Permutation_length in Hp. simpl in Hp. simpl.
      destruct rest as [|e rest']; simpl in *.
      * split; auto. lia.
      * split; [discriminate | lia].
Qed.

Lemma sorted_app_split {A : Type} (R : A -> A -> Prop) (l1 l2 : list A) :
  StronglySorted R (l1 ++ l2) ->
  StronglySorted R l1 /\ (forall x y, In x l1 -> In y l2 -> R x y).
Proof.
  induction l1 as [|a l1 IH]; simpl; intros H.
  - split; [constructor | intros x y []].
  - inversion H as [|? ? Hs Hall]; subst. destruct (IH Hs) as [IH1 IH2].
    apply Forall_app in Hall. destruct Hall as [Hall1 Hall2].
    split; [now constructor|].
    intros x y [<- | Hx] Hy; auto.
    rewrite Forall_forall in Hall2. auto.
Qed.

(** X16.  For scores without [NaN], [getTopCategories] returns the requested
    number of entries (all of them when fewer exist; a negative [n] drops
    that many from the end), in descending order of score, and no entry left
    out has a higher score than a returned one. *)
Theorem getTopCategories_spec (scores : CategoryScores) (n : option Z) :
  no_NaN scores ->
  let top := getTopCategories scores n in
  let k := match n with Some k => k | None => 3 end in
  let len := Z.of_nat (List.length scores) in
  exists rest,
    Permutation scores (top ++ rest)
    /\ StronglySorted ranks_before top
    /\ (forall x y, In x top -> In y rest -> ranks_before x y)
    /\ Z.of_nat (List.length top) = if k <? 0 then Z.max (len + k) 0 else Z.min k len.
Proof.
  intros Hn. cbv zeta. unfold getTopCategories, slice_to.
  set (k := match n with Some k => k | None => 3 end).
  pose proof (sort_by_score_perm scores) as Hp.
  pose proof (sort_by_score_sorted scores Hn) as Hs.
  rewrite <- (Permutation_length Hp).
  set (sorted := sort_by_score scores) in *.
  set (stop := if k <? 0 then Z.max (Z.of_nat (List.length scores) + k) 0
               else Z.min k (Z.of_nat (List.length scores))).
  exists (skipn (Z.to_nat stop) sorted).
  rewrite firstn_skipn. rewrite <- (firstn_skipn (Z.to_nat stop) sorted) in Hs.
  apply sorted_app_split in Hs. destruct Hs as [Hs1 Hs2].
  split; [exact Hp | split; [exact Hs1 | split; [exact Hs2|]]].
  rewrite length_firstn, <- (Permutation_length Hp).
  subst stop. destruct (k <? 0) eqn:E; lia.
Qed.

Lemma insert_bar_entry (labelFn : string -> string) (x : string * number)
    (l : list (string * number)) :
  let mk := fun e : string * number =>
              {| bar_key := fst e; bar_label := labelFn (fst e); bar_value := snd e |} in
  insert_bar (mk x) (map mk l) = map mk (insert_entry x l).
Proof.
  cbv zeta. induction l as [|y rest IH]; simpl; auto.
  change (bar_sorts_after _ _) with (sorts_after x y).
  destruct (sorts_after x y); simpl; auto. now rewrite IH.
Qed.

Lemma sorted_map {A B : Type} (R : A -> A -> Prop) (R' : B -> B -> Prop) (f : A -> B)
    (l : list A) :
  (forall x y, R x y -> R' (f x) (f y)) ->
  StronglySorted R l -> StronglySorted R' (map f l).
Proof.
  intros HR. induction 1 as [|a l Hs IH Hall]; simpl; constructor; auto.
  apply Forall_map. eapply Forall_impl; [|exact Hall]. intros y. apply HR.
Qed.

(** X17.  For scores without [NaN], the bars of [formatScoresForBars] are
    the entries of the score map, none left out, in descending order of
    value, the order in which [getTopCategories] ranks them; each bar has
    the label the label function gives its key. *)
Theorem formatScoresForBars_ranked (scores : CategoryScores) (labelFn : string -> string) :
  no_NaN scores ->
  let bars := formatScoresForBars scores labelFn in
  map (fun b => (bar_key b, bar_value b)) bars
  = getTopCategories scores (Some (Z.of_nat (List.length scores)))
  /\ Permutation scores (map (fun b => (bar_key b, bar_value b)) bars)
  /\ StronglySorted (fun a b => num_ltb (bar_value a) (bar_value b) = false) bars
  /\ Forall (fun b => bar_label b = labelFn (bar_key b)) bars.
Proof.
  intros Hn. cbv zeta.
  set (mk := fun e : string * number =>
               {| bar_key := fst e; bar_label := labelFn (fst e); bar_value := snd e |}).
  assert (H : formatScoresForBars scores labelFn = map mk (sort_by_score scores)).
  { unfold formatScoresForBars, sort_by_score. fold mk. clear Hn.
    induction scores as [|x rest IH]; simpl; auto.
    rewrite IH. apply insert_bar_entry. }
  assert (Hid : forall l : list (string * number),
             map (fun b => (bar_key b, bar_value b)) (map mk l) = l).
  { induction l as [|[k s] rest IH]; [reflexivity|].
    cbn [map]. rewrite IH. reflexivity. }
  rewrite H, Hid. split; [|split; [|split]].
  - unfold getTopCategories, slice_to.
    rewrite (Permutation_length (sort_by_score_perm scores)).
    destruct (Z.of_nat (List.length (sort_by_score scores)) <? 0) eqn:E;
      [apply Z.ltb_lt in E; lia|].
    now rewrite Z.min_id, Nat2Z.id, firstn_all.
  - apply sort_by_score_perm.
  - apply (sorted_map ranks_before); [|now apply sort_by_score_sorted].
    intros x y Hxy. exact Hxy.
  - apply Forall_forall. intros b Hb. apply in_map_iff in Hb.
    destruct Hb as [e [<- _]]. reflexivity.
Qed.

Lemma pushGrouped_lookup (contrib : AnswerContribution) (c : string)
    (cats : list ScoreContribution) (grouped : list (string * list AnswerContribution))
    (l : list AnswerContribution) :
  lookup c grouped = present l ->
  lookup c (fold_left (pushGrouped contrib) cats grouped)
  = present (l ++ map (fun _ => contrib)
                    (filter (fun sc => String.eqb (category sc) c) cats)).
Proof.
  revert grouped l. induction cats as [|sc cats IH]; intros grouped l Hl; simpl.
  - now rewrite app_nil_r.
  - destruct (String.eqb (category sc) c) eqn:E.
    + apply String.eqb_eq in E. simpl.
      replace (l ++ contrib :: map (fun _ => contrib)
                      (filter (fun sc0 => String.eqb (category sc0) c) cats))
        with ((l ++ [contrib]) ++ map (fun _ => contrib)
                      (filter (fun sc0 => String.eqb (category sc0) c) cats))
        by (now rewrite <- app_assoc).
      apply IH. unfold pushGrouped. rewrite E, Hl.
      destruct l as [|x l']; simpl; rewrite lookup_assign_same; reflexivity.
    + apply IH. rewrite <- Hl. unfold pushGrouped.
      assert (Hne : category sc <> c).
      { intros Heq. rewrite Heq, String.eqb_refl in E. discriminate. }
      destruct (lookup (category sc) grouped); now apply lookup_assign_other.
Qed.

(** X18.  In the grouping, a category has an entry exactly when some
    contribution names it, and the entry lists the contributions that name
    it, in the order given, once for each time the contribution names it. *)
Theorem groupContributionsByCategory_lookup (contribs : list AnswerContribution)
    (c : string) :
  lookup c (groupContributionsByCategory contribs) = present (contributionsTo c contribs).
Proof.
  unfold groupContributionsByCategory.
  assert (H : forall grouped l,
             lookup c grouped = present l ->
             lookup c (fold_left
                         (fun grouped contrib =>
                            fold_left (pushGrouped contrib) (ac_categories contrib) grouped)
                         contribs grouped)
             = present (l ++ contributionsTo c contribs)).
  { induction contribs as [|contrib rest IH]; intros grouped l Hl; simpl.
    - now rewrite app_nil_r.
    - rewrite app_assoc. apply IH. now apply pushGrouped_lookup. }
  apply (H [] []). reflexivity.
Qed.

(** X19.  For a map of scores that are doubles the spread is the double
    nearest to the difference between the highest and the lowest score; it
    is 0 or more, and no two scores have a computed difference above it.
    The spread of an empty map is 0. *)
Theorem calculateSpread_greatest_difference (scores : CategoryScores) (qs : list Q) :
  map snd scores = map Fin qs ->
  Forall double qs ->
  (qs = [] -> calculateSpread scores = zero)
  /\ (qs <> [] ->
      exists hi lo,
        In hi qs /\ In lo qs
        /\ (forall x, In x qs -> (lo <= x <= hi)%Q)
        /\ calculateSpread scores = round_double (hi - lo))
  /\ num_leb zero (calculateSpread scores) = true
  /\ (forall x y, In x qs -> In y qs ->
                  num_leb (round_double (x - y)) (calculateSpread scores) = true).
Proof.
  intros Hq Hd. unfold calculateSpread. rewrite Hq.
  destruct qs as [|q rest].
  - cbn [map List.length Nat.eqb].
    split; [reflexivity|]. split; [congruence|]. split; [reflexivity | intros x y []].
  - change (Nat.eqb (List.length (map Fin (q :: rest))) 0) with false. cbv iota.
    unfold Math_max, Math_min. cbn [map fold_left].
    change (num_max NegInf (Fin q)) with (Fin q).
    change (num_min PosInf (Fin q)) with (Fin q).
    destruct (fold_max_finite rest q) as [M [HM [HMin [HMle HMall]]]].
    destruct (fold_min_finite rest q) as [m [Hm [Hmin [Hmle Hmall]]]].
    rewrite HM, Hm.
    assert (HinM : In M (q :: rest)).
    { destruct HMin as [-> | HMin]; [now left | now right]. }
    assert (Hinm : In m (q :: rest)).
    { destruct Hmin as [-> | Hmin]; [now left | now right]. }
    assert (Hup : forall x, In x (q :: rest) -> (x <= M)%Q).
    { intros x [<- | Hx]; auto. }
    assert (Hlow : forall x, In x (q :: rest) -> (m <= x)%Q).
    { intros x [<- | Hx]; auto. }
    rewrite Forall_forall in Hd.
    assert (E : dsub (fl (Fin M)) (fl (Fin m)) = round_double (M - m)).
    { cbn [fl]. rewrite (Hd M HinM), (Hd m Hinm). unfold dsub. cbn [num_sub fl].
      apply round_double_comp, Qred_correct. }
    rewrite E. split; [discriminate|]. split; [|split].
    + intros _. exists M, m. repeat split; auto.
    + change zero with (round_double 0). apply round_double_mono.
      specialize (Hup m Hinm). lra.
    + intros x y Hx Hy. apply round_double_mono.
      specialize (Hup x Hx). specialize (Hlow y Hy). lra.
Qed.

(** The size of a computed difference does not depend on the order of its
    operands. *)
Lemma abs_dsub_sym (a b t : number) :
  num_leb (Math_abs (dsub a b)) t = num_leb (Math_abs (dsub b a)) t.
Proof.
  unfold dsub. destruct a as [| |x|], b as [| |y|]; try reflexivity.
  cbn [num_sub fl].
  assert (Hc : round_double (Qred (y - x)) = round_double (- Qred (x - y))).
  { apply round_double_comp. rewrite !Qred_correct. ring. }
  rewrite Hc. pose proof (round_double_opp (Qred (x - y))) as Ho.
  destruct (round_double (Qred (x - y))) as [| |v|]; [contradiction | | |].
  - now rewrite Ho.
  - destruct Ho as [w [-> Hw]]. cbn [Math_abs].
    destruct t as [| |t|]; try reflexivity. cbn [num_leb].
    assert (Ha : (Qabs w == Qabs v)%Q) by (rewrite Hw; apply Qabs_opp).
    destruct (Qle_bool (Qabs v) t) eqn:E1, (Qle_bool (Qabs w) t) eqn:E2; auto.
    + apply Qle_bool_iff in E1. apply Qle_bool_false in E2. lra.
    + apply Qle_bool_iff in E2. apply Qle_bool_false in E1. lra.
  - now rewrite Ho.
Qed.

(** X20.  The tie test does not depend on the order of the two scores.  On
    doubles it compares the size of the double nearest to their difference
    with the threshold, so two scores whose difference is within the
    threshold are tied.  Two infinite scores of the same sign are never
    tied. *)
Theorem scoresAreTied_spec (score1 score2 : number) (threshold : option number) :
  scoresAreTied score1 score2 threshold = scoresAreTied score2 score1 threshold
  /\ (forall x y t,
         score1 = Fin x -> score2 = Fin y -> threshold = Some (Fin t) ->
         double x -> double y -> double t ->
         scoresAreTied score1 score2 threshold
         = num_leb (Math_abs (round_double (x - y))) (Fin t)
         /\ ((- t <= x - y <= t)%Q -> scoresAreTied score1 score2 threshold = true))
  /\ scoresAreTied PosInf PosInf threshold = false
  /\ scoresAreTied NegInf NegInf threshold = false.
Proof.
  split; [|split; [|split; reflexivity]].
  - unfold scoresAreTied. apply abs_dsub_sym.
  - intros x y t -> -> -> Hx Hy Ht. unfold scoresAreTied. cbn [fl].
    rewrite Hx, Hy, Ht. unfold dsub. cbn [num_sub fl].
    rewrite (round_double_comp _ _ (Qred_correct (x - y))).
    split; [reflexivity|]. intros [Hlo Hhi].
    pose proof (round_double_mono _ _ Hhi) as H1. rewrite Ht in H1.
    pose proof (round_double_mono (- t) (x - y) Hlo) as H2.
    pose proof (round_double_opp t) as Ho. rewrite Ht in Ho.
    destruct Ho as [w [Ew Hw]]. rewrite Ew in H2.
    destruct (fin_between _ _ _ H2 H1) as [d [-> Hd]].
    cbn [Math_abs num_leb]. apply Qle_bool_iff. apply Qabs_Qle_condition. lra.
Qed.

Lemma assign_fresh {A : Type} (k : string) (v : A) (obj : list (string * A)) :
  ~ In k (map fst obj) -> assign k v obj = obj ++ [(k, v)].
Proof.
  induction obj as [|[k' w] rest IH]; simpl; intros H; auto.
  destruct (String.eqb k' k) eqn:E.
  - apply String.eqb_eq in E. subst. exfalso. auto.
  - rewrite IH; auto.
Qed.

(** X21.  [normalizeScores] keeps the categories of the score map and their
    order, and replaces each score by its percentage of the category's
    maximum, which is 10 when the maxima have no entry, or a zero or [NaN]
    entry, for the category. *)
Theorem normalizeScores_entries (scores : CategoryScores)
    (maxScores : list (string * number)) :
  NoDup (map fst scores) ->
  normalizeScores scores maxScores
  = map (fun e => (fst e, calculatePercentage (snd e) (max_or_ten maxScores (fst e)))) scores.
Proof.
  unfold normalizeScores.
  set (f := fun e : string * number =>
              (fst e, calculatePercentage (snd e) (max_or_ten maxScores (fst e)))).
  assert (H : forall acc : CategoryScores,
             NoDup (map fst scores) ->
             (forall k, In k (map fst scores) -> ~ In k (map fst acc)) ->
             fold_left
               (fun normalized e =>
                  assign (fst e)
                    (calculatePercentage (snd e) (max_or_ten maxScores (fst e))) normalized)
               scores acc
             = acc ++ map f scores).
  { induction scores as [|e rest IH]; intros acc Hnd Hacc; simpl.
    - now rewrite app_nil_r.
    - inversion Hnd as [|? ? Hnotin Hnd']; subst.
      rewrite assign_fresh by (apply Hacc; now left).
      rewrite IH; auto.
      + now rewrite <- app_assoc.
      + intros k Hk. rewrite map_app, in_app_iff. simpl.
        intros [Hin | [<- | []]].
        * apply (Hacc k); auto. now right.
        * contradiction.
  }
  intros Hnd. apply (H [] Hnd). intros k _ [].
Qed.

(* ------------------------------------------------------------------------- *)
(** ** Engine: answers and navigation *)

Section NavigationProperties.

Context {host : Host}.

(** X22.  A value that passes validation is stored under the current
    question's id, as [updateAnswer] would store it: [getAnswer] returns it,
    the other answers and the cursor are as before, the snapshot saved when
    answers are persisted holds the new state, and a timer is armed when the
    automatic advance is on. *)
Theorem submitAnswer_valid_stores_answer (clock : nat -> Date) (v : value) (e : Engine)
    (question : Question) (validation : ValidationResult) :
  getCurrentQuestion e = Some question ->
  validateAnswer question v = Ok validation ->
  isValid validation = true ->
  let e' := snd (submitAnswer clock v e) in
  fst (submitAnswer clock v e) = Ok {| isValid := true; errors := [] |}
  /\ state e' = updateAnswer (clock 0%nat) (state e) (id question) v
  /\ getAnswer e' (id question)
     = Some {| ans_questionId := id question; ans_value := v;
               ans_timestamp := clock 0%nat |}
  /\ (forall qid, qid <> id question -> getAnswer e' qid = getAnswer e qid)
  /\ getCurrentQuestion e' = Some question
  /\ (flag (persistAnswers (config e)) = true ->
      In (Stored (storageKey (config e))
            {| snap_state := state e'; snap_questionOrder := questionOrder e;
               savedAt := clock 2%nat |})
         (effects e'))
  /\ (flag (autoAdvance (config e)) = true ->
      In (Scheduled (autoAdvanceDelay (config e))) (effects e')).
Proof.
  intros Hq Hv Hvalid. cbv zeta. unfold submitAnswer. rewrite Hq, Hv, Hvalid.
  cbn [negb]. destruct e as [qz cfg st ord fx].
  destruct cfg as [aa aad dm pa sk wh].
  destruct pa as [[|]|], aa as [[|]|];
    cbn [fst snd flag emit perform saveProgress with_state config state effects quiz
           questionOrder persistAnswers autoAdvance debugMode storageKey
           autoAdvanceDelay getAnswer storeAnswer answers];
    (split; [reflexivity|]); (split; [reflexivity|]);
    (split; [apply lookup_assign_same|]);
    (split; [intros qid Hne; apply lookup_assign_other; congruence|]);
    (split; [exact Hq|]);
    split; intros H; try discriminate H;
    rewrite !in_app_iff; simpl; auto.
Qed.

Lemma getQuestion_same (e e' : Engine) (i : Z) :
  quiz e' = quiz e -> questionOrder e' = questionOrder e ->
  getQuestion e' i = getQuestion e i.
Proof. unfold getQuestion. now intros -> ->. Qed.

(** The two outcomes of [next()]. *)
Lemma next_cases (clock : nat -> Date) (e : Engine) :
  let cur := currentQuestionIndex (state e) in
  let found := scanForward e (Z.to_nat (questionCount e - (cur + 1))) (cur + 1) in
  (next clock e = (false, e)
   /\ (getCurrentQuestion e = None \/ questionCount e <= found))
  \/ (getCurrentQuestion e <> None
      /\ found < questionCount e
      /\ fst (next clock e) = true
      /\ state (snd (next clock e)) = moveTo found (state e)
      /\ quiz (snd (next clock e)) = quiz e
      /\ questionOrder (snd (next clock e)) = questionOrder e
      /\ exists fx, effects (snd (next clock e)) = effects e ++ fx).
Proof.
  cbv zeta. unfold next. fold (questionCount e).
  destruct (getCurrentQuestion e) as [cq|]; [|left; auto].
  set (found := scanForward e _ _).
  destruct (found >=? questionCount e) eqn:Hge.
  - left. split; auto. right. rewrite Z.geb_leb in Hge. now apply Z.leb_le.
  - right. rewrite Z.geb_leb in Hge. apply Z.leb_gt in Hge.
    split; [discriminate|]. split; [exact Hge|].
    destruct (flag (persistAnswers (config e))) eqn:Hp;
      cbn [emit perform saveProgress with_state config state effects quiz questionOrder];
      rewrite ?Hp;
      cbn [emit perform saveProgress with_state config state effects quiz questionOrder
             fst snd];
      repeat (split; [reflexivity|]); eexists; rewrite <- ?app_assoc; reflexivity.
Qed.

(** X23.  [next()] succeeds exactly when there is a current question and a
    visible question after it; it then moves the cursor to the first such
    question, skipping only hidden or missing ones, and keeps the answers.
    When it fails the engine is as before. *)
Theorem next_moves_to_first_visible (clock : nat -> Date) (e : Engine) :
  let cur := currentQuestionIndex (state e) in
  let e' := snd (next clock e) in
  let i := currentQuestionIndex (state e') in
  (fst (next clock e) = true <->
   getCurrentQuestion e <> None
   /\ exists j q, cur < j < questionCount e
                  /\ getQuestion e j = Some q /\ is_visible q (state e) = true)
  /\ (fst (next clock e) = true ->
      cur < i < questionCount e
      /\ (exists q, getCurrentQuestion e' = Some q /\ is_visible q (state e') = true)
      /\ (forall j q, cur < j < i ->
                      getQuestion e j = Some q -> is_visible q (state e) = false)
      /\ answers (state e') = answers (state e))
  /\ (fst (next clock e) = false -> e' = e).
Proof.
  cbv zeta.
  pose proof (scanForward_spec e
                (Z.to_nat (questionCount e - (currentQuestionIndex (state e) + 1)))
                (currentQuestionIndex (state e) + 1)) as Hscan.
  cbv zeta in Hscan.
  destruct Hscan as [H1 [H2 H3]]; [lia|].
  destruct (next_cases clock e) as [[Hn Hwhy] | [Hcur [Hlt [Hfst [Hst [Hquiz [Hord _]]]]]]].
  - rewrite Hn. cbn [fst snd]. split; [|split; [discriminate | reflexivity]].
    split; [discriminate|]. intros [Hcur [j [q [Hj [Hq Hvis]]]]].
    destruct Hwhy as [Hnone | Hge]; [contradiction|].
    assert (Hj' : currentQuestionIndex (state e) + 1 <= j
                  < scanForward e
                      (Z.to_nat (questionCount e - (currentQuestionIndex (state e) + 1)))
                      (currentQuestionIndex (state e) + 1)) by lia.
    rewrite (H2 j q Hj' Hq) in Hvis. discriminate.
  - destruct H3 as [Hge | [q [Hq Hvis]]]; [lia|].
    rewrite Hfst, Hst. cbn [moveTo currentQuestionIndex answers].
    split; [|split; [|discriminate]].
    + split; auto. intros _. split; auto. eexists _, q. split; [|split; eauto]. lia.
    + intros _. split; [lia|]. split; [|split; [|reflexivity]].
      * exists q. split; [|exact Hvis].
        unfold getCurrentQuestion. rewrite Hst. cbn [moveTo currentQuestionIndex].
        rewrite (getQuestion_same e _ _ Hquiz Hord). exact Hq.
      * intros j q' Hj. apply H2. lia.
Qed.

(** What the loop of [previous()] computes, given fuel for every position
    down to 0. *)
Lemma scanBackward_spec (e : Engine) (fuel : nat) (i : Z) :
  i + 1 <= Z.of_nat fuel ->
  let r := scanBackward e fuel i in
  r <= i
  /\ (forall j q, r < j <= i -> getQuestion e j = Some q -> is_visible q (state e) = false)
  /\ (r < 0 \/ exists q, getQuestion e r = Some q /\ is_visible q (state e) = true).
Proof.
  revert i. induction fuel as [|fuel IH]; intros i Hfuel; simpl.
  - split; [lia | split; [intros; lia | left; lia]].
  - destruct (i >=? 0) eqn:Hge.
    + rewrite Z.geb_leb in Hge. apply Z.leb_le in Hge.
      assert (Hrec : i - 1 + 1 <= Z.of_nat fuel) by lia.
      specialize (IH (i - 1) Hrec). simpl in IH. destruct IH as [IH1 [IH2 IH3]].
      destruct (getQuestion e i) as [question|] eqn:Hq.
      * destruct (is_visible question (state e)) eqn:Hvis.
        -- split; [lia | split; [intros; lia | right; eauto]].
        -- split; [lia | split; [|exact IH3]].
           intros j q Hj Hqj. destruct (Z.eq_dec j i) as [->|Hne].
           ++ congruence.
           ++ apply (IH2 j q); auto. lia.
      * split; [lia | split; [|exact IH3]].
        intros j q Hj Hqj. destruct (Z.eq_dec j i) as [->|Hne].
        -- congruence.
        -- apply (IH2 j q); auto. lia.
    + rewrite Z.geb_leb in Hge. apply Z.leb_gt in Hge.
      split; [lia | split; [intros; lia | left; lia]].
Qed.

(** The two outcomes of [previous()]. *)
Lemma previous_cases (clock : nat -> Date) (e : Engine) :
  let cur := currentQuestionIndex (state e) in
  let found := scanBackward e (Z.to_nat cur) (cur - 1) in
  (previous clock e = (false, e)
   /\ (backAllowed e = false \/ cur <= 0 \/ found < 0))
  \/ (backAllowed e = true
      /\ 0 < cur
      /\ 0 <= found
      /\ fst (previous clock e) = true
      /\ state (snd (previous clock e)) = moveTo found (state e)
      /\ quiz (snd (previous clock e)) = quiz e
      /\ questionOrder (snd (previous clock e)) = questionOrder e).
Proof.
  cbv zeta. unfold previous.
  destruct (backAllowed e); [|left; auto]. cbn [negb].
  destruct (currentQuestionIndex (state e) <=? 0) eqn:Hle.
  - left. apply Z.leb_le in Hle. auto.
  - apply Z.leb_gt in Hle.
    replace (currentQuestionIndex (state e) - 1 + 1) with (currentQuestionIndex (state e))
      by lia.
    set (found := scanBackward e _ _).
    destruct (found <? 0) eqn:Hneg.
    + left. apply Z.ltb_lt in Hneg. auto.
    + right. apply Z.ltb_ge in Hneg.
      split; [reflexivity|]. split; [exact Hle|]. split; [exact Hneg|].
      destruct (flag (persistAnswers (config e))) eqn:Hp;
        cbn [emit perform saveProgress with_state config state effects quiz questionOrder];
        rewrite ?Hp;
        cbn [emit perform saveProgress with_state config state effects quiz questionOrder
               fst snd];
        repeat split; reflexivity.
Qed.

(** X24.  [previous()] succeeds exactly when back navigation is allowed and
    a visible question lies before the cursor; it then moves the cursor to
    the nearest such question, passing only hidden or missing ones, and keeps the
    answers.  When it fails the engine is as before. *)
Theorem previous_moves_to_nearest_visible (clock : nat -> Date) (e : Engine) :
  let cur := currentQuestionIndex (state e) in
  let e' := snd (previous clock e) in
  let i := currentQuestionIndex (state e') in
  (fst (previous clock e) = true <->
   backAllowed e = true
   /\ exists j q, 0 <= j < cur /\ getQuestion e j = Some q /\ is_visible q (state e) = true)
  /\ (fst (previous clock e) = true ->
      0 <= i < cur
      /\ (exists q, getCurrentQuestion e' = Some q /\ is_visible q (state e') = true)
      /\ (forall j q, i < j < cur ->
                      getQuestion e j = Some q -> is_visible q (state e) = false)
      /\ answers (state e') = answers (state e))
  /\ (fst (previous clock e) = false -> e' = e).
Proof.
  cbv zeta.
  destruct (previous_cases clock e)
    as [[Hn Hwhy] | [Hback [Hpos [Hfound [Hfst [Hst [Hquiz Hord]]]]]]].
  - rewrite Hn. cbn [fst snd]. split; [|split; [discriminate | reflexivity]].
    split; [discriminate|]. intros [Hback [j [q [Hj [Hq Hvis]]]]].
    destruct Hwhy as [Hno | [Hle | Hneg]]; [congruence | lia |].
    pose proof (scanBackward_spec e (Z.to_nat (currentQuestionIndex (state e)))
                  (currentQuestionIndex (state e) - 1)) as Hscan.
    cbv zeta in Hscan. destruct Hscan as [_ [H2 _]]; [lia|].
    rewrite (H2 j q) in Hvis; [discriminate | lia | exact Hq].
  - pose proof (scanBackward_spec e (Z.to_nat (currentQuestionIndex (state e)))
                  (currentQuestionIndex (state e) - 1)) as Hscan.
    cbv zeta in Hscan. destruct Hscan as [H1 [H2 H3]]; [lia|].
    destruct H3 as [Hneg | [q [Hq Hvis]]]; [lia|].
    rewrite Hfst, Hst. cbn [moveTo currentQuestionIndex answers].
    split; [|split; [|discriminate]].
    + split; auto. intros _. split; auto. eexists _, q. split; [|split; eauto]. lia.
    + intros _. split; [lia|]. split; [|split; [|reflexivity]].
      * exists q. split; [|exact Hvis].
        unfold getCurrentQuestion. rewrite Hst. cbn [moveTo currentQuestionIndex].
        rewrite (getQuestion_same e _ _ Hquiz Hord). exact Hq.
      * intros j q' Hj. apply H2. lia.
Qed.

Lemma getCurrentQuestion_nonneg (e : Engine) (q : Question) :
  getCurrentQuestion e = Some q -> 0 <= currentQuestionIndex (state e).
Proof.
  unfold getCurrentQuestion, getQuestion, index.
  destruct (currentQuestionIndex (state e) <? 0) eqn:E; [discriminate|].
  intros _. now apply Z.ltb_ge in E.
Qed.

Lemma moveTo_back (s : QuizState) (i : Z) :
  moveTo (currentQuestionIndex s) (moveTo i s) = s.
Proof. now destruct s. Qed.

(** X25.  With back navigation allowed and the cursor on a visible question,
    a successful [next()] is undone by [previous()]: it succeeds and the
    state, cursor included, is the one before [next()]. *)
Theorem next_then_previous (clock clock' : nat -> Date) (e : Engine) (q : Question) :
  backAllowed e = true ->
  getCurrentQuestion e = Some q ->
  is_visible q (state e) = true ->
  fst (next clock e) = true ->
  fst (previous clock' (snd (next clock e))) = true
  /\ state (snd (previous clock' (snd (next clock e)))) = state e.
Proof.
  intros Hback Hq Hvis Hnext.
  pose proof (getCurrentQuestion_nonneg e q Hq) as Hcur.
  pose proof (scanForward_spec e
                (Z.to_nat (questionCount e - (currentQuestionIndex (state e) + 1)))
                (currentQuestionIndex (state e) + 1)) as Hscan.
  cbv zeta in Hscan. destruct Hscan as [F1 [F2 _]]; [lia|].
  destruct (next_cases clock e) as [[Hn _] | [_ [Hlt [_ [Hst [Hquiz [Hord _]]]]]]].
  { rewrite Hn in Hnext. discriminate. }
  set (e1 := snd (next clock e)) in *.
  set (found := scanForward e _ _) in *.
  assert (Hq1 : forall j, getQuestion e1 j = getQuestion e j).
  { intros j. now apply getQuestion_same. }
  assert (Hv1 : forall x, is_visible x (state e1) = is_visible x (state e)).
  { intros x. rewrite Hst. reflexivity. }
  assert (Hc1 : currentQuestionIndex (state e1) = found) by now rewrite Hst.
  pose proof (scanBackward_spec e1 (Z.to_nat (currentQuestionIndex (state e1)))
                (currentQuestionIndex (state e1) - 1)) as Hscan.
  cbv zeta in Hscan. destruct Hscan as [B1 [B2 B3]]; [lia|].
  assert (Hr : scanBackward e1 (Z.to_nat (currentQuestionIndex (state e1)))
                 (currentQuestionIndex (state e1) - 1)
               = currentQuestionIndex (state e)).
  { set (r := scanBackward e1 _ _) in *.
    assert (Hge : currentQuestionIndex (state e) <= r).
    { destruct (Z_le_gt_dec (currentQuestionIndex (state e)) r) as [|Hgt]; auto.
      assert (Hhid : is_visible q (state e1) = false).
      { apply (B2 (currentQuestionIndex (state e)) q); [lia|].
        rewrite Hq1. exact Hq. }
      rewrite Hv1 in Hhid. congruence. }
    destruct B3 as [Hneg | [q' [Hq' Hvis']]]; [lia|].
    destruct (Z.eq_dec r (currentQuestionIndex (state e))) as [|Hne]; auto.
    rewrite Hq1 in Hq'. rewrite Hv1 in Hvis'.
    rewrite (F2 r q') in Hvis'; [discriminate | lia | exact Hq']. }
  destruct (previous_cases clock' e1)
    as [[_ Hwhy] | [_ [_ [_ [Hfst [Hst' _]]]]]].
  - exfalso. destruct Hwhy as [Hno | [Hle | Hneg]].
    + unfold backAllowed in Hno, Hback. rewrite Hquiz in Hno. congruence.
    + lia.
    + rewrite Hr in Hneg. lia.
  - split; [exact Hfst|]. rewrite Hst', Hr, Hst. apply moveTo_back.
Qed.

(** X26.  [goToQuestion] succeeds exactly for a position of the quiz whose
    question exists and is visible; it then puts the cursor there, keeps the
    answers and, unlike [next()] and [previous()], saves no snapshot.  When
    it fails the engine is as before. *)
Theorem goToQuestion_spec (clock : nat -> Date) (i : Z) (e : Engine) :
  let e' := snd (goToQuestion clock i e) in
  (fst (goToQuestion clock i e) = true <->
   0 <= i < questionCount e
   /\ exists q, getQuestion e i = Some q /\ is_visible q (state e) = true)
  /\ (fst (goToQuestion clock i e) = true ->
      currentQuestionIndex (state e') = i
      /\ answers (state e') = answers (state e)
      /\ forall key snap, In (Stored key snap) (effects e') ->
                          In (Stored key snap) (effects e))
  /\ (fst (goToQuestion clock i e) = false -> e' = e).
Proof.
  cbv zeta. unfold goToQuestion. fold (questionCount e).
  destruct (i <? 0) eqn:Hneg; cbn [orb].
  { apply Z.ltb_lt in Hneg. cbn [fst snd].
    split; [|split; [discriminate | reflexivity]].
    split; [discriminate | intros [? _]; lia]. }
  apply Z.ltb_ge in Hneg.
  destruct (i >=? questionCount e) eqn:Hge.
  { rewrite Z.geb_leb in Hge. apply Z.leb_le in Hge. cbn [fst snd].
    split; [|split; [discriminate | reflexivity]].
    split; [discriminate | intros [? _]; lia]. }
  rewrite Z.geb_leb in Hge. apply Z.leb_gt in Hge.
  destruct (getQuestion e i) as [question|] eqn:Hq.
  - destruct (is_visible question (state e)) eqn:Hvis; cbn [negb fst snd].
    + split; [|split; [|discriminate]].
      * split; auto. intros _. split; [lia | eauto].
      * intros _. split; [reflexivity|]. split; [reflexivity|].
        intros key snap. cbn [emit perform with_state effects config].
        rewrite in_app_iff. intros [H | H]; auto.
        destruct (flag (debugMode (config e))); simpl in H;
          intuition discriminate.
    + split; [|split; [discriminate | reflexivity]].
      split; [discriminate|]. intros [_ [q' [[= <-] Hvis']]]. congruence.
  - cbn [fst snd]. split; [|split; [discriminate | reflexivity]].
    split; [discriminate|]. intros [_ [q' [Hq' _]]]. discriminate.
Qed.

Lemma scanForward_perform (e : Engine) (fx : list Effect) (fuel : nat) (i : Z) :
  scanForward (perform e fx) fuel i = scanForward e fuel i.
Proof.
  revert i. induction fuel as [|fuel IH]; intros i; [reflexivity|].
  cbn [scanForward]. rewrite IH. reflexivity.
Qed.

(** [next()] does not depend on what the engine has emitted so far. *)
Lemma next_perform (c c' : nat -> Date) (e : Engine) (fx : list Effect) :
  fst (next c (perform e fx)) = fst (next c' e)
  /\ state (snd (next c (perform e fx))) = state (snd (next c' e))
  /\ exists fx', effects (snd (next c (perform e fx))) = effects e ++ fx ++ fx'.
Proof.
  pose proof (next_cases c (perform e fx)) as H1.
  pose proof (next_cases c' e) as H2. cbv zeta in H1, H2.
  change (questionCount (perform e fx)) with (questionCount e) in H1.
  change (state (perform e fx)) with (state e) in H1.
  change (getCurrentQuestion (perform e fx)) with (getCurrentQuestion e) in H1.
  rewrite scanForward_perform in H1.
  destruct H1 as [[Hn1 Hw1] | [Hc1 [Hlt1 [Hf1 [Hs1 [_ [_ [fx1 Hfx1]]]]]]]],
           H2 as [[Hn2 Hw2] | [Hc2 [Hlt2 [Hf2 [Hs2 _]]]]].
  - rewrite Hn1, Hn2. cbn [fst snd perform state effects].
    split; [reflexivity|]. split; [reflexivity|]. exists []. now rewrite app_nil_r.
  - exfalso. destruct Hw1 as [Hnone | Hge]; [contradiction | lia].
  - exfalso. destruct Hw2 as [Hnone | Hge]; [contradiction | lia].
  - rewrite Hf1, Hf2, Hs1, Hs2. split; [reflexivity|]. split; [reflexivity|].
    exists fx1. rewrite Hfx1. cbn [perform effects]. now rewrite app_assoc.
Qed.

(** X27.  [skip()] refuses a required question and leaves the engine as it
    was.  On an optional question it makes the move [next()] would make,
    with the same outcome, records no answer, and emits the skipped event
    whether or not there was a question to move to. *)
Theorem skip_spec (clock : nat -> Date) (e : Engine) (question : Question) :
  getCurrentQuestion e = Some question ->
  let e' := snd (skip clock e) in
  (is_required question = true -> skip clock e = (false, e))
  /\ (is_required question = false ->
      fst (skip clock e) = fst (next clock e)
      /\ state e' = state (snd (next clock e))
      /\ answers (state e') = answers (state e)
      /\ In (Emitted {| ev_type := quiz_question_skipped;
                        ev_quizId := quiz_id (quiz e);
                        ev_timestamp := clock 0%nat;
                        ev_data :=
                          [("questionId"%string, VStr (id question));
                           ("questionIndex"%string,
                            VNum (num_of_Z (currentQuestionIndex (state e))))] |})
            (effects e')).
Proof.
  intros Hq. cbv zeta. unfold skip. rewrite Hq.
  destruct (is_required question); (split; [intros H; try discriminate H; reflexivity|]);
    intros H; try discriminate H.
  unfold emit.
  set (fx := Emitted _ :: _).
  destruct (next_perform (fun k => clock (S k)) clock e fx) as [Hf [Hs [fx' Hfx]]].
  split; [exact Hf|]. split; [exact Hs|]. split.
  - rewrite Hs. destruct (next_cases clock e) as [[Hn _] | [_ [_ [_ [Hst _]]]]].
    + now rewrite Hn.
    + now rewrite Hst.
  - rewrite Hfx, !in_app_iff. right. left. subst fx. now left.
Qed.

Lemma lookup_not_in {A : Type} (k : string) (obj : list (string * A)) :
  ~ In k (map fst obj) -> lookup k obj = None.
Proof.
  induction obj as [|[k' v] rest IH]; simpl; intros H; auto.
  destruct (String.eqb k' k) eqn:E.
  - apply String.eqb_eq in E. subst. exfalso. auto.
  - apply IH. auto.
Qed.

(** [{ ...base, ...extra }]: the properties of [extra] win. *)
Lemma spread_lookup {A : Type} (base extra : list (string * A)) (k : string) :
  NoDup (map fst extra) ->
  lookup k (spread base extra)
  = match lookup k extra with Some v => Some v | None => lookup k base end.
Proof.
  unfold spread. revert base.
  induction extra as [|[k0 v0] rest IH]; intros base Hnd; simpl; auto.
  inversion Hnd as [|? ? Hnotin Hnd']; subst.
  rewrite (IH _ Hnd').
  destruct (String.eqb k0 k) eqn:E.
  - apply String.eqb_eq in E. subst k0.
    rewrite (lookup_not_in k rest Hnotin). apply lookup_assign_same.
  - assert (Hne : k0 <> k).
    { intros Heq. rewrite Heq, String.eqb_refl in E. discriminate. }
    now rewrite (lookup_assign_other k0 k v0 base Hne).
Qed.

(** X28.  [setMetadata] merges the given properties into the metadata: a key
    it gives has the given value afterwards, every other key keeps its old
    value.  Answers and cursor are untouched, and the merged state is saved
    when answers are persisted. *)
Theorem setMetadata_merges (clock : nat -> Date) (partial : QuizMetadata) (e : Engine)
    (k : string) :
  NoDup (map fst partial) ->
  let e' := setMetadata clock partial e in
  let old := match metadata (state e) with Some m => m | None => [] end in
  (exists m, metadata (state e') = Some m
             /\ lookup k m = match lookup k partial with
                             | Some v => Some v
                             | None => lookup k old
                             end)
  /\ answers (state e') = answers (state e)
  /\ currentQuestionIndex (state e') = currentQuestionIndex (state e)
  /\ (flag (persistAnswers (config e)) = true ->
      In (Stored (storageKey (config e))
            {| snap_state := state e'; snap_questionOrder := questionOrder e;
               savedAt := clock 0%nat |})
         (effects e')).
Proof.
  intros Hnd. cbv zeta. unfold setMetadata.
  cbn [with_state config].
  destruct (flag (persistAnswers (config e))) eqn:Hp;
    cbn [saveProgress perform with_state state withMetadata metadata answers
           currentQuestionIndex effects config questionOrder];
    (split; [eexists; split; [reflexivity | now apply spread_lookup]|]);
    (split; [reflexivity|]); (split; [reflexivity|]); intros H; try discriminate H.
  rewrite in_app_iff. right. now left.
Qed.

(** X29.  [start()] replaces the state by a fresh one: no answers, cursor at
    the first position, empty metadata; the question order is kept.  The
    progress is then 0, or 100 when no question is visible, and the quiz is
    complete only if no visible question is required. *)
Theorem start_resets (clock : nat -> Date) (e : Engine) :
  let e' := start clock e in
  state e' = initializeState (quiz e) (clock 0%nat)
  /\ questionOrder e' = questionOrder e
  /\ (forall qid, getAnswer e' qid = None)
  /\ getProgress e'
     = (if Nat.eqb (List.length (getVisibleQuestions e')) 0 then num_of_Z 100
        else num_of_Z 0)
  /\ isComplete e'
     = forallb (fun q => negb (is_visible q (state e')) || negb (is_required q))
         (questions (quiz e)).
Proof.
  cbv zeta.
  assert (Hst : state (start clock e) = initializeState (quiz e) (clock 0%nat)).
  { unfold start. cbn [emit with_state perform config quiz].
    now destruct (flag (debugMode (config e))). }
  assert (Hquiz : quiz (start clock e) = quiz e).
  { unfold start. cbn [emit with_state perform config quiz].
    now destruct (flag (debugMode (config e))). }
  assert (Hord : questionOrder (start clock e) = questionOrder e).
  { unfold start. cbn [emit with_state perform config quiz].
    now destruct (flag (debugMode (config e))). }
  split; [exact Hst|]. split; [exact Hord|].
  split; [intros qid; unfold getAnswer; now rewrite Hst|].
  split.
  - unfold getProgress, getVisibleQuestions, calculateProgress. rewrite Hquiz, Hst.
    set (st := initializeState (quiz e) (clock 0%nat)).
    set (visible := visibleQuestions (questions (quiz e)) st).
    destruct (Nat.eqb (List.length visible) 0) eqn:E; [reflexivity|].
    rewrite (filter_none _ visible) by reflexivity.
    apply Nat.eqb_neq in E.
    destruct (percent_round_range 0 (inject_Z (Z.of_nat (List.length visible))))
      as [p [Hp [_ [_ Hzero]]]].
    + lra.
    + change 0%Q with (inject_Z 0). rewrite <- Zle_Qle. lia.
    + change 0%Q with (inject_Z 0). rewrite <- Zlt_Qlt. lia.
    + change (arr_length (@nil Question)) with (Fin 0).
      change (arr_length visible) with (Fin (inject_Z (Z.of_nat (List.length visible)))).
      rewrite Hp, Hzero; reflexivity.
  - unfold isComplete, isQuizComplete. rewrite Hquiz, Hst.
    induction (questions (quiz e)) as [|q rest IH]; [reflexivity|].
    cbn [forallb]. rewrite IH. reflexivity.
Qed.

End NavigationProperties.

(* ------------------------------------------------------------------------- *)
(** ** Engine: the order of the questions *)

Lemma replace_at_cons {A : Type} (i : nat) (x y : A) (l : list A) :
  replace_at (S i) x (y :: l) = y :: replace_at i x l.
Proof. reflexivity. Qed.

Lemma replace_at_perm {A : Type} (i : nat) (x a : A) (l : list A) :
  nth_error l i = Some a -> Permutation (a :: replace_at i x l) (x :: l).
Proof.
  revert i. induction l as [|y l IH]; intros i H.
  - destruct i; discriminate.
  - destruct i as [|i].
    + injection H as ->. apply perm_swap.
    + rewrite replace_at_cons. simpl in H.
      eapply perm_trans; [apply perm_swap|].
      eapply perm_trans; [apply perm_skip, (IH i H)|]. apply perm_swap.
Qed.

Lemma replace_at_nth {A : Type} (i j : nat) (x : A) (l : list A) :
  (i < List.length l)%nat ->
  nth_error (replace_at i x l) j = if Nat.eqb j i then Some x else nth_error l j.
Proof.
  revert i j. induction l as [|y l IH]; intros i j H; simpl in H; [lia|].
  destruct i as [|i].
  - destruct j; reflexivity.
  - rewrite replace_at_cons. destruct j as [|j]; [reflexivity|].
    simpl. apply IH. lia.
Qed.

Lemma swap_perm (order order' : list Z) (i j : nat) :
  swap order i j = Some order' -> Permutation order' order.
Proof.
  unfold swap.
  destruct (nth_error order i) as [a|] eqn:Hi; [|discriminate].
  destruct (nth_error order j) as [b|] eqn:Hj; [|discriminate].
  intros [= <-].
  change (Permutation (replace_at j a (replace_at i b order)) order).
  assert (Hlen : (i < List.length order)%nat).
  { apply nth_error_Some. congruence. }
  assert (Hj' : nth_error (replace_at i b order) j = Some b).
  { rewrite replace_at_nth by exact Hlen. now destruct (Nat.eqb j i). }
  apply (Permutation_cons_inv (a := b)).
  eapply perm_trans; [apply (replace_at_perm j a b _ Hj')|].
  apply (replace_at_perm i b a _ Hi).
Qed.

Lemma swap_in_range (order : list Z) (i j : nat) :
  (i < List.length order)%nat -> (j < List.length order)%nat ->
  exists order', swap order i j = Some order'.
Proof.
  intros Hi Hj. unfold swap.
  apply nth_error_Some in Hi, Hj.
  destruct (nth_error order i); [|congruence].
  destruct (nth_error order j); [|congruence]. eauto.
Qed.

(** [Math.floor(r * n)] for [r] in [[0, 1)] is an index below [n]. *)
Lemma floor_scaled_range (r : Q) (n : nat) :
  (0 <= r < 1)%Q -> (0 < n)%nat ->
  exists j, floor_index (num_mul (Fin r) (num_of_nat n)) = Some j /\ 0 <= j < Z.of_nat n.
Proof.
  intros [Hr0 Hr1] Hn. unfold num_of_nat, num_of_Z. cbn [num_mul floor_index].
  eexists. split; [reflexivity|].
  set (x := Qred (r * inject_Z (Z.of_nat n))).
  assert (Hn' : (0 < inject_Z (Z.of_nat n))%Q).
  { change 0%Q with (inject_Z 0). rewrite <- Zlt_Qlt. lia. }
  assert (Hx0 : (0 <= x)%Q).
  { subst x. rewrite Qred_correct. apply Qmult_le_0_compat; lra. }
  assert (Hx1 : (x < inject_Z (Z.of_nat n))%Q).
  { subst x. rewrite Qred_correct.
    setoid_replace (inject_Z (Z.of_nat n)) with (1 * inject_Z (Z.of_nat n))%Q at 2 by ring.
    apply Qmult_lt_compat_r; auto. }
  pose proof (Qfloor_le x) as Hlo. pose proof (Qlt_floor x) as Hhi.
  split.
  - assert (H : (inject_Z 0 < inject_Z (Qfloor x + 1))%Q).
    { change (inject_Z 0) with 0%Q. lra. }
    rewrite <- Zlt_Qlt in H. lia.
  - rewrite Zlt_Qlt. lra.
Qed.

Lemma shuffleFrom_perm (random : nat -> number) (i k : nat) (order : list Z) :
  (forall k, exists r, random k = Fin r /\ (0 <= r < 1)%Q) ->
  (i <= List.length order - 1)%nat ->
  exists order', shuffleFrom random i k order = Some order' /\ Permutation order' order.
Proof.
  intros Hrandom. revert k order.
  induction i as [|i IH]; intros k order Hi.
  - exists order. split; [reflexivity | apply Permutation_refl].
  - cbn [shuffleFrom]. destruct (Hrandom k) as [r [Hr Hrange]]. rewrite Hr.
    destruct (floor_scaled_range r (S i + 1) Hrange) as [j [Hj Hjrange]]; [lia|].
    rewrite Hj. destruct (j <? 0) eqn:Hneg; [apply Z.ltb_lt in Hneg; lia|].
    destruct (swap_in_range order (S i) (Z.to_nat j)) as [order1 Hswap]; [lia | lia |].
    rewrite Hswap. pose proof (swap_perm _ _ _ _ Hswap) as Hperm.
    destruct (IH (S k) order1) as [order' [Hs Hp]].
    + rewrite (Permutation_length Hperm). lia.
    + exists order'. split; [exact Hs|]. eapply perm_trans; eauto.
Qed.

(** X30.  When every value of [Math.random()] lies in [[0, 1)], the question
    order is a permutation of the positions [0 .. n-1] of the quiz: every
    question is reached once.  Without the randomize option it is the
    sequence [0 .. n-1] itself. *)
Theorem initializeQuestionOrder_permutation (random : nat -> number) (q : Quiz) :
  (forall k, exists r, random k = Fin r /\ (0 <= r < 1)%Q) ->
  exists order,
    initializeQuestionOrder random q = Some order
    /\ Permutation order (map Z.of_nat (seq 0 (List.length (questions q))))
    /\ (match quiz_options q with
        | Some opts => flag (randomizeQuestions opts)
        | None => false
        end = false ->
        order = map Z.of_nat (seq 0 (List.length (questions q)))).
Proof.
  intros Hrandom. unfold initializeQuestionOrder.
  set (order := map Z.of_nat (seq 0 (List.length (questions q)))).
  destruct (quiz_options q) as [opts|].
  - destruct (flag (randomizeQuestions opts)).
    + destruct (shuffleFrom_perm random (List.length order - 1) 0 order Hrandom)
        as [order' [Hs Hp]]; [lia|].
      exists order'. split; [exact Hs|]. split; [exact Hp | discriminate].
    + exists order. split; [reflexivity|]. split; [apply Permutation_refl | reflexivity].
  - exists order. split; [reflexivity|]. split; [apply Permutation_refl | reflexivity].
Qed.

(* ------------------------------------------------------------------------- *)
(** ** Further runs on concrete quizzes *)

Lemma validateAnswer_result_shape_witness :
  validateAnswer (host := exampleHost) (nth 2 (questions EXAMPLE_QUIZ) (gatedQuestion AND))
    (VStr "often")
  = Ok {| isValid := false;
          errors := [ {| err_questionId := "q3"; message := "Please select a rating";
                         code := invalid_format |} ] |}
  /\ Forall (fun e => err_questionId e = "q3"%string)
       [ {| err_questionId := "q3"; message := "Please select a rating";
            code := invalid_format |} ].
Proof.
  split; [reflexivity|].
  exact (proj2 (validateAnswer_result_shape (host := exampleHost)
                  (nth 2 (questions EXAMPLE_QUIZ) (gatedQuestion AND)) (VStr "often")
                  {| isValid := false;
                     errors := [ {| err_questionId := "q3";
                                    message := "Please select a rating";
                                    code := invalid_format |} ] |}
                  eq_refl)).
Defined.

Lemma validateQuizState_visible_only_witness :
  validateQuizState (host := exampleHost) (questions gatedQuiz) (freshState "gated" 0)
  = Ok {| isValid := false;
          errors := [ {| err_questionId := "q1";
                         message := "This question requires an answer";
                         code := required_code |} ] |}
  /\ Forall (fun e => exists q, In q (questions gatedQuiz)
                                /\ is_visible (host := exampleHost) q (freshState "gated" 0)
                                   = true
                                /\ err_questionId e = id q)
       [ {| err_questionId := "q1"; message := "This question requires an answer";
            code := required_code |} ].
Proof.
  split; [reflexivity|].
  exact (proj1 (validateQuizState_visible_only (host := exampleHost)
                  (questions gatedQuiz) (freshState "gated" 0)
                  {| isValid := false;
                     errors := [ {| err_questionId := "q1";
                                    message := "This question requires an answer";
                                    code := required_code |} ] |}
                  eq_refl)).
Defined.

Lemma validateQuizState_skips_hidden_witness :
  is_visible (host := exampleHost) (gatedQuestion AND) (freshState "gated" 0) = false
  /\ validateQuizState (host := exampleHost) (questions gatedQuiz) (freshState "gated" 0)
     = validateQuizState (host := exampleHost) (firstn 1 (questions gatedQuiz))
         (freshState "gated" 0).
Proof.
  split; [reflexivity|].
  exact (proj1 (validateQuizState_skips_hidden (host := exampleHost)
                  (firstn 1 (questions gatedQuiz)) [] (gatedQuestion AND)
                  (freshState "gated" 0) eq_refl)).
Defined.

Lemma validators_on_empty_witness :
  isEmpty (VStr "   ") = true
  /\ validators_required (VStr "   ") = Some "This field is required"%string
  /\ validators_email (host := exampleHost) (VStr "   ") = None.
Proof.
  split; [reflexivity|].
  destruct (validators_on_empty (host := exampleHost) (VStr "   ") (num_of_Z 3)
              (fun _ => false) "no match" eq_refl) as [H1 [H2 _]].
  split; assumption.
Defined.

Lemma scoring_ignores_unknown_answers_witness :
  findQuestion warQuiz "zz" = None
  /\ calculateCategoryScores warQuiz strayState = calculateCategoryScores warQuiz warState
  /\ calculateResults (host := exampleHost) 0 warQuiz strayState
     = calculateResults (host := exampleHost) 0 warQuiz warState.
Proof.
  split; [reflexivity|].
  destruct (scoring_ignores_unknown_answers (host := exampleHost) 0 warQuiz strayState
              (answers warState) [] (answer "zz" (VNum (num_of_Z 9)) 5) eq_refl eq_refl)
    as [H1 [_ H3]].
  split; [exact H1 | exact H3].
Defined.


Lemma getTopCategories_spec_witness :
  getTopCategories (calculateCategoryScores warQuiz warState) None
  = [ ("abandonment"%string, num_of_Z 4); ("exposure"%string, num_of_Z 3);
      ("entrapment"%string, num_of_Z 3) ]
  /\ exists rest,
       Permutation (calculateCategoryScores warQuiz warState)
         (getTopCategories (calculateCategoryScores warQuiz warState) None ++ rest)
       /\ StronglySorted ranks_before
            (getTopCategories (calculateCategoryScores warQuiz warState) None)
       /\ (forall x y,
              In x (getTopCategories (calculateCategoryScores warQuiz warState) None) ->
              In y rest -> ranks_before x y)
       /\ Z.of_nat (List.length
                      (getTopCategories (calculateCategoryScores warQuiz warState) None))
          = 3.
Proof.
  split; [reflexivity|].
  apply (getTopCategories_spec (calculateCategoryScores warQuiz warState) None).
  repeat constructor; discriminate.
Defined.

Lemma calculateSpread_greatest_difference_witness :
  Forall double [4; 3; 3; 1; 0; 0; 0; 0]%Q
  /\ calculateSpread (calculateCategoryScores warQuiz warState) = num_of_Z 4
  /\ (forall x y, In x [4; 3; 3; 1; 0; 0; 0; 0]%Q -> In y [4; 3; 3; 1; 0; 0; 0; 0]%Q ->
                  num_leb (round_double (x - y))
                    (calculateSpread (calculateCategoryScores warQuiz warState)) = true).
Proof.
  assert (Hd : Forall double [4; 3; 3; 1; 0; 0; 0; 0]%Q).
  { repeat constructor. }
  split; [exact Hd|]. split; [reflexivity|].
  destruct (calculateSpread_greatest_difference (calculateCategoryScores warQuiz warState)
              [4; 3; 3; 1; 0; 0; 0; 0]%Q eq_refl Hd)
    as [_ [_ [_ H]]].
  exact H.
Defined.

Lemma normalizeScores_entries_witness :
  normalizeScores [ ("fixer"%string, num_of_Z 3); ("vanisher"%string, num_of_Z 12) ]
    [ ("vanisher"%string, num_of_Z 24) ]
  = [ ("fixer"%string, num_of_Z 30); ("vanisher"%string, num_of_Z 50) ].
Proof.
  rewrite normalizeScores_entries; [reflexivity|].
  repeat constructor; simpl; intuition discriminate.
Defined.

Lemma submitAnswer_valid_stores_answer_witness :
  validateAnswer (host := exampleHost) (nth 2 (questions EXAMPLE_QUIZ) (gatedQuestion AND))
    (VNum (num_of_Z 4))
  = Ok {| isValid := true; errors := [] |}
  /\ getAnswer
       (snd (submitAnswer (host := exampleHost) exampleClock (VNum (num_of_Z 4))
               (exampleEngine 2)))
       "q3"
     = Some {| ans_questionId := "q3"; ans_value := VNum (num_of_Z 4);
               ans_timestamp := 1000 |}.
Proof.
  split; [reflexivity|].
  destruct (submitAnswer_valid_stores_answer (host := exampleHost) exampleClock
              (VNum (num_of_Z 4)) (exampleEngine 2)
              (nth 2 (questions EXAMPLE_QUIZ) (gatedQuestion AND))
              {| isValid := true; errors := [] |} eq_refl eq_refl eq_refl)
    as [_ [_ [H _]]].
  exact H.
Defined.

Lemma next_then_previous_witness :
  fst (next (host := exampleHost) exampleClock (exampleEngine 0)) = true
  /\ fst (previous (host := exampleHost) exampleClock
            (snd (next (host := exampleHost) exampleClock (exampleEngine 0))))
     = true
  /\ state (snd (previous (host := exampleHost) exampleClock
                   (snd (next (host := exampleHost) exampleClock (exampleEngine 0)))))
     = state (exampleEngine 0).
Proof.
  split; [reflexivity|].
  exact (next_then_previous (host := exampleHost) exampleClock exampleClock
           (exampleEngine 0) (nth 0 (questions EXAMPLE_QUIZ) (gatedQuestion AND))
           eq_refl eq_refl eq_refl eq_refl).
Defined.

Lemma skip_spec_witness :
  fst (skip (host := exampleHost) exampleClock optionalEngine) = true
  /\ currentQuestionIndex
       (state (snd (skip (host := exampleHost) exampleClock optionalEngine))) = 1
  /\ answers (state (snd (skip (host := exampleHost) exampleClock optionalEngine))) = [].
Proof.
  destruct (skip_spec (host := exampleHost) exampleClock optionalEngine
              (nth 0 (questions optionalQuiz) (gatedQuestion AND)) eq_refl)
    as [_ H].
  destruct (H eq_refl) as [Hf [Hs [Ha _]]].
  split; [rewrite Hf; reflexivity|].
  split; [rewrite Hs; reflexivity | rewrite Ha; reflexivity].
Defined.

Lemma setMetadata_merges_witness :
  exists m,
    metadata (state (setMetadata exampleClock [ ("gender"%string, VStr "f") ]
                       (exampleEngine 0)))
    = Some m
    /\ lookup "gender" m = Some (VStr "f").
Proof.
  destruct (setMetadata_merges exampleClock [ ("gender"%string, VStr "f") ]
              (exampleEngine 0) "gender")
    as [H _].
  - repeat constructor. simpl. intuition.
  - exact H.
Defined.

Lemma initializeQuestionOrder_permutation_witness :
  exists order,
    initializeQuestionOrder halfRandom randomizedQuiz = Some order
    /\ Permutation order [0; 1; 2].
Proof.
  destruct (initializeQuestionOrder_permutation halfRandom randomizedQuiz)
    as [order [H1 [H2 _]]].
  - intros k. exists (1 # 2)%Q. split; [reflexivity | split; lra].
  - exists order. split; [exact H1 | exact H2].
Defined.

Lemma formatScoresForBars_ranked_witness :
  map bar_key (formatScoresForBars (calculateCategoryScores warQuiz warState) (fun k => k))
  = [ "abandonment"; "exposure"; "entrapment"; "erasure";
      "flooded"; "armored"; "phantom"; "analyzer" ]%string
  /\ StronglySorted (fun a b => num_ltb (bar_value a) (bar_value b) = false)
       (formatScoresForBars (calculateCategoryScores warQuiz warState) (fun k => k)).
Proof.
  split; [reflexivity|].
  destruct (formatScoresForBars_ranked (calculateCategoryScores warQuiz warState)
              (fun k => k))
    as [_ [_ [H _]]].
  - repeat constructor; discriminate.
  - exact H.
Defined.
